(** * Hyperspectral calibration and spectral extraction

    A shallow embedding of the two notebooks of the repository:

    - [hsi_calibration_automated.ipynb]: [resize_hyperspectral_image],
      [apply_calibration], the file names of [save_hyperspectral_image]
      and the choice of files of [process_directory];
    - the spectral extraction notebook: [process_image], its report and
      the names of its files, and the batch cell.

    Arrays are nested lists indexed (row, column, band).  The elements of
    the cubes are IEEE 754 binary32 numbers (the images are loaded and
    saved as [float32]); wavelengths and Python scalars are binary64.
    Both formats are the ones of [SpecFloat], whose operations are total
    functions that round to nearest even and produce NaN and the
    infinities the way numpy does.  Resampling alone is studied over
    rational elements, the finite values, with exact weighted sums at
    the binary64 coordinates that scipy computes.  Exceptions are
    results; the process-wide random generator of numpy is a state
    threaded through [process_image]. *)

From Stdlib Require Import Ascii String DecimalString.
From Stdlib Require Import ZArith PArith QArith Qround List Bool Arith Lia.
From Stdlib Require Import Permutation Sorted Lqa.
From Stdlib Require Import Floats.SpecFloat.
Import ListNotations.

Close Scope Q_scope.
Close Scope Z_scope.
Set Implicit Arguments.

(* ================================================================== *)
(** * Python exceptions and results *)
(* ================================================================== *)

(** The exception classes that the modelled code can raise, and the two
    classes that the specification names for the extractor
    ([EmptyRegionError], [InsufficientDataError]); no statement of the
    notebooks raises the latter two. *)
Inductive exn : Set :=
| ValueError
| ZeroDivisionError
| IndexError
| OverflowError
| EmptyRegionError
| InsufficientDataError.

Inductive result (A : Type) : Type :=
| OK (a : A)
| Raise (e : exn).

Arguments OK {A} a.
Arguments Raise {A} e.

Definition rbind {A B} (r : result A) (k : A -> result B) : result B :=
  match r with
  | OK a => k a
  | Raise e => Raise e
  end.

Declare Scope result_scope.
Delimit Scope result_scope with result.
Notation "'let?' x ':=' r 'in' k" := (rbind r (fun x => k))
  (at level 10, x pattern, r at level 100, k at level 200) : result_scope.
Local Open Scope result_scope.

Fixpoint mapM {A B} (f : A -> result B) (xs : list A) : result (list B) :=
  match xs with
  | [] => OK []
  | x :: rest =>
      let? y := f x in
      let? ys := mapM f rest in
      OK (y :: ys)
  end.

(** [zipM f xs ys]: [f] on the pairs of two lists of equal length. *)
Fixpoint zipM {A B C} (f : A -> B -> result C) (xs : list A) (ys : list B)
  : result (list C) :=
  match xs, ys with
  | [], [] => OK []
  | x :: xs', y :: ys' =>
      let? z := f x y in
      let? zs := zipM f xs' ys' in
      OK (z :: zs)
  | _, _ => Raise ValueError
  end.

(** The elementwise combination of two lists. *)
Definition zip_with {A B C} (f : A -> B -> C) (xs : list A) (ys : list B)
  : list C :=
  map (fun p => f (fst p) (snd p)) (combine xs ys).

(* ================================================================== *)
(** * Floating-point formats *)
(* ================================================================== *)

Abbreviation float := spec_float.

Definition is_nan (x : float) : bool :=
  match x with
  | S754_nan => true
  | _ => false
  end.

Definition is_finite (x : float) : bool :=
  match x with
  | S754_zero _ | S754_finite _ _ _ => true
  | _ => false
  end.

(** numpy [float32]. *)
Module F32.
Definition prec : Z := 24%Z.
Definition emax : Z := 128%Z.
Definition add := SFadd prec emax.
Definition sub := SFsub prec emax.
Definition div := SFdiv prec emax.
Definition of_Z (z : Z) : float := binary_normalize prec emax z 0%Z false.
Definition zero : float := S754_zero false.
Definition one : float := S754_finite false 8388608 (-23)%Z.
End F32.

(** Python [float], numpy [float64]. *)
Module F64.
Definition prec : Z := 53%Z.
Definition emax : Z := 1024%Z.
Definition sub := SFsub prec emax.
Definition mul := SFmul prec emax.
Definition of_Z (z : Z) : float := binary_normalize prec emax z 0%Z false.
Definition div := SFdiv prec emax.
Definition one : float := S754_finite false 4503599627370496 (-52)%Z.

(** The rational that a finite number is; [None] for NaN and the
    infinities. *)
Definition to_Q (x : float) : option Q :=
  match x with
  | S754_zero _ => Some 0%Q
  | S754_finite s m e =>
      let magnitude :=
        match e with
        | Z0 => inject_Z (Zpos m)
        | Zpos p => inject_Z (Zpos m * 2 ^ Zpos p)
        | Zneg p => (Zpos m # 2 ^ p)%Q
        end in
      Some (if s then (- magnitude)%Q else magnitude)
  | S754_infinity _ | S754_nan => None
  end.
End F64.

(** A cube is indexed (row, column, band). *)
Definition cube (A : Type) : Type := list (list (list A)).

Definition cube_get {A} (c : cube A) (i j k : nat) : option A :=
  match nth_error c i with
  | Some row =>
      match nth_error row j with
      | Some px => nth_error px k
      | None => None
      end
  | None => None
  end.

(** The extents of the band axis at every position: two cubes with the
    same [dims] have the same shape, axis by axis. *)
Definition dims {A} (c : cube A) : list (list nat) :=
  map (map (@length A)) c.

(* ================================================================== *)
(** * Python strings and [os.path] *)
(* ================================================================== *)

(** The operations of [str] that the notebooks use on file names. *)
Module Str.

(** [s.startswith(p)]. *)
Definition startswith (s p : string) : bool := prefix p s.

(** [s.endswith(suffix)]: some tail of [s] is [suffix]. *)
Fixpoint endswith (s suffix : string) : bool :=
  String.eqb s suffix
  || match s with
     | EmptyString => false
     | String _ rest => endswith rest suffix
     end.

(** [needle in s]: [needle] starts some tail of [s]. *)
Fixpoint contains (needle s : string) : bool :=
  prefix needle s
  || match s with
     | EmptyString => false
     | String _ rest => contains needle rest
     end.

(** [s.rfind(c)] for a single character: the last position of [c], or
    [None] for Python's [-1]. *)
Fixpoint rfind (c : ascii) (s : string) : option nat :=
  match s with
  | EmptyString => None
  | String a rest =>
      match rfind c rest with
      | Some k => Some (S k)
      | None => if Ascii.eqb a c then Some 0 else None
      end
  end.

(** [s[i:]] and [s[:i]]. *)
Fixpoint slice_from (i : nat) (s : string) : string :=
  match i, s with
  | 0, _ => s
  | S _, EmptyString => EmptyString
  | S i', String _ rest => slice_from i' rest
  end.

Fixpoint slice_to (i : nat) (s : string) : string :=
  match i, s with
  | 0, _ => EmptyString
  | S _, EmptyString => EmptyString
  | S i', String a rest => String a (slice_to i' rest)
  end.

(** [s.rstrip(c)]. *)
Fixpoint rstrip (c : ascii) (s : string) : string :=
  match s with
  | EmptyString => EmptyString
  | String a rest =>
      match rstrip c rest with
      | EmptyString => if Ascii.eqb a c then EmptyString
                       else String a EmptyString
      | kept => String a kept
      end
  end.

(** [c * n]. *)
Fixpoint times (c : ascii) (n : nat) : string :=
  match n with
  | 0 => EmptyString
  | S n' => String c (times c n')
  end.

(** The decimal numerals that an f-string prints for integers. *)
Definition of_nat (n : nat) : string :=
  NilZero.string_of_uint (Nat.to_uint n).

Definition of_Z (z : Z) : string :=
  NilZero.string_of_int (Z.to_int z).

(** The truth value of [f] in [if f and ...], for [f] a name or
    [None]. *)
Definition truthy (f : option string) : bool :=
  match f with
  | Some name => negb (String.eqb name EmptyString)
  | None => false
  end.

End Str.

(** [os.path] in its POSIX flavour ([posixpath]): the separator is the
    slash. *)
Module OsPath.

Definition sep : ascii := "/"%char.
Definition extsep : ascii := "."%char.

(** [p.rfind(sep) + 1]. *)
Definition after_last_sep (p : string) : nat :=
  match Str.rfind sep p with
  | Some k => S k
  | None => 0
  end.

(**
<<
  i = p.rfind(sep) + 1
  return p[i:]
>> *)
Definition basename (p : string) : string :=
  Str.slice_from (after_last_sep p) p.

(**
<<
  i = p.rfind(sep) + 1
  head = p[:i]
  if head and head != sep*len(head):
      head = head.rstrip(sep)
  return head
>> *)
Definition dirname (p : string) : string :=
  let head := Str.slice_to (after_last_sep p) p in
  if negb (String.eqb head EmptyString)
     && negb (String.eqb head (Str.times sep (String.length head)))
  then Str.rstrip sep head
  else head.

(** One step of the loop of [join(a, *p)]:
<<
  if b.startswith(sep):
      path = b
  elif not path or path.endswith(sep):
      path += b
  else:
      path += sep + b
>> *)
Definition join2 (path b : string) : string :=
  if Str.startswith b "/" then b
  else if String.eqb path EmptyString || Str.endswith path "/"
       then (path ++ b)%string
       else (path ++ "/" ++ b)%string.

Definition join (a : string) (p : list string) : string :=
  fold_left join2 p a.

(** What [join] puts before a file name that holds no separator: nothing
    after an empty directory, the directory itself when it ends with the
    separator, the directory and a separator otherwise. *)
Definition head_of (root : string) : string :=
  if String.eqb root EmptyString then EmptyString
  else if Str.endswith root "/" then root
       else (root ++ "/")%string.

(** The loop of [splitext] over the characters between the start of the
    file name and its last dot: a character that is not a dot ends it. *)
Fixpoint has_stem (s : string) : bool :=
  match s with
  | EmptyString => false
  | String a rest => if Ascii.eqb a extsep then has_stem rest else true
  end.

(**
<<
  sepIndex = p.rfind(sep)
  dotIndex = p.rfind(extsep)
  if dotIndex > sepIndex:
      filenameIndex = sepIndex + 1
      while filenameIndex < dotIndex:
          if p[filenameIndex:filenameIndex+1] != extsep:
              return p[:dotIndex], p[dotIndex:]
          filenameIndex += 1
  return p, p[:0]
>> *)
Definition splitext (p : string) : string * string :=
  match Str.rfind extsep p with
  | Some dotIndex =>
      if (after_last_sep p <=? dotIndex)
         && has_stem (Str.slice_from (after_last_sep p)
                                     (Str.slice_to dotIndex p))
      then (Str.slice_to dotIndex p, Str.slice_from dotIndex p)
      else (p, EmptyString)
  | None => (p, EmptyString)
  end.

(** [os.walk(top)]: the directories under [top], each with its path and
    the names of its files. *)
Definition walk : Type := list (string * list string).

End OsPath.

(* ================================================================== *)
(** * The calibrator *)
(* ================================================================== *)

Module Calibrator.

(** ** Elementwise arithmetic of numpy

    [broadcast f xs ys] combines two axes of equal extent
    elementwise; an axis of extent one is stretched to the other
    extent; any other pair of extents raises [ValueError]. *)
Definition broadcast {A B C} (f : A -> B -> result C)
           (xs : list A) (ys : list B) : result (list C) :=
  if length xs =? length ys then zipM f xs ys
  else
    match xs, ys with
    | [x], _ => mapM (f x) ys
    | _, [y] => mapM (fun x => f x y) xs
    | _, _ => Raise ValueError
    end.

Definition elementwise (op : float -> float -> float)
           (a b : cube float) : result (cube float) :=
  broadcast (broadcast (broadcast (fun x y => OK (op x y)))) a b.

(** ** [np.clip]

    The floating-point loops of numpy's clip are
    [min (max x lo) hi], where [max a b] is [a] when [a] is NaN or
    [a > b], and [min a b] is [a] when [a] is NaN or [a < b]. *)
Definition npy_max (a b : float) : float :=
  if is_nan a then a else if SFltb b a then a else b.

Definition npy_min (a b : float) : float :=
  if is_nan a then a else if SFltb a b then a else b.

Definition clip (x lo hi : float) : float := npy_min (npy_max x lo) hi.

(** ** [apply_calibration]

<<
  calibrated_image = (raw_image - dark_ref) / (white_ref - dark_ref)
  calibrated_image = np.clip(calibrated_image, 0, 1)
  return calibrated_image
>> *)
Definition apply_calibration (raw_image white_ref dark_ref : cube float)
  : result (cube float) :=
  let? numerator := elementwise F32.sub raw_image dark_ref in
  let? denominator := elementwise F32.sub white_ref dark_ref in
  let? calibrated_image := elementwise F32.div numerator denominator in
  OK (map (map (map (fun x => clip x F32.zero F32.one))) calibrated_image).

(** The value of one element, as a function of the three inputs at
    that position. *)
Definition quotient (r w d : float) : float :=
  F32.div (F32.sub r d) (F32.sub w d).

Definition calibrated_value (r w d : float) : float :=
  clip (quotient r w d) F32.zero F32.one.

(** Membership of the closed interval [0, 1]. *)
Definition in_unit_interval (x : float) : bool :=
  SFleb F32.zero x && SFleb x F32.one.

(** ** [scipy.ndimage.zoom] with [order=1]

    The elements of the resampled cubes are rationals, the real numbers
    that the finite floating-point values of a capture stand for, and
    the weighted sums of the interpolation are exact.  What decides
    which samples enter a sum is computed in binary64, as scipy does:
    the output extent of an axis is [int(round(ii * jj))]; zoom
    recomputes the scale of the axis, [(ii - 1) / (oo - 1)] (1 when
    [oo = 1]), and the coordinate of output index [k] is the product
    [k * scale]; a coordinate below 0 or above [ii - 1], be it by one
    rounding, is outside the input and the default mode ['constant']
    gives the output [cval = 0] there.  Inside, a linear spline weighs
    the two neighbouring samples [floor cc] and [floor cc + 1] by
    [1 - t] and [t], with [t] the fractional part; a neighbour past the
    last sample is mirrored. *)

Definition shape {A} (c : cube A) : nat * nat * nat :=
  (length c, length (hd [] c), length (hd [] (hd [] c))).

(** Every row has the columns, and every pixel the bands, of the
    shape: the cube is an array. *)
Definition rectangular {A} (c : cube A) : bool :=
  let '(_, n1, n2) := shape c in
  forallb (fun row =>
             (length row =? n1)
             && forallb (fun px : list A => length px =? n2) row) c.

(** Python's [round]: to the nearest integer, halves to even. *)
Definition py_round (q : Q) : Z :=
  let f := Qfloor q in
  match Qcompare (q - inject_Z f) (1 # 2)%Q with
  | Lt => f
  | Gt => (f + 1)%Z
  | Eq => if Z.even f then f else (f + 1)%Z
  end.

(** [int(round(ii * jj))].  The factors that reach [zoom] are 1 and
    quotients [t / ii] of two extents; the binary64 value of
    [ii * (t / ii)] differs from [t] by less than a half for every [t]
    below [2 ^ 51], so that rounding it gives the extent [t] that
    rounding the exact product gives. *)
Definition output_extent (ii : nat) (jj : Q) : nat :=
  Z.to_nat (py_round (inject_Z (Z.of_nat ii) * jj)%Q).

(**
<<
  zoom = numpy.divide(zoom_nominator, zoom_div,
                      out=numpy.ones_like(input.shape, dtype=float64),
                      where=zoom_div != 0)
>> *)
Definition axis_scale (ii oo : nat) : float :=
  if (Z.of_nat oo - 1 =? 0)%Z then F64.one
  else F64.div (F64.of_Z (Z.of_nat ii - 1)) (F64.of_Z (Z.of_nat oo - 1)).

(** [cc = (double)kk * zoom]. *)
Definition coordinate (ii oo k : nat) : float :=
  F64.mul (F64.of_Z (Z.of_nat k)) (axis_scale ii oo).

(** scipy's [map_coordinate] in mode ['constant']: a coordinate below
    0 or above [len - 1] is outside the input ([None] for scipy's
    [-1]), and so is one that is not a number. *)
Definition map_coordinate (cc : float) (len : nat) : option Q :=
  match F64.to_Q cc with
  | Some c =>
      if Qle_bool 0%Q c && Qle_bool c (inject_Z (Z.of_nat len - 1))
      then Some c
      else None
  | None => None
  end.

(** The two samples and the fraction for output index [k], or [None]
    when the coordinate falls outside the input. *)
Definition axis_coordinate (ii oo k : nat) : option (nat * nat * Q) :=
  match map_coordinate (coordinate ii oo k) ii with
  | Some cc =>
      let start := Z.to_nat (Qfloor cc) in
      let next :=
        if S start <? ii then S start
        else if ii <=? 1 then 0 else ii - 2 in
      Some (start, next, (cc - inject_Z (Qfloor cc))%Q)
  | None => None
  end.

Definition weights (s : nat * nat * Q) : list (nat * Q) :=
  let '(start, next, t) := s in [(start, (1 - t)%Q); (next, t)].

Definition sample (input : cube Q) (i j k : nat) : Q :=
  match cube_get input i j k with
  | Some x => x
  | None => 0%Q
  end.

(** The weighted sum over the [2 * 2 * 2] neighbours. *)
Definition interpolate (input : cube Q)
           (c0 c1 c2 : option (nat * nat * Q)) : Q :=
  match c0, c1, c2 with
  | Some s0, Some s1, Some s2 =>
      fold_left Qplus
        (flat_map (fun '(i, wi) =>
           flat_map (fun '(j, wj) =>
             map (fun '(k, wk) => (sample input i j k * wi * wj * wk)%Q)
                 (weights s2))
             (weights s1))
           (weights s0))
        0%Q
  | _, _, _ => 0%Q
  end.

Definition zoom (input : cube Q) (factors : Q * Q * Q) : cube Q :=
  let '(n0, n1, n2) := shape input in
  let '(z0, z1, z2) := factors in
  let m0 := output_extent n0 z0 in
  let m1 := output_extent n1 z1 in
  let m2 := output_extent n2 z2 in
  map (fun i =>
    map (fun j =>
      map (fun k =>
        interpolate input (axis_coordinate n0 m0 i)
                    (axis_coordinate n1 m1 j)
                    (axis_coordinate n2 m2 k))
        (seq 0 m2))
      (seq 0 m1))
    (seq 0 m0).

(** Python's true division of two extents. *)
Definition true_div (a b : nat) : result Q :=
  if b =? 0 then Raise ZeroDivisionError
  else OK (Qred (Z.of_nat a # Pos.of_nat b)).

(** ** [resize_hyperspectral_image]

<<
  factors = (
      target_shape[0] / image.shape[0],
      target_shape[1] / image.shape[1],
      1
  )
  return zoom(image, factors, order=1)
>> *)
Definition factors (image : cube Q) (target_shape : nat * nat * nat)
  : result (Q * Q * Q) :=
  let '(t0, t1, _) := target_shape in
  let '(s0, s1, _) := shape image in
  let? f0 := true_div t0 s0 in
  let? f1 := true_div t1 s1 in
  OK (f0, f1, 1%Q).

Definition resize_hyperspectral_image (image : cube Q)
           (target_shape : nat * nat * nat) : result (cube Q) :=
  let? fs := factors image target_shape in
  OK (zoom image fs).

(** ** [save_hyperspectral_image] and [process_directory]: the files

    [file_path] is where [save_hyperspectral_image] writes the header of
    the calibrated image:
<<
  calibrated_dir = os.path.join(root_directory, "calibrated")
  image_output_dir = os.path.join(calibrated_dir, image_name)
  file_path = os.path.join(image_output_dir,
                           f"{image_name}_calibrated.hdr")
>> *)
Definition file_path (root_directory image_name : string) : string :=
  let calibrated_dir := OsPath.join root_directory ["calibrated"%string] in
  let image_output_dir := OsPath.join calibrated_dir [image_name] in
  OsPath.join image_output_dir
              [(image_name ++ "_calibrated.hdr")%string].

(** The three generators of [process_directory]; [next(..., None)] is
    the first match or [None]. *)
Definition raw_image_file (files : list string) : option string :=
  find (fun f => Str.endswith f ".hdr"
                 && negb (Str.contains "WHITEREF" f)
                 && negb (Str.contains "DARKREF" f)) files.

Definition white_ref_file (files : list string) : option string :=
  find (fun f => Str.contains "WHITEREF" f) files.

Definition dark_ref_file (files : list string) : option string :=
  find (fun f => Str.contains "DARKREF" f) files.

(** What [process_directory] does with one directory of the walk: the
    three files it loads, the name of the image and the file it saves. *)
Record calibration : Type := {
  raw_image_path : string;
  white_ref_path : string;
  dark_ref_path : string;
  image_name : string;
  saved_file : string
}.

Definition process_files (directory root : string) (files : list string)
  : option calibration :=
  match raw_image_file files, white_ref_file files, dark_ref_file files
  with
  | Some raw, Some white, Some dark =>
      if Str.truthy (Some raw) && Str.truthy (Some white)
         && Str.truthy (Some dark)
      then
        let name := fst (OsPath.splitext raw) in
        Some {| raw_image_path := OsPath.join root [raw];
                white_ref_path := OsPath.join root [white];
                dark_ref_path := OsPath.join root [dark];
                image_name := name;
                saved_file := file_path directory name |}
      else None
  | _, _, _ => None
  end.

(** [process_directory]: the calibrations of a walk, in its order, as
    long as no load, resize or calibration raises (an exception ends the
    loop). *)
Definition process_directory (directory : string) (tree : OsPath.walk)
  : list calibration :=
  flat_map (fun entry =>
              match process_files directory (fst entry) (snd entry) with
              | Some c => [c]
              | None => []
              end) tree.

End Calibrator.

(* ================================================================== *)
(** * The extractor *)
(* ================================================================== *)

Module Extractor.

Definition table : Type := list (list float).

(** ** numpy's legacy random generator

    [np.random.seed(42)] and [random_state=42] initialise a Mersenne
    Twister; pandas' [sample] without replacement draws
    [permutation(n)[:size]] from it.  The generator is an interface:
    a state, its seeding, and the drawing of a permutation of
    [0 .. n-1], which returns the advanced state. *)
Record RandomState : Type := {
  rng : Type;
  seed : Z -> rng;
  permutation : rng -> nat -> list nat * rng;
  permutation_spec :
    forall s n, Permutation (fst (permutation s n)) (seq 0 n)
}.

(** ** Band selection: [np.argmin(np.abs(wavelengths - target))]

    numpy's [argmin] over floats keeps the first element for which no
    earlier one is smaller, and stops at the first NaN:
    [if (!(x >= mp)) { mp = x; min_ind = i; if (isnan(mp)) break; }]. *)
Fixpoint argmin_loop (mp : float) (min_ind i : nat) (xs : list float)
  : nat :=
  match xs with
  | [] => min_ind
  | x :: rest =>
      if negb (SFleb mp x) then
        if is_nan x then i else argmin_loop x i (S i) rest
      else argmin_loop mp min_ind (S i) rest
  end.

Definition np_argmin (xs : list float) : result nat :=
  match xs with
  | [] => Raise ValueError
  | x :: rest => OK (if is_nan x then 0 else argmin_loop x 0 1 rest)
  end.

Definition abs_difference (target w : float) : float :=
  SFabs (F64.sub w target).

(** [i] is the first position of a least element of [xs]. *)
Definition first_minimum (xs : list float) (i : nat) : Prop :=
  exists m,
    nth_error xs i = Some m /\
    forall j v,
      nth_error xs j = Some v ->
      SFleb m v = true /\ (j < i -> SFltb m v = true).

Definition nearest_band (wavelengths : list float) (target : float)
  : result nat :=
  np_argmin (map (abs_difference target) wavelengths).

Definition nm_751 : float := F64.of_Z 751.
Definition nm_676 : float := F64.of_Z 676.

(** ** Ratio image and mask *)

(** [img[:, :, band]]. *)
Definition read_band (img : cube float) (band : nat)
  : result (list (list float)) :=
  mapM (mapM (fun px : list float =>
                match nth_error px band with
                | Some x => OK x
                | None => Raise IndexError
                end)) img.

Definition ratio_image (img : cube float) (i751 i676 : nat)
  : result (list (list float)) :=
  let? numerator := read_band img i751 in
  let? denominator := read_band img i676 in
  OK (zip_with (zip_with F32.div) numerator denominator).

(** [ratio_image > threshold]. *)
Definition greater (ratio : list (list float)) (threshold : float)
  : list (list bool) :=
  map (map (fun r => SFltb threshold r)) ratio.

Definition plane_get {A} (p : list (list A)) (x y : nat) : option A :=
  match nth_error p x with
  | Some row => nth_error row y
  | None => None
  end.

(** The defaults of [process_image]: [threshold=1.5] and
    [quality_filter_threshold=0.01], in the [float32] of the arrays they
    are compared with. *)
Definition default_threshold : float :=
  S754_finite false 12582912 (-23)%Z.

Definition default_quality_filter_threshold : float :=
  S754_finite false 10737418 (-30)%Z.

(** ** The two renders

    [imshow(img, (86, 52, 18))], called for the original image and again
    under the mask overlay, reads three fixed bands; a band past the last
    one of the image raises [IndexError].  Nothing else of the plots bears
    on the tables. *)
Definition display_bands : list nat := [86; 52; 18].

Definition imshow (img : cube float) : result unit :=
  let? _ := mapM (read_band img) display_bands in
  OK tt.

(** ** Spectra under the mask *)

Definition enumerate {A} (xs : list A) : list (nat * A) :=
  combine (seq 0 (length xs)) xs.

Definition nonzero (row : list bool) : list nat :=
  map fst (filter snd (enumerate row)).

(** [np.argwhere(mask)]: the true positions in row-major order. *)
Definition argwhere (mask : list (list bool)) : list (nat * nat) :=
  flat_map (fun p => map (fun y => (fst p, y)) (nonzero (snd p)))
           (enumerate mask).

(** The row-major order of pixel positions. *)
Definition row_major (p q : nat * nat) : Prop :=
  fst p < fst q \/ (fst p = fst q /\ snd p < snd q).

(** [img[x, y, :]]. *)
Definition read_pixel (img : cube float) (idx : nat * nat)
  : result (list float) :=
  match nth_error img (fst idx) with
  | Some row =>
      match nth_error row (snd idx) with
      | Some px => OK px
      | None => Raise IndexError
      end
  | None => Raise IndexError
  end.

(** [np.array(spectra_data).reshape(len(spectra_data), -1)]: numpy
    cannot infer the free axis of an empty array and raises
    [ValueError] (cannot reshape array of size 0 into shape
    (0,newaxis)). *)
Definition reshape_rows (spectra_data : table) : result table :=
  if length spectra_data =? 0 then Raise ValueError else OK spectra_data.

(** ** The column labels: [f"{wavelength:.2f}"]

    Python prints the decimal numeral with two digits after the point
    that is nearest to the exact value of the float, a tie going to the
    even digit; a value that is not finite prints as [nan], [inf] or
    [-inf], and the sign of a negative value is kept when the digits are
    all zero. *)
Definition negative (w : float) : bool :=
  match w with
  | S754_zero s | S754_infinity s | S754_finite s _ _ => s
  | S754_nan => false
  end.

Definition two_digits (n : Z) : string :=
  ((if (n <? 10)%Z then "0" else "") ++ Str.of_Z n)%string.

Definition format_2f (w : float) : string :=
  match F64.to_Q (SFabs w) with
  | Some magnitude =>
      let hundredths := Calibrator.py_round (magnitude * 100)%Q in
      ((if negative w then "-" else "")
       ++ Str.of_Z (hundredths / 100) ++ "."
       ++ two_digits (hundredths mod 100))%string
  | None =>
      if is_nan w then "nan"%string
      else if negative w then "-inf"%string else "inf"%string
  end.

(** [wavelength_columns = [f"{wavelength:.2f}" for wavelength in
    wavelengths]]. *)
Definition wavelength_columns (wavelengths : list float) : list string :=
  map format_2f wavelengths.

(** [pd.DataFrame(spectra_data, columns=wavelength_columns)]: the
    number of columns must be the number of labels. *)
Definition DataFrame (spectra_data : table) (columns : nat)
  : result table :=
  if forallb (fun row : list float => length row =? columns) spectra_data
  then OK spectra_data
  else Raise ValueError.

(** ** pandas' mean

    [mean] skips NaN: the NaN entries are replaced by zero and summed,
    the sum is divided by the number of entries that are not NaN, and
    the mean of no entry is NaN.  The sum is taken in [float32] from
    left to right; pandas leaves its order to numpy, and no theorem
    below depends on it. *)
Definition np_sum (xs : list float) : float :=
  match xs with
  | [] => F32.zero
  | x :: rest => fold_left F32.add rest x
  end.

Definition nanmean (xs : list float) : float :=
  let count := length (filter (fun x => negb (is_nan x)) xs) in
  let the_sum :=
    np_sum (map (fun x => if is_nan x then F32.zero else x) xs) in
  if count =? 0 then S754_nan
  else F32.div the_sum (F32.of_Z (Z.of_nat count)).

(** [df[row_means >= quality_filter_threshold].reset_index(drop=True)]. *)
Definition quality_filter (quality_filter_threshold : float) (df : table)
  : table :=
  filter (fun row => SFleb quality_filter_threshold (nanmean row)) df.

(** [block.mean(axis=0)]: the mean of every column.  The labels of the
    columns, [wavelength_columns], play no part in the tables of the
    model; they are taken to be distinct, as pandas needs them to be
    when it builds a table from the means of the groups. *)
Definition mean_axis0 (columns : nat) (block : table) : list float :=
  map (fun j => nanmean (map (fun row => nth j row S754_nan) block))
      (seq 0 columns).

(** [df.iloc[start:stop]]. *)
Definition iloc (rows : table) (start stop : nat) : table :=
  firstn (stop - start) (skipn start rows).

(** [df.take(indices)]. *)
Definition take (rows : table) (indices : list nat) : table :=
  map (fun i => nth i rows []) indices.

(** Python's [a // b] on lengths. *)
Definition floordiv (a b : nat) : result nat :=
  if b =? 0 then Raise ZeroDivisionError else OK (a / b).

(** Python's [int(x)]: truncation. *)
Definition int (x : float) : result Z :=
  match x with
  | S754_zero _ => OK 0%Z
  | S754_finite s m e =>
      let v :=
        match e with
        | Z0 => Zpos m
        | Zpos p => (Zpos m * 2 ^ Zpos p)%Z
        | Zneg p => (Zpos m / 2 ^ Zpos p)%Z
        end in
      OK (if s then (- v)%Z else v)
  | S754_infinity _ => Raise OverflowError
  | S754_nan => Raise ValueError
  end.

(** The literal [0.03]: 0x1.eb851eb851eb8p-6. *)
Definition three_percent : float :=
  S754_finite false 8646911284551352 (-58)%Z.

(** [int(len(averaged_df_shuffled) * 0.03)]. *)
Definition count_3_percent (rows : nat) : result nat :=
  let? n := int (F64.mul (F64.of_Z (Z.of_nat rows)) three_percent) in
  OK (Z.to_nat n).

(** ** What a run leaves behind

    [process_image] returns nothing; it saves the mask overlay, the
    CSV of [top_3_percent_df] and a report of the row counts.  The
    model returns the tables those artifacts are written from. *)
Record extraction : Type := {
  mask : list (list bool);
  df : table;
  filtered_df : table;
  group_size : nat;
  averaged_df_shuffled : table;
  top_3_percent_count : nat;
  top_3_percent_df : table
}.

(** The statements of [process_image] up to the mask: band selection,
    ratio, comparison with the threshold. *)
Definition band_ratio_mask (img : cube float) (wavelengths : list float)
           (threshold : float) : result (list (list bool)) :=
  let? wavelength_751_index := nearest_band wavelengths nm_751 in
  let? wavelength_676_index := nearest_band wavelengths nm_676 in
  let? ratio :=
    ratio_image img wavelength_751_index wavelength_676_index in
  OK (greater ratio threshold).

(** The statements of [process_image] up to the DataFrame: the mask,
    the renders, then the spectra under the mask. *)
Definition spectral_table (img : cube float) (wavelengths : list float)
           (threshold : float) : result (list (list bool) * table) :=
  let? mask := band_ratio_mask img wavelengths threshold in
  let? _ := imshow img in
  let indices := argwhere mask in
  let? spectra_data := mapM (read_pixel img) indices in
  let? spectra_data := reshape_rows spectra_data in
  let? df := DataFrame spectra_data (length wavelengths) in
  OK (mask, df).

Section WithGenerator.

Variable G : RandomState.

(** Computations that read and write the process-wide generator of
    [np.random] and may raise. *)
Definition M (A : Type) : Type := rng G -> result A * rng G.

Definition ret {A} (a : A) : M A := fun g => (OK a, g).

Definition bind {A B} (m : M A) (k : A -> M B) : M B :=
  fun g =>
    match m g with
    | (OK a, g') => k a g'
    | (Raise e, g') => (Raise e, g')
    end.

Definition lift {A} (r : result A) : M A := fun g => (r, g).

Notation "'do' x '<-' m ';' k" := (bind m (fun x => k))
  (at level 10, x name, m at level 100, k at level 200).

(** [np.random.seed(s)]. *)
Definition np_random_seed (s : Z) : M unit :=
  fun _ => (OK tt, seed G s).

(** [RandomState.choice(a, size=size, replace=False)] on a given
    generator state. *)
Definition choice (g : rng G) (a size : nat)
  : result (list nat) * rng G :=
  if a <? size then (Raise ValueError, g)
  else
    let (p, g') := permutation G g a in
    (OK (firstn size p), g').

(** [df.sample(frac=1)]: drawn from the process-wide generator. *)
Definition sample_frac_1 (rows : table) : M table :=
  fun g =>
    match choice g (length rows) (length rows) with
    | (OK indices, g') => (OK (take rows indices), g')
    | (Raise e, g') => (Raise e, g')
    end.

(** [df.sample(n=n, random_state=s)]: drawn from a generator of its
    own; the process-wide one is left alone. *)
Definition sample_n (rows : table) (n : nat) (s : Z) : M table :=
  fun g =>
    match choice (seed G s) (length rows) n with
    | (OK indices, _) => (OK (take rows indices), g)
    | (Raise e, _) => (Raise e, g)
    end.

(** The statements of [process_image] from the quality filter on. *)
Definition group_and_sample (mask : list (list bool)) (df : table)
           (columns : nat) (group_size : option nat)
           (quality_filter_threshold : float) : M extraction :=
  let filtered_df := quality_filter quality_filter_threshold df in
  let group_size :=
    match group_size with
    | None => length filtered_df
    | Some n => n
    end in
  do seeded <- np_random_seed 42;
  do num_groups <- lift (floordiv (length filtered_df) group_size);
  do shuffled_df <- sample_frac_1 filtered_df;
  let averaged_rows :=
    map (fun i => mean_axis0 columns
                    (iloc shuffled_df (i * group_size)
                          ((i + 1) * group_size)))
        (seq 0 num_groups) in
  let averaged_df_shuffled := averaged_rows in
  do top_3_percent_count <-
    lift (count_3_percent (length averaged_df_shuffled));
  do top_3_percent_df <-
    sample_n averaged_df_shuffled top_3_percent_count 42;
  ret {| mask := mask;
         df := df;
         filtered_df := filtered_df;
         group_size := group_size;
         averaged_df_shuffled := averaged_df_shuffled;
         top_3_percent_count := top_3_percent_count;
         top_3_percent_df := top_3_percent_df |}.

(** ** [process_image]

    [group_size], a number of rows per group, is a natural number or
    [None]; the thresholds are given in the [float32] in which numpy
    compares them with the arrays. *)
Definition process_image (img : cube float) (wavelengths : list float)
           (group_size : option nat)
           (threshold quality_filter_threshold : float)
  : M extraction :=
  do t <- lift (spectral_table img wavelengths threshold);
  group_and_sample (fst t) (snd t) (length wavelengths) group_size
                   quality_filter_threshold.

End WithGenerator.

(** ** The files of a run

    Every artifact of [process_image] is named after the directory that
    holds the image:
<<
  parent_directory_name = os.path.basename(os.path.dirname(image_path))
  image_output_directory = os.path.join(output_directory,
                                        parent_directory_name)
  ... os.path.join(image_output_directory,
                   f"{parent_directory_name}_original.png") ...
>> *)
Definition parent_directory_name (image_path : string) : string :=
  OsPath.basename (OsPath.dirname image_path).

Definition image_output_directory (image_path output_directory : string)
  : string :=
  OsPath.join output_directory [parent_directory_name image_path].

(** The endings of the seven files, in the order of their writing. *)
Definition artifact_suffixes : list string :=
  ["_original.png"; "_mask_overlay.png"; "_average_spectra_filtered.png";
   "_average_spectra_std_filtered.png"; "_selected_3_percent_spectra.png";
   "_averaged_spectra.csv"; "_report.txt"]%string.

Definition artifacts (image_path output_directory : string)
  : list string :=
  map (fun suffix =>
         OsPath.join (image_output_directory image_path output_directory)
                     [(parent_directory_name image_path ++ suffix)%string])
      artifact_suffixes.

(** The batch cell: every file of the walk whose name ends in [.hdr] is
    processed, under the path [os.path.join(root, file)]. *)
Definition image_paths (tree : OsPath.walk) : list string :=
  flat_map (fun entry =>
              map (fun file => OsPath.join (fst entry) [file])
                  (filter (fun file => Str.endswith file ".hdr")
                          (snd entry)))
           tree.

(** ** The report *)

(** [np.count_nonzero(mask)]. *)
Definition count_nonzero (mask : list (list bool)) : nat :=
  list_sum (map (fun row => length (filter (fun b : bool => b) row)) mask).

Definition newline : string := String (ascii_of_nat 10) EmptyString.

(** The lines that [process_image] writes to the report, in order. *)
Definition report (out : extraction) : list string :=
  let num_pixels_mask := count_nonzero (mask out) in
  let num_rows_df := length (df out) in
  let rows_removed :=
    (Z.of_nat (length (df out)) - Z.of_nat (length (filtered_df out)))%Z in
  [ ("Pixels within the mask containing biomass: "
       ++ Str.of_nat num_pixels_mask ++ newline)%string;
    ((if Nat.eqb num_pixels_mask num_rows_df
      then
        "Number of pixels in mask and number of rows in df are the same."
      else
        "Number of pixels in mask and number of rows in df are different.")
       ++ newline)%string;
    ("Original number of rows: " ++ Str.of_nat (length (df out))
       ++ newline)%string;
    ("Number of rows after filtering: "
       ++ Str.of_nat (length (filtered_df out)) ++ newline)%string;
    (Str.of_Z rows_removed ++ " rows were removed." ++ newline)%string;
    ("Original number of rows: " ++ Str.of_nat (length (filtered_df out))
       ++ newline)%string;
    ("Number of rows after averaging every " ++ Str.of_nat (group_size out)
       ++ " rows: " ++ Str.of_nat (length (averaged_df_shuffled out))
       ++ newline)%string;
    ("Number of spectra selected by the 3%: "
       ++ Str.of_nat (top_3_percent_count out) ++ newline)%string ].

End Extractor.

Import Calibrator Extractor.

(* ================================================================== *)
(** * Sample data and a sample generator *)
(* ================================================================== *)

(** A sensor of 87 bands centred at 665, 666, ..., 751 nm: the band
    nearest 676 nm is band 11, the band nearest 751 nm is band 86, and
    the display bands 86, 52 and 18 exist. *)
Definition sensor_wavelengths : list float :=
  map (fun nm => F64.of_Z (Z.of_nat nm)) (seq 665 87).

(** A spectrum of that sensor: reflectance [v676] at 676 nm, [v751] at
    751 nm and [v] at every other band. *)
Definition spectrum (v v676 v751 : float) : list float :=
  repeat v 11 ++ [v676] ++ repeat v 74 ++ [v751].

Definition quarter : float := F32.div F32.one (F32.of_Z 4).
Definition half : float := F32.div F32.one (F32.of_Z 2).

(** Six pixels, four of them inside the mask: the ratios are 2, 1/2, 4,
    NaN, plus infinity and 2. *)
Definition six_pixels : cube float :=
  [[spectrum quarter quarter half;
    spectrum quarter half quarter;
    spectrum quarter quarter F32.one];
   [spectrum quarter F32.zero F32.zero;
    spectrum quarter F32.zero half;
    spectrum quarter quarter half]].

(** A small instance of the generator interface: the state is a natural
    number stepped by a linear congruence, and the permutation drawn is
    the rotation of [0 .. n-1] by the state. *)
Definition rotate {A} (k : nat) (xs : list A) : list A :=
  skipn k xs ++ firstn k xs.

Definition congruential : RandomState.
Proof.
  refine {| rng := nat;
            seed := Z.to_nat;
            permutation := fun g n =>
              (rotate (g mod S n) (seq 0 n), (g * 37 + 11) mod 1009) |}.
  intros g n. unfold rotate. cbn [fst].
  rewrite Permutation_app_comm. now rewrite firstn_skipn.
Defined.

(* ================================================================== *)
(** * The order of the floating-point comparisons *)
(* ================================================================== *)

(** [SFcompare] is a total preorder on the numbers that are not NaN;
    every comparison with NaN is false. *)
Section FloatOrder.

Ltac split_floats :=
  repeat match goal with
         | x : spec_float |- _ => destruct x
         | s : bool |- _ => destruct s
         end.

Ltac split_compare :=
  unfold SFleb, SFltb, SFcompare in *;
  change (Pos.compare_cont Eq) with Pos.compare in *;
  repeat match goal with
         | H : context [Z.compare ?a ?b] |- _ =>
             destruct (Z.compare_spec a b)
         | |- context [Z.compare ?a ?b] =>
             destruct (Z.compare_spec a b)
         | H : context [Pos.compare ?a ?b] |- _ =>
             destruct (Pos.compare_spec a b)
         | |- context [Pos.compare ?a ?b] =>
             destruct (Pos.compare_spec a b)
         end;
  simpl in *; try discriminate; try reflexivity; try lia.

Ltac float_order := intros; split_floats; split_compare.

Lemma SFleb_not_nan (a b : float) :
  SFleb a b = true -> is_nan a = false /\ is_nan b = false.
Proof. float_order; auto. Qed.

Lemma SFltb_not_nan (a b : float) :
  SFltb a b = true -> is_nan a = false /\ is_nan b = false.
Proof. float_order; auto. Qed.

Lemma SFleb_refl (a : float) : is_nan a = false -> SFleb a a = true.
Proof. float_order. Qed.

Lemma SFltb_SFleb (a b : float) : SFltb a b = true -> SFleb a b = true.
Proof. float_order. Qed.

Lemma SFleb_trans (a b c : float) :
  SFleb a b = true -> SFleb b c = true -> SFleb a c = true.
Proof. float_order. Qed.

Lemma SFltb_leb_trans (a b c : float) :
  SFltb a b = true -> SFleb b c = true -> SFltb a c = true.
Proof. float_order. Qed.

Lemma SFleb_ltb_trans (a b c : float) :
  SFleb a b = true -> SFltb b c = true -> SFltb a c = true.
Proof. float_order. Qed.

Lemma SFleb_total (a b : float) :
  is_nan a = false -> is_nan b = false -> SFleb a b = false ->
  SFltb b a = true.
Proof. float_order. Qed.

Lemma SFltb_asym (a b : float) : SFltb a b = true -> SFleb b a = false.
Proof. float_order. Qed.

Lemma SFltb_trans (a b c : float) :
  SFltb a b = true -> SFltb b c = true -> SFltb a c = true.
Proof. float_order. Qed.

Lemma SFcompare_Eq_sym (a b : float) :
  SFcompare a b = Some Eq -> SFcompare b a = Some Eq.
Proof. float_order. Qed.

Lemma SFcompare_refl (a : float) :
  is_nan a = false -> SFcompare a a = Some Eq.
Proof. float_order. Qed.

Lemma SFleb_not_ltb (a b : float) :
  SFleb a b = true -> SFltb a b = false -> SFcompare a b = Some Eq.
Proof.
  unfold SFleb, SFltb. destruct (SFcompare a b) as [[]|]; congruence.
Qed.

End FloatOrder.

(* ================================================================== *)
(** * Lists, results and cubes *)
(* ================================================================== *)

Lemma nth_error_zip_with {A B C} (f : A -> B -> C) (xs : list A)
      (ys : list B) (i : nat) :
  nth_error (zip_with f xs ys) i =
  match nth_error xs i, nth_error ys i with
  | Some x, Some y => Some (f x y)
  | _, _ => None
  end.
Proof.
  unfold zip_with. revert ys i.
  induction xs as [|x xs IH]; intros [|y ys] [|i]; simpl; auto.
  destruct (nth_error xs i); reflexivity.
Qed.

Lemma length_zip_with {A B C} (f : A -> B -> C) (xs : list A)
      (ys : list B) :
  length xs = length ys -> length (zip_with f xs ys) = length xs.
Proof.
  intros H. unfold zip_with.
  rewrite length_map, length_combine. lia.
Qed.

Lemma zipM_zip_with {A B C} (P : A -> B -> Prop) (f : A -> B -> result C)
      (g : A -> B -> C) :
  (forall x y, P x y -> f x y = OK (g x y)) ->
  forall xs ys, Forall2 P xs ys -> zipM f xs ys = OK (zip_with g xs ys).
Proof.
  intros Hf xs ys H. induction H as [|x y xs ys Hxy _ IH]; simpl.
  - reflexivity.
  - rewrite (Hf _ _ Hxy). simpl. rewrite IH. reflexivity.
Qed.

Lemma cube_get_map {A B} (f : A -> B) (c : cube A) (i j k : nat) :
  cube_get (map (map (map f)) c) i j k = option_map f (cube_get c i j k).
Proof.
  unfold cube_get. rewrite nth_error_map.
  destruct (nth_error c i) as [row|]; simpl; auto.
  rewrite nth_error_map.
  destruct (nth_error row j) as [px|]; simpl; auto.
  apply nth_error_map.
Qed.

Lemma cube_get_zip_with {A B C} (f : A -> B -> C) (a : cube A)
      (b : cube B) (i j k : nat) :
  cube_get (zip_with (zip_with (zip_with f)) a b) i j k =
  match cube_get a i j k, cube_get b i j k with
  | Some x, Some y => Some (f x y)
  | _, _ => None
  end.
Proof.
  unfold cube_get. rewrite nth_error_zip_with.
  destruct (nth_error a i) as [ra|], (nth_error b i) as [rb|]; auto.
  - rewrite nth_error_zip_with.
    destruct (nth_error ra j) as [pa|], (nth_error rb j) as [pb|]; auto.
    + apply nth_error_zip_with.
    + destruct (nth_error pa k); reflexivity.
  - destruct (nth_error ra j) as [pa|]; auto.
    destruct (nth_error pa k); reflexivity.
Qed.

Lemma dims_Forall2 {A B} (a : cube A) (b : cube B) :
  dims a = dims b ->
  Forall2 (Forall2 (fun p q => length p = length q)) a b.
Proof.
  unfold dims. revert b.
  induction a as [|ra a IH]; intros [|rb b] H; simpl in H;
    try discriminate; constructor.
  - injection H as H _. clear IH. revert rb H.
    induction ra as [|pa ra IH]; intros [|pb rb] H; simpl in H;
      try discriminate; constructor.
    + now injection H.
    + apply IH. now injection H.
  - apply IH. now injection H.
Qed.

Lemma dims_zip_with {A B C} (f : A -> B -> C) (a : cube A) (b : cube B) :
  dims a = dims b -> dims (zip_with (zip_with (zip_with f)) a b) = dims a.
Proof.
  intros H. apply dims_Forall2 in H. unfold dims.
  induction H as [|ra rb a b Hr _ IH]; simpl; auto.
  unfold zip_with at 1. simpl. fold (zip_with (zip_with (zip_with f)) a b).
  f_equal; auto.
  clear IH. induction Hr as [|pa pb ra rb Hp _ IH]; simpl; auto.
  unfold zip_with at 1. simpl. fold (zip_with (zip_with f) ra rb).
  f_equal; auto.
  now apply length_zip_with.
Qed.

Lemma dims_map {A B} (f : A -> B) (c : cube A) :
  dims (map (map (map f)) c) = dims c.
Proof.
  unfold dims. rewrite map_map. apply map_ext. intros row.
  rewrite map_map. apply map_ext. intros px. apply length_map.
Qed.

(* ================================================================== *)
(** * Calibration: the range of the output *)
(* ================================================================== *)

Lemma clip_nan (lo hi : float) : clip S754_nan lo hi = S754_nan.
Proof. reflexivity. Qed.

Lemma clip_is_nan (x : float) :
  is_nan (clip x F32.zero F32.one) = is_nan x.
Proof.
  unfold clip, npy_max, npy_min.
  destruct (is_nan x) eqn:Hx.
  - rewrite Hx. exact Hx.
  - destruct (SFltb F32.zero x); [rewrite Hx|simpl];
      try destruct (SFltb x F32.one); auto.
Qed.

Lemma clip_unit_interval (x : float) :
  is_nan x = false -> in_unit_interval (clip x F32.zero F32.one) = true.
Proof.
  intros Hx. unfold clip, npy_max, npy_min, in_unit_interval.
  rewrite Hx.
  destruct (SFltb F32.zero x) eqn:H0.
  - rewrite Hx. destruct (SFltb x F32.one) eqn:H1.
    + now rewrite (SFltb_SFleb _ _ H0), (SFltb_SFleb _ _ H1).
    + reflexivity.
  - reflexivity.
Qed.

(** With equal shapes the elementwise operation of numpy is the
    position-by-position one, and it does not raise. *)
Lemma elementwise_same_dims (op : float -> float -> float)
      (a b : cube float) :
  dims a = dims b ->
  elementwise op a b = OK (zip_with (zip_with (zip_with op)) a b).
Proof.
  intros H. apply dims_Forall2 in H. unfold elementwise.
  assert (Hb : forall A B C (P : A -> B -> Prop) (f : A -> B -> result C)
                      (g : A -> B -> C),
             (forall x y, P x y -> f x y = OK (g x y)) ->
             forall xs ys, Forall2 P xs ys ->
                           broadcast f xs ys = OK (zip_with g xs ys)).
  { intros A B C P f g Hf xs ys HF. unfold broadcast.
    rewrite (Forall2_length HF), Nat.eqb_refl.
    now apply zipM_zip_with with (P := P). }
  apply Hb with (P := Forall2 (fun p q : list float => length p = length q));
    auto.
  intros ra rb Hr.
  apply Hb with (P := fun p q : list float => length p = length q); auto.
  intros pa pb Hp.
  apply Hb with (P := fun _ _ : float => True); auto.
  clear - Hp. revert pb Hp.
  induction pa as [|x pa IH]; intros [|y pb] Hp; simpl in Hp;
    try discriminate; constructor; auto.
Qed.

(** X1.  What the calibration does achieve.  For raw, white and dark
    cubes of equal shape it succeeds and returns a cube of that shape.  Every
    element of the output is the quotient [(raw - dark) / (white - dark)]
    of its position, clamped; it lies in the closed interval [0, 1]
    whenever that quotient is a number (an infinite quotient, white equal
    to dark and raw different, is clamped to a bound), and it is NaN when
    the quotient is NaN. *)
Theorem apply_calibration_range (raw white dark : cube float)
        (Hwhite : dims white = dims raw) (Hdark : dims dark = dims raw) :
  exists out,
    apply_calibration raw white dark = OK out /\
    dims out = dims raw /\
    forall i j k y,
      cube_get out i j k = Some y ->
      exists r w d,
        cube_get raw i j k = Some r /\
        cube_get white i j k = Some w /\
        cube_get dark i j k = Some d /\
        y = calibrated_value r w d /\
        (is_nan (quotient r w d) = false -> in_unit_interval y = true) /\
        (is_nan (quotient r w d) = true -> y = S754_nan).
Proof.
  eexists. split; [|split].
  - unfold apply_calibration.
    rewrite (elementwise_same_dims F32.sub raw dark) by congruence.
    rewrite (elementwise_same_dims F32.sub white dark) by congruence.
    simpl.
    rewrite elementwise_same_dims; [reflexivity|].
    rewrite !dims_zip_with; congruence.
  - rewrite dims_map, dims_zip_with, dims_zip_with; try congruence.
    rewrite !dims_zip_with; congruence.
  - intros i j k y Hy.
    rewrite cube_get_map, !cube_get_zip_with in Hy.
    destruct (cube_get raw i j k) as [r|]; [|discriminate].
    destruct (cube_get dark i j k) as [d|]; [|discriminate].
    destruct (cube_get white i j k) as [w|]; [|discriminate].
    simpl in Hy. injection Hy as <-.
    exists r, w, d. repeat split; auto.
    + intros Hq. now apply clip_unit_interval.
    + intros Hq. fold (quotient r w d).
      destruct (quotient r w d); try discriminate. reflexivity.
Qed.

(** A 2 x 1 x 2 capture: the theorem applies, and the calibrated values
    are 1/2, 1 (clamped from 2), 0 (clamped from -1/4) and 1 (an infinite
    quotient). *)
Lemma apply_calibration_range_witness :
  let raw := [[[F32.of_Z 3; F32.of_Z 9]]; [[F32.of_Z 0; F32.of_Z 7]]] in
  let white := [[[F32.of_Z 5; F32.of_Z 5]]; [[F32.of_Z 5; F32.of_Z 1]]] in
  let dark := [[[F32.of_Z 1; F32.of_Z 1]]; [[F32.of_Z 1; F32.of_Z 1]]] in
  exists out,
    apply_calibration raw white dark = OK out /\
    dims out = dims raw /\
    forall i j k y,
      cube_get out i j k = Some y ->
      exists r w d,
        cube_get raw i j k = Some r /\
        cube_get white i j k = Some w /\
        cube_get dark i j k = Some d /\
        y = calibrated_value r w d /\
        (is_nan (quotient r w d) = false -> in_unit_interval y = true) /\
        (is_nan (quotient r w d) = true -> y = S754_nan).
Proof.
  intros raw white dark.
  apply (apply_calibration_range raw white dark); reflexivity.
Defined.

(** C2.  The claim, every element of the calibrated cube within [0, 1]
    also where white equals dark, is what the docstring of
    [apply_calibration] promises (values clipped between 0 and 1).  The
    code misses it where raw, white and dark coincide: the quotient is
    0/0, [np.clip] returns NaN for NaN, and NaN is not in [0, 1]. *)
Lemma apply_calibration_nan_outside_unit_interval :
  apply_calibration [[[F32.one]]] [[[F32.one]]] [[[F32.one]]]
  = OK [[[S754_nan]]]
  /\ in_unit_interval S754_nan = false.
Proof. split; reflexivity. Qed.

(* ================================================================== *)
(** * The band-ratio mask *)
(* ================================================================== *)

Example sensor_bands :
  length sensor_wavelengths = 87 /\
  nearest_band sensor_wavelengths nm_676 = OK 11 /\
  nearest_band sensor_wavelengths nm_751 = OK 86 /\
  imshow [[spectrum quarter quarter half]] = OK tt.
Proof. repeat split; reflexivity. Qed.

Lemma mapM_Forall2 {A B} (f : A -> result B) (xs : list A) (ys : list B) :
  mapM f xs = OK ys -> Forall2 (fun x y => f x = OK y) xs ys.
Proof.
  revert ys. induction xs as [|x xs IH]; simpl; intros ys H.
  - injection H as <-. constructor.
  - destruct (f x) as [y|] eqn:Hx; simpl in H; [|discriminate].
    destruct (mapM f xs) as [ys'|]; simpl in H; [|discriminate].
    injection H as <-. constructor; auto.
Qed.

Lemma Forall2_nth_error {A B} (R : A -> B -> Prop) (xs : list A)
      (ys : list B) (i : nat) (x : A) :
  Forall2 R xs ys -> nth_error xs i = Some x ->
  exists y, nth_error ys i = Some y /\ R x y.
Proof.
  intros H. revert i. induction H as [|x' y' xs ys Hxy _ IH]; intros i Hi.
  - destruct i; discriminate.
  - destruct i as [|i]; simpl in *.
    + injection Hi as <-. eauto.
    + auto.
Qed.

Lemma read_band_get (img : cube float) (band : nat)
      (plane : list (list float)) (x y : nat) (px : list float) :
  read_band img band = OK plane ->
  read_pixel img (x, y) = OK px ->
  exists v, nth_error px band = Some v /\ plane_get plane x y = Some v.
Proof.
  unfold read_band, read_pixel, plane_get. simpl. intros Hb Hp.
  apply mapM_Forall2 in Hb.
  destruct (nth_error img x) as [row|] eqn:Hrow; [|discriminate].
  destruct (nth_error row y) as [px'|] eqn:Hpx; [|discriminate].
  injection Hp as ->.
  destruct (Forall2_nth_error _ Hb Hrow) as (prow & -> & Hr).
  apply mapM_Forall2 in Hr.
  destruct (Forall2_nth_error _ Hr Hpx) as (v & -> & Hv).
  exists v. split; auto.
  destruct (nth_error px band) as [u|]; [|discriminate].
  now injection Hv as ->.
Qed.

(** The comparison [ratio > threshold] at the special values. *)
Lemma greater_nan (threshold : float) : SFltb threshold S754_nan = false.
Proof. destruct threshold as [| | |[] ? ?]; reflexivity. Qed.

Lemma greater_neg_infinity (threshold : float) :
  SFltb threshold (S754_infinity true) = false.
Proof. destruct threshold as [|[]| |[] ? ?]; reflexivity. Qed.

Lemma greater_pos_infinity (threshold : float) :
  is_finite threshold = true ->
  SFltb threshold (S754_infinity false) = true.
Proof.
  destruct threshold as [|[]| |[] ? ?]; intros H; try discriminate H;
    reflexivity.
Qed.

(** C3, as amended.  Whenever the mask is computed, its value at a pixel
    is the comparison of the unclamped ratio of the two selected bands with
    the threshold, strictly greater.  A NaN ratio gives false, and so does
    a ratio of minus infinity; a ratio of plus infinity gives true for
    every finite threshold. *)
Theorem band_ratio_mask_spec (img : cube float) (wavelengths : list float)
        (threshold : float) (mask : list (list bool))
        (Hmask : band_ratio_mask img wavelengths threshold = OK mask)
        (x y : nat) (px : list float)
        (Hpx : read_pixel img (x, y) = OK px) :
  exists band751 band676 v751 v676,
    nearest_band wavelengths nm_751 = OK band751 /\
    nearest_band wavelengths nm_676 = OK band676 /\
    nth_error px band751 = Some v751 /\
    nth_error px band676 = Some v676 /\
    let ratio := F32.div v751 v676 in
    plane_get mask x y = Some (SFltb threshold ratio) /\
    (is_nan ratio = true -> plane_get mask x y = Some false) /\
    (ratio = S754_infinity true -> plane_get mask x y = Some false) /\
    (ratio = S754_infinity false -> is_finite threshold = true ->
     plane_get mask x y = Some true).
Proof.
  unfold band_ratio_mask, ratio_image in Hmask.
  destruct (nearest_band wavelengths nm_751) as [b1|]; [|discriminate].
  destruct (nearest_band wavelengths nm_676) as [b2|]; [|discriminate].
  simpl in Hmask.
  destruct (read_band img b1) as [p1|] eqn:H1; [|discriminate].
  destruct (read_band img b2) as [p2|] eqn:H2; [|discriminate].
  simpl in Hmask. injection Hmask as <-.
  destruct (read_band_get _ _ _ _ H1 Hpx) as (v1 & Hv1 & Hg1).
  destruct (read_band_get _ _ _ _ H2 Hpx) as (v2 & Hv2 & Hg2).
  exists b1, b2, v1, v2.
  do 4 (split; [assumption || reflexivity|]).
  assert (Hget : plane_get (greater (zip_with (zip_with F32.div) p1 p2)
                                    threshold) x y
                 = Some (SFltb threshold (F32.div v1 v2))).
  { unfold plane_get, greater in *.
    rewrite nth_error_map, nth_error_zip_with.
    destruct (nth_error p1 x) as [r1|]; [|discriminate].
    destruct (nth_error p2 x) as [r2|]; [|discriminate].
    simpl. rewrite nth_error_map, nth_error_zip_with, Hg1, Hg2.
    reflexivity. }
  cbv zeta. rewrite Hget. split; [reflexivity|]. repeat split.
  - intros Hn. destruct (F32.div v1 v2); try discriminate.
    now rewrite greater_nan.
  - intros ->. now rewrite greater_neg_infinity.
  - intros -> Hf. now rewrite greater_pos_infinity.
Qed.

(** One pixel with reflectances 1/4 at 676 nm and 1/2 at 751 nm: ratio 2,
    inside the mask. *)
Lemma band_ratio_mask_spec_witness :
  let px := spectrum quarter quarter half in
  exists band751 band676 v751 v676,
    nearest_band sensor_wavelengths nm_751 = OK band751 /\
    nearest_band sensor_wavelengths nm_676 = OK band676 /\
    nth_error px band751 = Some v751 /\
    nth_error px band676 = Some v676 /\
    let ratio := F32.div v751 v676 in
    plane_get [[true]] 0 0 = Some (SFltb default_threshold ratio) /\
    (is_nan ratio = true -> plane_get [[true]] 0 0 = Some false) /\
    (ratio = S754_infinity true -> plane_get [[true]] 0 0 = Some false) /\
    (ratio = S754_infinity false -> is_finite default_threshold = true ->
     plane_get [[true]] 0 0 = Some true).
Proof.
  intros px.
  apply (@band_ratio_mask_spec [[px]] sensor_wavelengths default_threshold
           [[true]] eq_refl 0 0 px eq_refl).
Defined.

(** C3 as stated fails at a ratio of plus infinity: reflectance 1 at
    751 nm over reflectance 0 at 676 nm is inside the mask. *)
Lemma band_ratio_mask_infinite_ratio :
  let img := [[spectrum quarter F32.zero F32.one]] in
  nearest_band sensor_wavelengths nm_751 = OK 86 /\
  nearest_band sensor_wavelengths nm_676 = OK 11 /\
  cube_get img 0 0 86 = Some F32.one /\
  cube_get img 0 0 11 = Some F32.zero /\
  F32.div F32.one F32.zero = S754_infinity false /\
  band_ratio_mask img sensor_wavelengths default_threshold = OK [[true]].
Proof. repeat split; reflexivity. Qed.

(* ================================================================== *)
(** * Band selection *)
(* ================================================================== *)

(** Rounding a mantissa that is not negative never produces NaN. *)
Section RoundingNotNaN.

Variables prec emax : Z.

Lemma shr_1_nonneg (mrs : shr_record) :
  (0 <= shr_m mrs)%Z -> (0 <= shr_m (shr_1 mrs))%Z.
Proof.
  destruct mrs as [m r s]. destruct m as [|[p|p|]|p]; simpl; lia.
Qed.

Lemma iter_pos_shr_1_nonneg (p : positive) :
  forall mrs, (0 <= shr_m mrs)%Z -> (0 <= shr_m (iter_pos shr_1 p mrs))%Z.
Proof.
  induction p as [p IH|p IH|]; simpl; intros mrs H.
  - apply IH, IH. now apply shr_1_nonneg.
  - now apply IH, IH.
  - now apply shr_1_nonneg.
Qed.

Lemma shr_fexp_nonneg (m e : Z) (l : location) :
  (0 <= m)%Z -> (0 <= shr_m (fst (shr_fexp prec emax m e l)))%Z.
Proof.
  intros H. unfold shr_fexp, shr.
  assert (H0 : (0 <= shr_m (shr_record_of_loc m l))%Z)
    by (destruct l as [|[]]; exact H).
  destruct (fexp prec emax (Zdigits2 m + e) - e)%Z; simpl; auto.
  now apply iter_pos_shr_1_nonneg.
Qed.

Lemma binary_round_aux_not_nan (sx : bool) (mx ex : Z) (lx : location) :
  (0 <= mx)%Z -> is_nan (binary_round_aux prec emax sx mx ex lx) = false.
Proof.
  intros H. unfold binary_round_aux.
  pose proof (shr_fexp_nonneg ex lx H) as H1.
  destruct (shr_fexp prec emax mx ex lx) as [mrs' e']. simpl in H1.
  assert (H2 : (0 <= round_nearest_even (shr_m mrs')
                                        (loc_of_shr_record mrs'))%Z).
  { unfold round_nearest_even.
    destruct (loc_of_shr_record mrs') as [|[]]; try lia.
    destruct (Z.even (shr_m mrs')); lia. }
  pose proof (shr_fexp_nonneg e' loc_Exact H2) as H3.
  destruct (shr_fexp prec emax _ e' loc_Exact) as [mrs'' e''].
  simpl in H3.
  destruct (shr_m mrs'') as [|m|m]; try reflexivity.
  - destruct (e'' <=? emax - prec)%Z; reflexivity.
  - lia.
Qed.

Lemma binary_normalize_not_nan (m e : Z) (szero : bool) :
  is_nan (binary_normalize prec emax m e szero) = false.
Proof.
  unfold binary_normalize, binary_round.
  destruct m as [|m|m]; try reflexivity;
    destruct (shl_align _ _ _); now apply binary_round_aux_not_nan.
Qed.

Lemma SFsub_not_nan (x y : float) :
  is_nan x = false -> is_finite y = true ->
  is_nan (SFsub prec emax x y) = false.
Proof.
  destruct x as [[]|[]| |sx mx ex], y as [[]|[]| |sy my ey];
    simpl; intros Hx Hy; try discriminate; try reflexivity.
  all: apply binary_normalize_not_nan.
Qed.

End RoundingNotNaN.

Lemma abs_difference_not_nan (target w : float) :
  is_finite target = true -> is_nan w = false ->
  is_nan (abs_difference target w) = false.
Proof.
  intros Ht Hw. unfold abs_difference, F64.sub.
  pose proof (SFsub_not_nan F64.prec F64.emax w target Hw Ht) as H.
  destruct (SFsub F64.prec F64.emax w target); auto.
Qed.

(** The loop of [np.argmin] keeps the first minimum of what it has
    scanned. *)
Lemma argmin_loop_first_minimum (xs : list float) :
  forall (pre : list float) (mp : float) (min_ind : nat),
    Forall (fun v => is_nan v = false) (pre ++ xs) ->
    nth_error pre min_ind = Some mp ->
    (forall j v, nth_error pre j = Some v ->
                 SFleb mp v = true /\ (j < min_ind -> SFltb mp v = true)) ->
    first_minimum (pre ++ xs) (argmin_loop mp min_ind (length pre) xs).
Proof.
  induction xs as [|x rest IH]; intros pre mp min_ind Hnan Hmp Hmin.
  - simpl. rewrite app_nil_r. exists mp. split; auto.
  - assert (Hlt : min_ind < length pre)
      by (apply nth_error_Some; congruence).
    assert (Hx : is_nan x = false).
    { rewrite Forall_forall in Hnan. apply Hnan.
      apply in_or_app. right. now left. }
    assert (Hm : is_nan mp = false).
    { rewrite Forall_forall in Hnan. apply Hnan.
      apply in_or_app. left. eapply nth_error_In; eauto. }
    replace (pre ++ x :: rest) with ((pre ++ [x]) ++ rest) in *
      by (rewrite <- app_assoc; reflexivity).
    simpl. rewrite Hx.
    replace (S (length pre)) with (length (pre ++ [x]))
      by (rewrite length_app; simpl; lia).
    destruct (SFleb mp x) eqn:Hle; simpl.
    + apply IH; auto.
      * rewrite nth_error_app1; auto.
      * intros j v Hj.
        destruct (Nat.lt_ge_cases j (length pre)) as [Hjl|Hjl].
        -- rewrite nth_error_app1 in Hj by auto. auto.
        -- rewrite nth_error_app2 in Hj by auto.
           destruct (j - length pre) as [|n] eqn:Hn; simpl in Hj.
           ++ injection Hj as <-. split; auto. lia.
           ++ destruct n; discriminate.
    + pose proof (SFleb_total _ _ Hm Hx Hle) as Hxm.
      apply IH; auto.
      * rewrite nth_error_app2 by lia. now rewrite Nat.sub_diag.
      * intros j v Hj.
        destruct (Nat.lt_ge_cases j (length pre)) as [Hjl|Hjl].
        -- rewrite nth_error_app1 in Hj by auto.
           destruct (Hmin _ _ Hj) as [Hv _].
           pose proof (SFltb_leb_trans _ _ _ Hxm Hv) as Hxv.
           split; auto. now apply SFltb_SFleb.
        -- rewrite nth_error_app2 in Hj by auto.
           destruct (j - length pre) as [|n] eqn:Hn; simpl in Hj.
           ++ injection Hj as <-. split; [now apply SFleb_refl|lia].
           ++ destruct n; discriminate.
Qed.

Lemma np_argmin_first_minimum (xs : list float) :
  xs <> [] -> Forall (fun v => is_nan v = false) xs ->
  exists i, np_argmin xs = OK i /\ first_minimum xs i.
Proof.
  destruct xs as [|x rest]; [congruence|]. intros _ Hnan.
  assert (Hx : is_nan x = false) by now inversion Hnan.
  simpl. rewrite Hx. eexists. split; [reflexivity|].
  apply (argmin_loop_first_minimum rest [x] (mp := x) (min_ind := 0));
    auto.
  intros [|[|j]] v Hj; simpl in Hj; try discriminate.
  injection Hj as <-. split; [now apply SFleb_refl|lia].
Qed.

(** C7, as amended.  For a wavelength sequence that is not empty and
    holds no NaN, and a finite target such as 751 or 676, band selection
    returns the position of a wavelength whose absolute difference from
    the target is the least, and the first such position: every earlier
    wavelength is strictly farther from the target. *)
Theorem nearest_band_first_minimum (wavelengths : list float)
        (target : float)
        (Hnonempty : wavelengths <> [])
        (Hnumbers : Forall (fun w => is_nan w = false) wavelengths)
        (Htarget : is_finite target = true) :
  exists i w,
    nearest_band wavelengths target = OK i /\
    nth_error wavelengths i = Some w /\
    forall j v,
      nth_error wavelengths j = Some v ->
      SFleb (abs_difference target w) (abs_difference target v) = true /\
      (j < i ->
       SFltb (abs_difference target w) (abs_difference target v) = true).
Proof.
  unfold nearest_band.
  destruct (np_argmin_first_minimum
              (xs := map (abs_difference target) wavelengths))
    as (i & Hi & m & Hm & Hmin).
  - destruct wavelengths; [congruence|discriminate].
  - rewrite Forall_forall in *. intros d Hd.
    apply in_map_iff in Hd. destruct Hd as (w & <- & Hw).
    apply abs_difference_not_nan; auto.
  - rewrite nth_error_map in Hm.
    destruct (nth_error wavelengths i) as [w|] eqn:Hw; [|discriminate].
    injection Hm as <-.
    exists i, w. repeat split; auto.
    + apply (Hmin j). rewrite nth_error_map, H. reflexivity.
    + apply (Hmin j); auto. rewrite nth_error_map, H. reflexivity.
Qed.

(** Wavelengths [675, 676, 677] and target 676 nm: position 1. *)
Lemma nearest_band_first_minimum_witness :
  let wavelengths := map F64.of_Z [675; 676; 677]%Z in
  nearest_band wavelengths nm_676 = OK 1 /\
  exists i w,
    nearest_band wavelengths nm_676 = OK i /\
    nth_error wavelengths i = Some w /\
    forall j v,
      nth_error wavelengths j = Some v ->
      SFleb (abs_difference nm_676 w) (abs_difference nm_676 v) = true /\
      (j < i ->
       SFltb (abs_difference nm_676 w) (abs_difference nm_676 v) = true).
Proof.
  intros wavelengths. split; [reflexivity|].
  apply (nearest_band_first_minimum (wavelengths := wavelengths)).
  - discriminate.
  - repeat constructor.
  - reflexivity.
Defined.

(** C7 as stated, for every wavelength sequence that is not empty, fails
    on a sequence that holds a NaN: of [675, NaN, 676] and the target
    676 nm, band selection returns position 1, whose distance from the
    target is NaN and not below any other, while position 2 is at
    distance zero. *)
Lemma nearest_band_nan_not_minimum :
  nearest_band [F64.of_Z 675; S754_nan; F64.of_Z 676] nm_676 = OK 1 /\
  abs_difference nm_676 (F64.of_Z 676) = S754_zero false /\
  SFleb (abs_difference nm_676 S754_nan)
        (abs_difference nm_676 (F64.of_Z 676)) = false /\
  SFltb (abs_difference nm_676 (F64.of_Z 676))
        (abs_difference nm_676 (F64.of_Z 675)) = true.
Proof. repeat split; reflexivity. Qed.

(** A tie between 675 and 677 around 676 goes to the lower position. *)
Example nearest_band_tie :
  nearest_band (map F64.of_Z [677; 675; 675]%Z) nm_676 = OK 0.
Proof. reflexivity. Qed.

(* ================================================================== *)
(** * The quality filter *)
(* ================================================================== *)

(** C8.  Raising the threshold of the quality filter never keeps more
    rows: for thresholds [t1 <= t2] the table filtered at [t2] has at most
    as many rows as the table filtered at [t1]. *)
Theorem quality_filter_monotone (df : table) (t1 t2 : float)
        (Hle : SFleb t1 t2 = true) :
  length (quality_filter t2 df) <= length (quality_filter t1 df).
Proof.
  unfold quality_filter.
  induction df as [|row df IH]; simpl; [lia|].
  destruct (SFleb t2 (nanmean row)) eqn:H2.
  - rewrite (SFleb_trans _ _ _ Hle H2). simpl. lia.
  - destruct (SFleb t1 (nanmean row)); simpl; lia.
Qed.

(** Three spectra with means 1/8, 1/2 and 1: thresholds 1/4 and 3/4 keep
    two rows and one row. *)
Lemma quality_filter_monotone_witness :
  let eighth := F32.div F32.one (F32.of_Z 8) in
  let half := F32.div F32.one (F32.of_Z 2) in
  let df := [[eighth; eighth]; [F32.zero; F32.one]; [F32.one; F32.one]] in
  let t1 := F32.div F32.one (F32.of_Z 4) in
  let t2 := F32.div (F32.of_Z 3) (F32.of_Z 4) in
  length (quality_filter t1 df) = 2 /\
  length (quality_filter t2 df) = 1 /\
  length (quality_filter t2 df) <= length (quality_filter t1 df).
Proof.
  intros eighth half df t1 t2.
  split; [reflexivity|]. split; [reflexivity|].
  apply (quality_filter_monotone df t1 t2). reflexivity.
Defined.

(* ================================================================== *)
(** * The count of the three percent *)
(* ================================================================== *)

(** The product [rows * 0.03] is rounded to 53 bits and truncated.  The
    lemmas below follow the rounding of [SpecFloat] through its shifts:
    what [shr] leaves of a mantissa, the mantissa and exponent that
    [binary_round_aux] returns for a product of two 53-bit mantissas, the
    binary64 value of a natural number, and the integer arithmetic that
    makes the truncated product [rows * 3 / 100]. *)
Section Binary64Product.

Local Open Scope Z_scope.

(** [digits2_pos p] is the number of binary digits of [p]. *)
Lemma digits2_pos_bounds (p : positive) :
  2 ^ (Zpos (digits2_pos p) - 1) <= Zpos p < 2 ^ Zpos (digits2_pos p).
Proof.
  assert (Hstep : forall d, 0 < d -> 2 ^ d = 2 * 2 ^ (d - 1)).
  { intros d Hd. rewrite <- Z.pow_succ_r by lia. f_equal. lia. }
  induction p as [p IH|p IH|]; simpl digits2_pos.
  - rewrite Pos2Z.inj_succ, Z.pow_succ_r by lia.
    replace (Z.succ (Zpos (digits2_pos p)) - 1)
      with (Zpos (digits2_pos p)) by lia.
    rewrite (Hstep (Zpos (digits2_pos p))) at 1 by lia. lia.
  - rewrite Pos2Z.inj_succ, Z.pow_succ_r by lia.
    replace (Z.succ (Zpos (digits2_pos p)) - 1)
      with (Zpos (digits2_pos p)) by lia.
    rewrite (Hstep (Zpos (digits2_pos p))) at 1 by lia. lia.
  - simpl. lia.
Qed.

(** The iteration of [SpecFloat] is the iteration of [nat]. *)
Lemma iter_pos_nat {A} (f : A -> A) (p : positive) (x : A) :
  iter_pos f p x = Nat.iter (Pos.to_nat p) f x.
Proof.
  revert x. induction p as [p IH|p IH|]; intros x; simpl iter_pos.
  - rewrite !IH, Pos2Nat.inj_xI.
    replace (S (2 * Pos.to_nat p))%nat
      with (Pos.to_nat p + (Pos.to_nat p + 1))%nat by lia.
    rewrite !Nat.iter_add. reflexivity.
  - rewrite !IH, Pos2Nat.inj_xO.
    replace (2 * Pos.to_nat p)%nat
      with (Pos.to_nat p + Pos.to_nat p)%nat by lia.
    rewrite Nat.iter_add. reflexivity.
  - reflexivity.
Qed.

(** One shift: the quotient by two, the bit shifted out, and whether
    anything was shifted out before. *)
Lemma shr_1_spec (m : Z) (r s : bool) :
  0 <= m ->
  shr_1 {| shr_m := m; shr_r := r; shr_s := s |}
  = {| shr_m := m / 2; shr_r := Z.odd m; shr_s := r || s |}.
Proof.
  intros Hm. destruct m as [|[p|p|]|p]; try lia; simpl shr_1.
  - reflexivity.
  - f_equal. rewrite Pos2Z.inj_xI. apply Z.div_unique with (r := 1); lia.
  - f_equal. rewrite Pos2Z.inj_xO. apply Z.div_unique with (r := 0); lia.
  - reflexivity.
Qed.

(** [j + 1] shifts: the quotient by [2 ^ (j + 1)], bit [j], and whether
    the bits below it are not all zero. *)
Lemma iter_shr_1_spec (j : nat) (m : Z) :
  0 <= m ->
  Nat.iter (S j) shr_1 {| shr_m := m; shr_r := false; shr_s := false |}
  = {| shr_m := m / 2 ^ Z.of_nat (S j);
       shr_r := Z.testbit m (Z.of_nat j);
       shr_s := negb (m mod 2 ^ Z.of_nat j =? 0) |}.
Proof.
  intros Hm. induction j as [|j IH].
  - change (Nat.iter 1 shr_1 ?x) with (shr_1 x).
    rewrite shr_1_spec by exact Hm.
    change (Z.of_nat 1) with 1. change (Z.of_nat 0) with 0.
    rewrite Z.pow_1_r, Z.pow_0_r, Z.mod_1_r, Z.bit0_odd. reflexivity.
  - rewrite Nat.iter_succ, IH. clear IH.
    rewrite shr_1_spec by (apply Z.div_pos; lia).
    set (a := 2 ^ Z.of_nat j).
    assert (Ha : 0 < a) by (apply Z.pow_pos_nonneg; lia).
    assert (Ea : 2 ^ Z.of_nat (S j) = 2 * a)
      by (rewrite Nat2Z.inj_succ, Z.pow_succ_r by lia; reflexivity).
    assert (Eb : 2 ^ Z.of_nat (S (S j)) = 2 * (2 * a))
      by (rewrite (Nat2Z.inj_succ (S j)), Z.pow_succ_r, Ea by lia;
          reflexivity).
    rewrite Ea, Eb.
    assert (E1 : m / (2 * a) / 2 = m / (2 * (2 * a)))
      by (rewrite Z.div_div by lia; f_equal; lia).
    assert (E2 : Z.odd (m / (2 * a)) = Z.testbit m (Z.of_nat (S j))).
    { rewrite <- Z.bit0_odd, <- Ea, <- Z.shiftr_div_pow2 by lia.
      rewrite Z.shiftr_spec by lia. f_equal. }
    assert (E3 : Z.testbit m (Z.of_nat j) || negb (m mod a =? 0)
                 = negb (m mod (2 * a) =? 0)).
    { pose proof (Z.testbit_spec' m (Z.of_nat j) ltac:(lia)) as Hb.
      fold a in Hb.
      pose proof (Z.div_mod m a ltac:(lia)) as H1.
      pose proof (Z.mod_pos_bound m a Ha) as H2.
      pose proof (Z.div_mod (m / a) 2 ltac:(lia)) as H3.
      pose proof (Z.mod_pos_bound (m / a) 2 ltac:(lia)) as H4.
      assert (Hm2 : m mod (2 * a) = a * ((m / a) mod 2) + m mod a).
      { symmetry. apply Z.mod_unique with (q := m / a / 2); nia. }
      rewrite Hm2.
      destruct (Z.testbit m (Z.of_nat j)); simpl in Hb;
        destruct (Z.eqb_spec (m mod a) 0) as [E2'|E2'];
        destruct (Z.eqb_spec (a * ((m / a) mod 2) + m mod a) 0);
        simpl; try reflexivity; nia. }
    rewrite E1, E2, E3. reflexivity.
Qed.

Lemma Zdigits2_unique (z j : Z) :
  2 ^ (j - 1) <= z < 2 ^ j -> 1 <= j -> Zdigits2 z = j.
Proof.
  intros Hz Hj.
  assert (Hpos : 0 < z).
  { assert (0 < 2 ^ (j - 1)) by (apply Z.pow_pos_nonneg; lia). lia. }
  destruct z as [|p|p]; try lia. simpl Zdigits2.
  pose proof (digits2_pos_bounds p) as Hd.
  set (d := Zpos (digits2_pos p)) in *.
  assert (d - 1 < j) by (apply (Z.pow_lt_mono_r_iff 2); lia).
  assert (j - 1 < d) by (apply (Z.pow_lt_mono_r_iff 2); lia).
  lia.
Qed.

Lemma shr_zero (mrs : shr_record) (e : Z) : shr mrs e 0 = (mrs, e).
Proof. reflexivity. Qed.

Lemma shr_pos (m e k : Z) :
  0 <= m -> 1 <= k ->
  shr {| shr_m := m; shr_r := false; shr_s := false |} e k
  = ({| shr_m := m / 2 ^ k;
        shr_r := Z.testbit m (k - 1);
        shr_s := negb (m mod 2 ^ (k - 1) =? 0) |}, e + k).
Proof.
  intros Hm Hk. destruct k as [|p|p]; try lia.
  unfold shr. rewrite iter_pos_nat.
  destruct (Pos.to_nat p) as [|j] eqn:Hj; [lia|].
  rewrite iter_shr_1_spec by exact Hm.
  assert (Hp : Zpos p = Z.of_nat (S j)) by lia.
  rewrite Hp. repeat f_equal; lia.
Qed.

(** Rounding a mantissa of more than 53 bits to binary64: the quotient
    [m0] by the power of two that leaves 53 bits, rounded to nearest
    even, and renormalised when the rounding carries to [2 ^ 53]. *)
Lemma binary_round_aux_53 (P E : Z) :
  let k := Zdigits2 P - 53 in
  0 < P -> 1 <= k -> -1074 <= E + k -> E + k + 1 <= 971 ->
  let m0 := P / 2 ^ k in
  let m1 := round_nearest_even m0
              (loc_of_shr_record
                 {| shr_m := m0;
                    shr_r := Z.testbit P (k - 1);
                    shr_s := negb (P mod 2 ^ (k - 1) =? 0) |}) in
  binary_round_aux 53 1024 false P E loc_Exact
  = if m1 <? 2 ^ 53 then S754_finite false (Z.to_pos m1) (E + k)
    else S754_finite false (Z.to_pos (m1 / 2)) (E + k + 1).
Proof.
  intros k HP Hk Hlo Hhi m0 m1.
  unfold binary_round_aux.
  assert (Hshift : fexp 53 1024 (Zdigits2 P + E) - E = k)
    by (unfold fexp, emin, k; lia).
  unfold shr_fexp at 1. rewrite Hshift.
  change (shr_record_of_loc P loc_Exact)
    with {| shr_m := P; shr_r := false; shr_s := false |}.
  rewrite shr_pos by lia. fold m0. cbn [shr_m]. fold m1.
  (* the size of the quotient *)
  assert (HdP : 2 ^ (Zdigits2 P - 1) <= P < 2 ^ Zdigits2 P).
  { destruct P as [|p|p]; try lia. apply digits2_pos_bounds. }
  assert (Hk2 : 0 < 2 ^ k) by (apply Z.pow_pos_nonneg; lia).
  assert (Hm0 : 2 ^ 52 <= m0 < 2 ^ 53).
  { replace (Zdigits2 P - 1) with (52 + k) in HdP by (unfold k; lia).
    replace (Zdigits2 P) with (53 + k) in HdP by (unfold k; lia).
    rewrite !Z.pow_add_r in HdP by lia.
    unfold m0. split.
    - apply Z.div_le_lower_bound; lia.
    - apply Z.div_lt_upper_bound; lia. }
  assert (Hm1 : m1 = m0 \/ m1 = m0 + 1).
  { unfold m1, round_nearest_even.
    destruct (loc_of_shr_record _) as [|[]]; auto.
    destruct (Z.even m0); auto. }
  destruct (Z.ltb_spec m1 (2 ^ 53)) as [Hlt|Hge].
  - assert (Hd1 : Zdigits2 m1 = 53) by (apply Zdigits2_unique; lia).
    unfold shr_fexp. rewrite Hd1.
    replace (fexp 53 1024 (53 + (E + k)) - (E + k)) with 0
      by (unfold fexp, emin; lia).
    rewrite shr_zero.
    change (shr_m (shr_record_of_loc m1 loc_Exact)) with m1.
    destruct m1 as [|p|p]; try lia.
    replace (E + k <=? 1024 - 53) with true
      by (symmetry; apply Z.leb_le; lia).
    reflexivity.
  - assert (Hm1' : m1 = 2 ^ 53) by lia.
    assert (Hd1 : Zdigits2 m1 = 54) by (rewrite Hm1'; reflexivity).
    unfold shr_fexp. rewrite Hd1.
    replace (fexp 53 1024 (54 + (E + k)) - (E + k)) with 1
      by (unfold fexp, emin; lia).
    change (shr_record_of_loc m1 loc_Exact)
      with {| shr_m := m1; shr_r := false; shr_s := false |}.
    rewrite shr_pos by lia. cbn [shr_m].
    rewrite Z.pow_1_r.
    rewrite Hm1'. change (2 ^ 53 / 2) with (Zpos (Z.to_pos (2 ^ 53 / 2))).
    cbv iota.
    replace (E + k + 1 <=? 1024 - 53) with true
      by (symmetry; apply Z.leb_le; lia).
    reflexivity.
Qed.

Lemma Pos_iter_xO (q p : positive) :
  Zpos (Pos.iter xO p q) = Zpos p * 2 ^ Zpos q.
Proof.
  induction q as [|q IH] using Pos.peano_ind.
  - simpl Pos.iter. rewrite Pos2Z.inj_xO. change (2 ^ 1) with 2. lia.
  - rewrite Pos.iter_succ, Pos2Z.inj_xO, IH, Pos2Z.inj_succ.
    rewrite Z.pow_succ_r by lia. lia.
Qed.

(** A mantissa of 53 bits is kept as it is. *)
Lemma binary_round_aux_exact (P E : Z) :
  Zdigits2 P = 53 -> 0 < P -> -1074 <= E <= 971 ->
  binary_round_aux 53 1024 false P E loc_Exact
  = S754_finite false (Z.to_pos P) E.
Proof.
  intros Hd HP HE. unfold binary_round_aux, shr_fexp.
  rewrite Hd.
  replace (fexp 53 1024 (53 + E) - E) with 0 by (unfold fexp, emin; lia).
  rewrite shr_zero.
  change (round_nearest_even (shr_m (shr_record_of_loc P loc_Exact))
            (loc_of_shr_record (shr_record_of_loc P loc_Exact))) with P.
  rewrite Hd.
  replace (fexp 53 1024 (53 + E) - E) with 0 by (unfold fexp, emin; lia).
  rewrite shr_zero.
  change (shr_m (shr_record_of_loc P loc_Exact)) with P.
  destruct P as [|p|p]; try lia.
  replace (E <=? 1024 - 53) with true by (symmetry; apply Z.leb_le; lia).
  reflexivity.
Qed.

(** The binary64 value of an integer below [2 ^ 53]: exact, the mantissa
    shifted to 53 bits. *)
Lemma of_Z_finite (n : Z) :
  1 <= n < 2 ^ 53 ->
  F64.of_Z n
  = S754_finite false (Z.to_pos (n * 2 ^ (53 - Zdigits2 n)))
                (Zdigits2 n - 53).
Proof.
  intros Hn. destruct n as [|p|p]; try lia.
  unfold F64.of_Z, binary_normalize, binary_round, F64.prec, F64.emax.
  simpl Zdigits2.
  pose proof (digits2_pos_bounds p) as Hb.
  set (d := Zpos (digits2_pos p)) in *.
  assert (Hd : 1 <= d <= 53).
  { split; [unfold d; lia|].
    assert (d - 1 < 53) by (apply (Z.pow_lt_mono_r_iff 2); lia). lia. }
  replace (fexp 53 1024 (d + 0)) with (d - 53)
    by (unfold fexp, emin; lia).
  assert (Hsize : 2 ^ 52 <= Zpos p * 2 ^ (53 - d) < 2 ^ 53).
  { assert (H52 : 2 ^ 52 = 2 ^ (d - 1) * 2 ^ (53 - d))
      by (rewrite <- Z.pow_add_r by lia; f_equal; lia).
    assert (H53 : 2 ^ 53 = 2 ^ d * 2 ^ (53 - d))
      by (rewrite <- Z.pow_add_r by lia; f_equal; lia).
    assert (0 < 2 ^ (53 - d)) by (apply Z.pow_pos_nonneg; lia).
    rewrite H52, H53. split.
    - apply Z.mul_le_mono_nonneg_r; lia.
    - apply Z.mul_lt_mono_pos_r; lia. }
  unfold shl_align.
  destruct (d - 53 - 0) as [|q|q] eqn:Hs; try lia.
  - assert (Hd53 : d = 53) by lia.
    rewrite binary_round_aux_exact; try lia.
    + rewrite Hd53. replace (53 - 53) with 0 by lia.
      rewrite Z.pow_0_r, Z.mul_1_r. reflexivity.
    + apply Zdigits2_unique; [|lia].
      rewrite Hd53 in Hsize. replace (53 - 53) with 0 in Hsize by lia.
      rewrite Z.pow_0_r, Z.mul_1_r in Hsize. exact Hsize.
  - assert (Hq : Zpos q = 53 - d) by lia.
    rewrite binary_round_aux_exact; try lia.
    + rewrite Pos_iter_xO, Hq. reflexivity.
    + rewrite Pos_iter_xO, Hq. apply Zdigits2_unique; [exact Hsize|lia].
Qed.

(** The literal 0.03 is [(3 * 2 ^ 58 - 32) / (100 * 2 ^ 58)], a little
    below 3/100.  [P] is the product of the mantissas, [2 * A2] the power
    of two it is divided by, [B] the weight of the integer part in the
    rounded mantissa, [bitr] and [bits] the round and sticky bits. *)
Lemma floor_core (n mn P A2 B q r m0 : Z) (bitr bits : bool) :
  3 * n = 100 * q + r -> 0 <= r < 100 -> 0 <= q ->
  2 ^ 52 <= mn < 2 ^ 53 ->
  P = mn * 8646911284551352 ->
  100 * P = 3 * n * (2 * A2 * B) - 32 * mn ->
  0 < A2 ->
  2 ^ 52 * (2 * A2) <= P < 2 ^ 53 * (2 * A2) ->
  128 <= B ->
  2 ^ 60 <= 2 * A2 * B ->
  m0 = P / (2 * A2) ->
  Z.b2z bitr = (P / A2) mod 2 ->
  bits = negb (P mod A2 =? 0) ->
  round_nearest_even m0
    (loc_of_shr_record {| shr_m := m0; shr_r := bitr; shr_s := bits |}) / B
  = q.
Proof.
  intros Hn Hr Hq Hmn HP HAB HA2 Hdig HB HABlow Hm0 Hbitr Hbits.
  change (2 ^ 52) with 4503599627370496 in *.
  change (2 ^ 53) with 9007199254740992 in *.
  change (2 ^ 60) with 1152921504606846976 in *.
  set (AB := 2 * A2 * B) in *.
  assert (HABeq : AB = (2 * A2) * B) by reflexivity.
  pose proof (Z.div_mod P (2 * A2) ltac:(lia)) as Hdm.
  pose proof (Z.mod_pos_bound P (2 * A2) ltac:(lia)) as Hmb.
  rewrite <- Hm0 in Hdm.
  set (R := P mod (2 * A2)) in *.
  destruct (Z.eq_dec r 0) as [Hr0|Hr0].
  - (* the product falls just below the integer q *)
    subst r.
    assert (He : 25 * (q * AB - P) = 8 * mn) by lia.
    set (eps := q * AB - P) in *.
    assert (Heps : 0 < eps) by lia.
    assert (Heps2 : eps < A2).
    { assert (16 * mn < 25 * (2 * A2)) by lia. lia. }
    assert (Hm0' : m0 = q * B - 1).
    { rewrite Hm0. symmetry.
      apply Z.div_unique with (r := 2 * A2 - eps); [lia|].
      unfold eps. rewrite HABeq. ring. }
    assert (HdivA2 : P / A2 = 2 * (q * B - 1) + 1).
    { symmetry. apply Z.div_unique with (r := A2 - eps); [lia|].
      unfold eps. rewrite HABeq. ring. }
    assert (HmodA2 : P mod A2 = A2 - eps).
    { symmetry. apply Z.mod_unique with (q := 2 * (q * B - 1) + 1); [lia|].
      unfold eps. rewrite HABeq. ring. }
    rewrite HdivA2 in Hbitr.
    replace ((2 * (q * B - 1) + 1) mod 2) with 1 in Hbitr
      by (apply Z.mod_unique with (q := q * B - 1); lia).
    destruct bitr; [|discriminate].
    rewrite HmodA2 in Hbits.
    destruct (Z.eqb_spec (A2 - eps) 0) as [E|E]; [lia|].
    subst bits. simpl.
    rewrite Hm0'. replace (q * B - 1 + 1) with (q * B) by ring.
    apply Z.div_mul. lia.
  - (* the product is well inside (q, q + 1) *)
    set (m1 := round_nearest_even _ _).
    assert (Hm1 : m0 <= m1 <= m0 + 1).
    { unfold m1, round_nearest_even.
      destruct (loc_of_shr_record _) as [|[]]; try lia.
      destruct (Z.even m0); lia. }
    assert (Hexp : 100 * P = 100 * (q * AB) + r * AB - 32 * mn).
    { rewrite HAB, Hn. ring. }
    assert (HrAB : AB <= r * AB <= 99 * AB) by nia.
    assert (Hlow : q * B <= m0).
    { rewrite Hm0. apply Z.div_le_lower_bound; [lia|].
      assert (q * AB < P) by lia.
      rewrite HABeq in *. lia. }
    assert (Hup : 100 * (2 * A2 * m0) < (100 * q + 99) * AB) by lia.
    assert (Hup2 : 100 * m0 < (100 * q + 99) * B).
    { rewrite HABeq in Hup.
      apply Z.mul_lt_mono_pos_l with (p := 2 * A2); [lia|]. lia. }
    symmetry. apply Z.div_unique with (r := m1 - q * B); lia.
Qed.

Lemma int_negative_exponent (m : positive) (e : Z) :
  e < 0 -> int (S754_finite false m e) = OK (Zpos m / 2 ^ (- e)).
Proof.
  intros He. destruct e as [|p|p]; try lia. reflexivity.
Qed.

(** [int(n * 0.03) = n * 3 / 100] in integers. *)
Lemma count_floor_Z (n : Z) :
  0 <= n < 2 ^ 51 ->
  int (F64.mul (F64.of_Z n) three_percent) = OK (n * 3 / 100).
Proof.
  intros Hn.
  destruct (Z.eq_dec n 0) as [->|Hn0]; [reflexivity|].
  assert (H251 : 2 ^ 51 < 2 ^ 53) by reflexivity.
  rewrite of_Z_finite by lia.
  (* the digits of n *)
  assert (Hdn : 2 ^ (Zdigits2 n - 1) <= n < 2 ^ Zdigits2 n).
  { destruct n as [|p|p]; try lia. apply digits2_pos_bounds. }
  set (d := Zdigits2 n) in *.
  assert (Hd : 1 <= d <= 51).
  { split.
    - destruct n as [|p|p]; try lia. unfold d. simpl. lia.
    - assert (d - 1 < 51) by (apply (Z.pow_lt_mono_r_iff 2); lia). lia. }
  set (s := 53 - d).
  assert (Hs : 2 <= s <= 52) by (unfold s; lia).
  assert (Hps : 0 < 2 ^ s) by (apply Z.pow_pos_nonneg; lia).
  set (mn := n * 2 ^ s).
  assert (Hmn : 2 ^ 52 <= mn < 2 ^ 53).
  { assert (H52 : 2 ^ 52 = 2 ^ (d - 1) * 2 ^ s)
      by (rewrite <- Z.pow_add_r by lia; f_equal; unfold s; lia).
    assert (H53 : 2 ^ 53 = 2 ^ d * 2 ^ s)
      by (rewrite <- Z.pow_add_r by lia; f_equal; unfold s; lia).
    rewrite H52, H53. unfold mn. split.
    - apply Z.mul_le_mono_nonneg_r; lia.
    - apply Z.mul_lt_mono_pos_r; lia. }
  (* the product of the mantissas *)
  unfold F64.mul, SFmul, three_percent, F64.prec, F64.emax.
  cbn [xorb].
  rewrite Pos2Z.inj_mul, Z2Pos.id by lia.
  set (P := mn * 8646911284551352).
  set (E := d - 53 + -58).
  assert (HP : 2 ^ 104 <= P < 2 ^ 106).
  { unfold P. change (2 ^ 52) with 4503599627370496 in Hmn.
    change (2 ^ 53) with 9007199254740992 in Hmn.
    change (2 ^ 104) with 20282409603651670423947251286016.
    change (2 ^ 106) with 81129638414606681695789005144064. lia. }
  assert (Hk : exists k, (k = 52 \/ k = 53) /\ Zdigits2 P = 53 + k /\
                         2 ^ (52 + k) <= P < 2 ^ (53 + k)).
  { destruct (Z.lt_ge_cases P (2 ^ 105)) as [Hlt|Hge].
    - exists 52. split; [auto|]. split.
      + apply Zdigits2_unique; [|lia].
        change (105 - 1) with 104. change (53 + 52) with 105. lia.
      + change (52 + 52) with 104. change (53 + 52) with 105. lia.
    - exists 53. split; [auto|]. split.
      + apply Zdigits2_unique; [|lia].
        change (53 + 53 - 1) with 105. change (53 + 53) with 106. lia.
      + change (52 + 53) with 105. change (53 + 53) with 106. lia. }
  destruct Hk as (k & Hk & HdP & HPk).
  assert (Hkeq : Zdigits2 P - 53 = k) by lia.
  pose proof (@binary_round_aux_53 P E) as Hround.
  cbv zeta in Hround. rewrite Hkeq in Hround.
  rewrite Hround by (unfold E; lia). clear Hround.
  set (t := s + 58 - k).
  assert (Ht : 7 <= t) by (unfold t; lia).
  assert (HEk : E + k = - t) by (unfold E, t, s; lia).
  (* the arithmetic of the rounding *)
  set (m0 := P / 2 ^ k).
  set (bitr := Z.testbit P (k - 1)).
  set (bits := negb (P mod 2 ^ (k - 1) =? 0)).
  set (m1 := round_nearest_even m0 _).
  assert (Hk2 : 2 ^ k = 2 * 2 ^ (k - 1)).
  { rewrite <- Z.pow_succ_r by lia. f_equal. lia. }
  assert (HA2 : 0 < 2 ^ (k - 1)) by (apply Z.pow_pos_nonneg; lia).
  assert (HAB : 2 * 2 ^ (k - 1) * 2 ^ t = 2 ^ s * 2 ^ 58).
  { rewrite <- Hk2, <- !Z.pow_add_r by lia. f_equal. unfold t. lia. }
  assert (Hm1 : m1 / 2 ^ t = n * 3 / 100).
  { unfold m1.
    apply (@floor_core n mn P (2 ^ (k - 1)) (2 ^ t) (n * 3 / 100)
                       ((n * 3) mod 100) m0 bitr bits).
    - pose proof (Z.div_mod (n * 3) 100 ltac:(lia)). lia.
    - apply Z.mod_pos_bound. lia.
    - apply Z.div_pos; lia.
    - exact Hmn.
    - reflexivity.
    - rewrite HAB. unfold P, mn.
      change (2 ^ 58) with 288230376151711744. ring.
    - exact HA2.
    - rewrite <- Hk2.
      rewrite <- !Z.pow_add_r by lia. exact HPk.
    - change 128 with (2 ^ 7). apply Z.pow_le_mono_r; lia.
    - rewrite HAB, <- Z.pow_add_r by lia.
      apply Z.pow_le_mono_r; lia.
    - unfold m0. now rewrite Hk2.
    - unfold bitr. apply Z.testbit_spec'. lia.
    - reflexivity. }
  assert (Hm0 : 2 ^ 52 <= m0 < 2 ^ 53).
  { unfold m0. rewrite !Z.pow_add_r in HPk by lia.
    assert (0 < 2 ^ k) by lia. split.
    - apply Z.div_le_lower_bound; lia.
    - apply Z.div_lt_upper_bound; lia. }
  assert (Hm1b : m0 <= m1 <= m0 + 1).
  { unfold m1, round_nearest_even.
    destruct (loc_of_shr_record _) as [|[]]; try lia.
    destruct (Z.even m0); lia. }
  destruct (Z.ltb_spec m1 (2 ^ 53)) as [Hlt|Hge].
  - rewrite int_negative_exponent by lia.
    rewrite Z2Pos.id by lia.
    rewrite HEk, Z.opp_involutive, Hm1. reflexivity.
  - rewrite int_negative_exponent by lia.
    assert (Hhalf : 0 < m1 / 2).
    { apply Z.div_str_pos. lia. }
    rewrite Z2Pos.id by exact Hhalf.
    replace (- (E + k + 1)) with (t - 1) by lia.
    rewrite Z.div_div by (try apply Z.pow_pos_nonneg; lia).
    rewrite <- Z.pow_succ_r by lia.
    replace (Z.succ (t - 1)) with t by lia.
    rewrite Hm1. reflexivity.
Qed.

End Binary64Product.

(** [int(rows * 0.03)] is [rows * 3 / 100], for every table of fewer than
    [2 ^ 51] rows. *)
Lemma count_3_percent_floor (rows : nat) :
  (Z.of_nat rows < 2 ^ 51)%Z -> count_3_percent rows = OK (rows * 3 / 100).
Proof.
  intros Hrows. unfold count_3_percent.
  rewrite count_floor_Z by lia.
  unfold rbind. f_equal. apply Nat2Z.inj.
  rewrite Z2Nat.id by (apply Z.div_pos; lia).
  now rewrite Nat2Z.inj_div, Nat2Z.inj_mul.
Qed.

(* ================================================================== *)
(** * Runs of [process_image] *)
(* ================================================================== *)

Section Runs.

Variable G : RandomState.

Lemma choice_length (g : rng G) (a size : nat) (indices : list nat)
      (g' : rng G) :
  choice G g a size = (OK indices, g') -> length indices = size.
Proof.
  unfold choice. destruct (Nat.ltb_spec a size) as [Hlt|Hge];
    [discriminate|].
  pose proof (permutation_spec G g a) as Hp.
  destruct (permutation G g a) as [p g'']. simpl in Hp.
  intros H. injection H as <- _.
  apply Permutation_length in Hp. rewrite length_seq in Hp.
  rewrite length_firstn. lia.
Qed.

(** What the statements after the DataFrame compute. *)
Lemma group_and_sample_run (mask : list (list bool)) (df : table)
      (columns : nat) (group_size : option nat) (q : float) (g : rng G) :
  group_and_sample G mask df columns group_size q g
  = group_and_sample G mask df columns group_size q (seed G 42).
Proof. reflexivity. Qed.

(** C1.  The outcome of a run, the mask and the filtered, grouped and
    subsample tables or the exception raised, is a function of the cube,
    the wavelengths and the parameters alone: whatever the state of the
    process-wide generator at the two calls, two runs give the same. *)
Theorem process_image_deterministic (img : cube float)
        (wavelengths : list float) (group_size : option nat)
        (threshold quality_filter_threshold : float) (g1 g2 : rng G) :
  fst (process_image G img wavelengths group_size threshold
                     quality_filter_threshold g1)
  = fst (process_image G img wavelengths group_size threshold
                       quality_filter_threshold g2).
Proof.
  unfold process_image, bind, lift.
  destruct (spectral_table img wavelengths threshold) as [t|e];
    [|reflexivity].
  now rewrite group_and_sample_run, (group_and_sample_run _ _ _ _ _ g2).
Qed.

(** A second run that starts from the generator state left by a first
    one repeats its outcome. *)
Corollary process_image_twice (img : cube float)
          (wavelengths : list float) (group_size : option nat)
          (threshold quality_filter_threshold : float) (g : rng G) :
  let first := process_image G img wavelengths group_size threshold
                             quality_filter_threshold g in
  fst (process_image G img wavelengths group_size threshold
                     quality_filter_threshold (snd first))
  = fst first.
Proof.
  intros first. subst first. unfold process_image, bind, lift.
  destruct (spectral_table img wavelengths threshold) as [t|e];
    [|reflexivity].
  now rewrite group_and_sample_run, (group_and_sample_run _ _ _ _ _ g).
Qed.

(** C4.  In every run that completes, the grouped table has
    [len(filtered) // group_size] rows, and the subsample has
    [int(len(grouped) * 0.03)] rows, which is the integer
    [len(grouped) * 3 / 100] whenever there are fewer than [2 ^ 51]
    groups. *)
Theorem process_image_row_counts (img : cube float)
        (wavelengths : list float) (requested : option nat)
        (threshold quality_filter_threshold : float) (g g' : rng G)
        (out : extraction)
        (Hrun : process_image G img wavelengths requested threshold
                              quality_filter_threshold g = (OK out, g')) :
  group_size out = match requested with
                   | None => length (filtered_df out)
                   | Some n => n
                   end /\
  group_size out <> 0 /\
  length (averaged_df_shuffled out)
  = length (filtered_df out) / group_size out /\
  count_3_percent (length (averaged_df_shuffled out))
  = OK (top_3_percent_count out) /\
  length (top_3_percent_df out) = top_3_percent_count out /\
  ((Z.of_nat (length (averaged_df_shuffled out)) < 2 ^ 51)%Z ->
   length (top_3_percent_df out)
   = length (averaged_df_shuffled out) * 3 / 100).
Proof.
  assert (Hfloor : forall rows count,
             count_3_percent rows = OK count ->
             (Z.of_nat rows < 2 ^ 51)%Z -> count = rows * 3 / 100).
  { intros rows count Hc Hr. rewrite (count_3_percent_floor _ Hr) in Hc.
    now injection Hc. }
  unfold process_image, bind, lift in Hrun.
  destruct (spectral_table img wavelengths threshold) as [[m d]|e];
    [|discriminate].
  unfold group_and_sample, bind, lift, np_random_seed, ret in Hrun.
  simpl fst in Hrun. simpl snd in Hrun.
  set (filtered := quality_filter quality_filter_threshold d) in *.
  set (gs := match requested with
             | None => length filtered
             | Some n => n
             end) in *.
  unfold floordiv in Hrun.
  destruct (Nat.eqb_spec gs 0) as [Hz|Hnz]; [discriminate|].
  unfold sample_frac_1 in Hrun.
  destruct (choice G (seed G 42) (length filtered) (length filtered))
    as [[indices|e] g1] eqn:Hshuffle; [|discriminate].
  set (averaged := map _ (seq 0 (length filtered / gs))) in *.
  destruct (count_3_percent (length averaged)) as [count|e] eqn:Hcount;
    [|discriminate].
  unfold sample_n in Hrun.
  destruct (choice G (seed G 42) (length averaged) count)
    as [[picked|e] g2] eqn:Hpick; [|discriminate].
  injection Hrun as <- _. simpl.
  assert (Hlen : length (take averaged picked) = count)
    by (unfold take; rewrite length_map; eapply choice_length; eauto).
  repeat split; auto.
  - unfold averaged. now rewrite length_map, length_seq.
  - intros Hsmall. rewrite Hlen. now apply Hfloor.
Qed.

(** Runs do complete: once the spectra under the mask make a table, a
    group size that is not zero is all a run needs (with fewer than
    [2 ^ 51] groups, so that the count of the three percent does not
    exceed the number of groups). *)
Lemma process_image_completes (img : cube float)
      (wavelengths : list float) (requested : option nat)
      (threshold quality_filter_threshold : float) (g : rng G)
      (mask : list (list bool)) (df : table) :
  spectral_table img wavelengths threshold = OK (mask, df) ->
  let filtered := quality_filter quality_filter_threshold df in
  let size := match requested with
              | None => length filtered
              | Some n => n
              end in
  size <> 0 ->
  (Z.of_nat (length filtered / size) < 2 ^ 51)%Z ->
  exists out g',
    process_image G img wavelengths requested threshold
                  quality_filter_threshold g = (OK out, g').
Proof.
  intros Htable filtered size Hsize Hsmall.
  unfold process_image, bind, lift. rewrite Htable.
  unfold group_and_sample, bind, lift, np_random_seed, ret, floordiv.
  simpl fst. simpl snd. fold filtered. fold size.
  destruct (Nat.eqb_spec size 0) as [Hz|_]; [contradiction|].
  unfold sample_frac_1, choice at 1. rewrite Nat.ltb_irrefl.
  destruct (permutation G (seed G 42) (length filtered)) as [p g1].
  set (averaged := map _ (seq 0 (length filtered / size))).
  assert (Hlen : length averaged = length filtered / size)
    by (unfold averaged; now rewrite length_map, length_seq).
  rewrite count_3_percent_floor by (rewrite Hlen; exact Hsmall).
  unfold sample_n, choice.
  destruct (Nat.ltb_spec (length averaged) (length averaged * 3 / 100))
    as [Hlt|_].
  - exfalso. revert Hlt. apply Nat.le_ngt.
    apply Nat.Div0.div_le_upper_bound. lia.
  - destruct (permutation G (seed G 42) (length averaged)) as [p' g2].
    eauto.
Qed.

End Runs.

(** Forty pixels inside the mask, groups of one row: forty groups, of
    which [int(40 * 0.03) = 1] is retained. *)
Lemma process_image_row_counts_witness :
  let img := [repeat (spectrum quarter quarter half) 40] in
  exists out g',
    process_image congruential img sensor_wavelengths (Some 1)
                  default_threshold default_quality_filter_threshold 7
    = (OK out, g') /\
    (length (filtered_df out), length (averaged_df_shuffled out),
     length (top_3_percent_df out)) = (40, 40, 1) /\
    (group_size out = 1 /\
     group_size out <> 0 /\
     length (averaged_df_shuffled out)
     = length (filtered_df out) / group_size out /\
     count_3_percent (length (averaged_df_shuffled out))
     = OK (top_3_percent_count out) /\
     length (top_3_percent_df out) = top_3_percent_count out /\
     ((Z.of_nat (length (averaged_df_shuffled out)) < 2 ^ 51)%Z ->
      length (top_3_percent_df out)
      = length (averaged_df_shuffled out) * 3 / 100)).
Proof.
  intros img.
  assert (Hcounts :
            match fst (process_image congruential img sensor_wavelengths
                                     (Some 1) default_threshold
                                     default_quality_filter_threshold 7)
            with
            | OK out => Some (length (filtered_df out),
                              length (averaged_df_shuffled out),
                              length (top_3_percent_df out))
            | Raise _ => None
            end = Some (40, 40, 1))
    by (vm_compute; reflexivity).
  destruct (process_image congruential img sensor_wavelengths (Some 1)
                          default_threshold
                          default_quality_filter_threshold 7)
    as [[out|e] g'] eqn:Hrun; simpl in Hcounts; [|discriminate].
  exists out, g'. split; [reflexivity|]. split; [congruence|].
  exact (process_image_row_counts _ _ _ _ _ _ _ Hrun).
Defined.

(* ================================================================== *)
(** * Runs that find nothing to group *)
(* ================================================================== *)

Lemma nonzero_none (row : list bool) :
  Forall (fun selected => selected = false) row -> nonzero row = [].
Proof.
  unfold nonzero, enumerate. generalize 0 as start.
  induction row as [|b row IH]; intros start H; simpl; auto.
  inversion H as [|? ? Hb Hrow]; subst. simpl. now apply IH.
Qed.

Lemma argwhere_none (mask : list (list bool)) :
  Forall (Forall (fun selected => selected = false)) mask ->
  argwhere mask = [].
Proof.
  unfold argwhere, enumerate. generalize 0 as start.
  induction mask as [|row mask IH]; intros start H; simpl; auto.
  inversion H as [|? ? Hrow Hmask]; subst.
  simpl. rewrite (nonzero_none Hrow). simpl. now apply IH.
Qed.

Lemma mapM_raises {A B} (f : A -> result B) (xs : list A) (e : exn) :
  mapM f xs = Raise e -> exists x, In x xs /\ f x = Raise e.
Proof.
  induction xs as [|x xs IH]; simpl; [discriminate|].
  destruct (f x) as [y|e'] eqn:Hx; simpl.
  - destruct (mapM f xs) as [ys|e']; simpl; [discriminate|].
    intros H. injection H as ->.
    destruct (IH eq_refl) as (x' & Hin & Hx'). eauto.
  - intros H. injection H as ->. eauto.
Qed.

(** The only exception of a render is [IndexError]. *)
Lemma imshow_raises (img : cube float) (e : exn) :
  imshow img = Raise e -> e = IndexError.
Proof.
  unfold imshow. intros H.
  destruct (mapM (read_band img) display_bands) as [planes|e'] eqn:Hb;
    simpl in H; [discriminate|].
  injection H as ->.
  apply mapM_raises in Hb. destruct Hb as (band & _ & Hband).
  unfold read_band in Hband.
  apply mapM_raises in Hband. destruct Hband as (row & _ & Hrow).
  apply mapM_raises in Hrow. destruct Hrow as (px & _ & Hpx).
  destruct (nth_error px band); congruence.
Qed.

Section EmptyRuns.

Variable G : RandomState.

(** C5, as amended.  When the band-ratio mask selects no pixel, the run
    fails, before any table is built and before the generator is seeded,
    and the exception is not [EmptyRegionError]: numpy refuses to reshape
    the empty list of spectra and raises [ValueError], unless the image
    lacks a display band and the render has failed already. *)
Theorem process_image_empty_mask (img : cube float)
        (wavelengths : list float) (group_size : option nat)
        (threshold quality_filter_threshold : float) (g : rng G)
        (mask : list (list bool))
        (Hmask : band_ratio_mask img wavelengths threshold = OK mask)
        (Hnone : Forall (Forall (fun selected => selected = false)) mask) :
  exists e,
    process_image G img wavelengths group_size threshold
                  quality_filter_threshold g = (Raise e, g) /\
    e <> EmptyRegionError /\
    (imshow img = OK tt -> e = ValueError).
Proof.
  unfold process_image, bind, lift, spectral_table.
  rewrite Hmask. simpl.
  destruct (imshow img) as [[]|e] eqn:Hrenders; simpl.
  - rewrite (argwhere_none Hnone). simpl.
    exists ValueError. repeat split. discriminate.
  - exists e. repeat split; [|discriminate].
    rewrite (imshow_raises _ Hrenders). discriminate.
Qed.

(** C6, as amended.  When the spectra under the mask make a table and
    [group_size] exceeds the number of rows that pass the quality filter,
    the run raises nothing: it completes with an empty grouped table and
    an empty subsample. *)
Theorem process_image_no_complete_group (img : cube float)
        (wavelengths : list float) (n : nat)
        (threshold quality_filter_threshold : float) (g : rng G)
        (mask : list (list bool)) (df : table)
        (Htable : spectral_table img wavelengths threshold = OK (mask, df))
        (Hexceeds :
           length (quality_filter quality_filter_threshold df) < n) :
  exists out g',
    process_image G img wavelengths (Some n) threshold
                  quality_filter_threshold g = (OK out, g') /\
    Extractor.mask out = mask /\
    Extractor.df out = df /\
    filtered_df out = quality_filter quality_filter_threshold df /\
    averaged_df_shuffled out = [] /\
    top_3_percent_df out = [].
Proof.
  unfold process_image, bind, lift. rewrite Htable.
  unfold group_and_sample, bind, lift, np_random_seed, ret, floordiv.
  simpl fst. simpl snd.
  set (filtered := quality_filter quality_filter_threshold df) in *.
  destruct (Nat.eqb_spec n 0) as [Hz|_]; [lia|].
  rewrite (Nat.div_small _ _ Hexceeds).
  unfold sample_frac_1.
  destruct (choice G (seed G 42) (length filtered) (length filtered))
    as [[indices|e] g1] eqn:Hshuffle.
  - simpl. unfold sample_n, choice. simpl.
    pose proof (permutation_spec G (seed G 42) 0) as Hp.
    destruct (permutation G (seed G 42) 0) as [p g2]. simpl.
    do 2 eexists. repeat split.
  - unfold choice in Hshuffle. rewrite Nat.ltb_irrefl in Hshuffle.
    destruct (permutation G (seed G 42) (length filtered)). discriminate.
Qed.

(** C10.  When the spectra under the mask make a table, no row of it
    passes the quality filter and no [group_size] is given, the group size
    becomes zero and the run fails on the division [0 // 0] with
    [ZeroDivisionError], the generator having just been seeded. *)
Theorem process_image_default_group_size_zero (img : cube float)
        (wavelengths : list float)
        (threshold quality_filter_threshold : float) (g : rng G)
        (mask : list (list bool)) (df : table)
        (Htable : spectral_table img wavelengths threshold = OK (mask, df))
        (Hfiltered : quality_filter quality_filter_threshold df = []) :
  process_image G img wavelengths None threshold
                quality_filter_threshold g
  = (Raise ZeroDivisionError, seed G 42).
Proof.
  unfold process_image, bind, lift. rewrite Htable.
  unfold group_and_sample, bind, lift, np_random_seed, floordiv.
  simpl fst. simpl snd. rewrite Hfiltered. reflexivity.
Qed.

End EmptyRuns.

(** A pixel of ratio 0: the mask is empty and the run raises
    [ValueError]. *)
Lemma process_image_empty_mask_witness :
  let img := [[spectrum quarter F32.one F32.zero]] in
  band_ratio_mask img sensor_wavelengths default_threshold
  = OK [[false]] /\
  imshow img = OK tt /\
  exists e,
    process_image congruential img sensor_wavelengths (Some 20)
                  default_threshold default_quality_filter_threshold 7
    = (Raise e, 7) /\
    e <> EmptyRegionError /\
    (imshow img = OK tt -> e = ValueError).
Proof.
  intros img. split; [reflexivity|]. split; [reflexivity|].
  apply (@process_image_empty_mask congruential img sensor_wavelengths
           (Some 20) default_threshold default_quality_filter_threshold 7
           [[false]]).
  - reflexivity.
  - repeat constructor.
Defined.

(** C5 as stated fails on the cube whose only ratio is 0: the exception
    raised is not [EmptyRegionError]. *)
Lemma process_image_empty_mask_not_EmptyRegionError :
  let img := [[spectrum quarter F32.one F32.zero]] in
  let outcome :=
    fst (process_image congruential img sensor_wavelengths None
                       default_threshold default_quality_filter_threshold
                       7) in
  band_ratio_mask img sensor_wavelengths default_threshold
  = OK [[false]] /\
  outcome = Raise ValueError /\
  outcome <> Raise EmptyRegionError.
Proof.
  intros img outcome.
  assert (Houtcome : outcome = Raise ValueError)
    by (vm_compute; reflexivity).
  split; [vm_compute; reflexivity|]. split; [exact Houtcome|].
  rewrite Houtcome. discriminate.
Qed.

(** The six pixels and the [group_size=20] of the batch driver. *)
Lemma process_image_no_complete_group_witness :
  let mask := [[true; false; true]; [false; true; true]] in
  let df := [spectrum quarter quarter half;
             spectrum quarter quarter F32.one;
             spectrum quarter F32.zero half;
             spectrum quarter quarter half] in
  exists out g',
    process_image congruential six_pixels sensor_wavelengths (Some 20)
                  default_threshold default_quality_filter_threshold 7
    = (OK out, g') /\
    Extractor.mask out = mask /\
    Extractor.df out = df /\
    filtered_df out = quality_filter default_quality_filter_threshold df /\
    averaged_df_shuffled out = [] /\
    top_3_percent_df out = [].
Proof.
  intros mask df.
  apply (@process_image_no_complete_group congruential six_pixels
           sensor_wavelengths 20 default_threshold
           default_quality_filter_threshold 7 mask df).
  - reflexivity.
  - vm_compute. lia.
Defined.

(** C6 as stated fails on that cube: with four filtered rows and
    [group_size=20] the run returns, the grouped table and the subsample
    empty, and raises neither [InsufficientDataError] nor anything else. *)
Lemma process_image_no_InsufficientDataError :
  exists out,
    fst (process_image congruential six_pixels sensor_wavelengths (Some 20)
                       default_threshold default_quality_filter_threshold 7)
    = OK out /\
    length (filtered_df out) = 4 /\
    group_size out = 20 /\
    averaged_df_shuffled out = [] /\
    top_3_percent_df out = [].
Proof.
  eexists. split; [vm_compute; reflexivity|]. repeat split.
Qed.

(** One pixel of reflectance 1/256 at 751 nm and 1/1024 elsewhere:
    ratio 4, inside the mask, mean below 0.01. *)
Lemma process_image_default_group_size_zero_witness :
  let low := F32.div F32.one (F32.of_Z 1024) in
  let px := spectrum low low (F32.div F32.one (F32.of_Z 256)) in
  process_image congruential [[px]] sensor_wavelengths None
                default_threshold default_quality_filter_threshold 7
  = (Raise ZeroDivisionError, 42).
Proof.
  intros low px.
  apply (@process_image_default_group_size_zero congruential [[px]]
           sensor_wavelengths default_threshold
           default_quality_filter_threshold 7 [[true]] [px]).
  - reflexivity.
  - reflexivity.
Defined.

(* ================================================================== *)
(** * Resampling a cube to its own shape *)
(* ================================================================== *)

Lemma true_div_self (n : nat) : 0 < n -> true_div n n = OK 1%Q.
Proof.
  intros Hn. unfold true_div.
  destruct (Nat.eqb_spec n 0) as [Hz|_]; [lia|].
  f_equal. change 1%Q with (Qred 1). apply Qred_complete.
  unfold Qeq. simpl.
  destruct n as [|m]; [lia|].
  rewrite <- Pos.of_nat_succ, Zpos_P_of_succ_nat. lia.
Qed.

Lemma py_round_integer (z : Z) : py_round (inject_Z z * 1) = z.
Proof.
  unfold py_round.
  assert (Hfloor : Qfloor (inject_Z z * 1) = z).
  { rewrite Qmult_1_r. apply Qfloor_Z. }
  rewrite Hfloor.
  assert (Hlt : Qcompare (inject_Z z * 1 - inject_Z z) (1 # 2) = Lt).
  { rewrite <- Qlt_alt.
    setoid_replace (inject_Z z * 1 - inject_Z z)%Q with 0%Q by ring.
    reflexivity. }
  now rewrite Hlt.
Qed.

Lemma output_extent_unscaled (n : nat) : output_extent n 1 = n.
Proof.
  unfold output_extent. rewrite py_round_integer. apply Nat2Z.id.
Qed.

(** ** Binary64: a quotient of equals, a product by one, and the value
    of a natural number *)
Section Binary64Coordinates.

Local Open Scope Z_scope.

Lemma of_Z_mantissa (n : Z) :
  1 <= n < 2 ^ 53 ->
  let d := Zdigits2 n in
  1 <= d <= 53 /\
  2 ^ 52 <= n * 2 ^ (53 - d) < 2 ^ 53.
Proof.
  intros Hn d. destruct n as [|p|p]; try lia.
  unfold d. simpl Zdigits2.
  pose proof (digits2_pos_bounds p) as Hb.
  set (e := Zpos (digits2_pos p)) in *.
  assert (He : 1 <= e <= 53).
  { split; [unfold e; lia|].
    destruct (Z.le_gt_cases e 53) as [|Hgt]; [assumption|].
    assert (2 ^ 53 <= 2 ^ (e - 1)) by (apply Z.pow_le_mono_r; lia).
    lia. }
  split; [exact He|].
  assert (Hlow : 2 ^ 52 = 2 ^ (e - 1) * 2 ^ (53 - e))
    by (rewrite <- Z.pow_add_r by lia; f_equal; lia).
  assert (Hhigh : 2 ^ 53 = 2 ^ e * 2 ^ (53 - e))
    by (rewrite <- Z.pow_add_r by lia; f_equal; lia).
  assert (Hpos : 0 < 2 ^ (53 - e)) by (apply Z.pow_pos_nonneg; lia).
  rewrite Hlow, Hhigh. nia.
Qed.

Lemma div_eucl_exact (a b : Z) :
  0 < b -> Z.div_eucl (b * a) b = (a, 0).
Proof.
  intros Hb.
  pose proof (Z.div_mul a b ltac:(lia)) as Hq.
  pose proof (Z.mod_mul a b ltac:(lia)) as Hr.
  rewrite (Z.mul_comm a b) in Hq, Hr.
  unfold Z.div, Z.modulo in Hq, Hr.
  destruct (Z.div_eucl (b * a) b) as [q r]. simpl in *. congruence.
Qed.

Lemma new_location_exact (m : Z) : new_location m 0 = loc_Exact.
Proof.
  unfold new_location, new_location_even, new_location_odd.
  now destruct (Z.even m).
Qed.

(** [m / m] is 1. *)
Lemma F64_div_self (m : Z) :
  1 <= m < 2 ^ 53 -> F64.div (F64.of_Z m) (F64.of_Z m) = F64.one.
Proof.
  intros Hm. rewrite (of_Z_finite Hm).
  destruct (of_Z_mantissa Hm) as [Hd HM].
  set (d := Zdigits2 m) in *.
  set (M := m * 2 ^ (53 - d)) in *.
  assert (HMpos : Zpos (Z.to_pos M) = M) by (apply Z2Pos.id; lia).
  unfold F64.div, SFdiv, SFdiv_core_binary, F64.prec, F64.emax.
  rewrite HMpos.
  assert (Hdigits : Zdigits2 M = 53)
    by (apply Zdigits2_unique; [exact HM|lia]).
  rewrite Hdigits.
  replace (53 + (d - 53) - (53 + (d - 53))) with 0 by lia.
  replace (d - 53 - (d - 53)) with 0 by lia.
  change (Z.min (fexp 53 1024 0) 0) with (-53).
  change (0 - -53) with 53.
  rewrite Z.shiftl_mul_pow2 by lia.
  rewrite div_eucl_exact by lia.
  rewrite new_location_exact.
  reflexivity.
Qed.

(** [k * 1.0] is [k]. *)
Lemma F64_mul_one (k : Z) :
  0 <= k < 2 ^ 53 -> F64.mul (F64.of_Z k) F64.one = F64.of_Z k.
Proof.
  intros Hk. destruct (Z.eq_dec k 0) as [->|Hpos]; [reflexivity|].
  assert (Hk1 : 1 <= k < 2 ^ 53) by lia.
  rewrite (of_Z_finite Hk1).
  destruct (of_Z_mantissa Hk1) as [Hd HM].
  set (d := Zdigits2 k) in *.
  set (M := k * 2 ^ (53 - d)) in *.
  assert (HMpos : Zpos (Z.to_pos M) = M) by (apply Z2Pos.id; lia).
  unfold F64.mul, SFmul, F64.one, F64.prec, F64.emax.
  cbn [xorb]. rewrite Pos2Z.inj_mul, HMpos.
  set (P := M * 4503599627370496).
  assert (HP : P = M * 2 ^ 52) by reflexivity.
  assert (Hdigits : Zdigits2 P = 105).
  { apply Zdigits2_unique; [|lia].
    change (2 ^ (105 - 1)) with (2 ^ 52 * 2 ^ 52).
    change (2 ^ 105) with (2 ^ 53 * 2 ^ 52). rewrite HP. nia. }
  pose proof (@binary_round_aux_53 P (d - 53 + -52)) as Hround.
  rewrite Hdigits in Hround. cbv zeta in Hround.
  change (105 - 53) with 52 in Hround.
  assert (Hm0 : P / 2 ^ 52 = M) by (rewrite HP; apply Z.div_mul; lia).
  assert (Hbit : Z.testbit P (52 - 1) = false)
    by (rewrite HP; apply Z.mul_pow2_bits_low; lia).
  assert (Hmod : P mod 2 ^ (52 - 1) = 0).
  { rewrite HP. change (2 ^ 52) with (2 * 2 ^ (52 - 1)).
    rewrite Z.mul_assoc. apply Z.mod_mul. lia. }
  rewrite Hm0, Hbit, Hmod in Hround.
  change (round_nearest_even M
            (loc_of_shr_record
               {| shr_m := M; shr_r := false;
                  shr_s := negb (0 =? 0) |})) with M in Hround.
  rewrite Hround by lia.
  destruct (Z.ltb_spec M (2 ^ 53)) as [_|]; [|lia].
  f_equal. lia.
Qed.

(** The value of [k] as a binary64 number is [k]. *)
Lemma to_Q_of_Z (k : Z) :
  0 <= k < 2 ^ 53 ->
  exists c, F64.to_Q (F64.of_Z k) = Some c /\ (c == inject_Z k)%Q.
Proof.
  intros Hk. destruct (Z.eq_dec k 0) as [->|Hpos].
  - exists 0%Q. split; reflexivity.
  - assert (Hk1 : 1 <= k < 2 ^ 53) by lia.
    rewrite (of_Z_finite Hk1).
    destruct (of_Z_mantissa Hk1) as [Hd HM].
    set (d := Zdigits2 k) in *.
    set (M := k * 2 ^ (53 - d)) in *.
    assert (HMpos : Zpos (Z.to_pos M) = M) by (apply Z2Pos.id; lia).
    unfold F64.to_Q.
    destruct (d - 53) as [|p|p] eqn:He; try lia.
    + eexists. split; [reflexivity|].
      rewrite HMpos. unfold M.
      replace (53 - d) with 0 by lia. rewrite Z.pow_0_r, Z.mul_1_r.
      reflexivity.
    + eexists. split; [reflexivity|].
      unfold Qeq, inject_Z. cbn [Qnum Qden].
      rewrite HMpos, Pos2Z.inj_pow. unfold M.
      replace (53 - d) with (Zpos p) by lia. lia.
Qed.

End Binary64Coordinates.

(** Zoomed to its own extent, an axis has scale 1. *)
Lemma axis_scale_self (n : nat) :
  0 < n -> (Z.of_nat n < 2 ^ 53)%Z -> axis_scale n n = F64.one.
Proof.
  intros Hn Hsize. unfold axis_scale.
  destruct (Z.eqb_spec (Z.of_nat n - 1) 0) as [Hz|Hnz]; [reflexivity|].
  apply F64_div_self. lia.
Qed.

(** At scale 1 the coordinate of output index [k] is [k] itself: the first
    sample is [k] and the fraction is zero. *)
Lemma axis_coordinate_self (n k : nat) :
  k < n -> (Z.of_nat n < 2 ^ 53)%Z ->
  exists next t,
    axis_coordinate n n k = Some (k, next, t) /\ (t == 0)%Q.
Proof.
  intros Hk Hsize. unfold axis_coordinate, coordinate, map_coordinate.
  rewrite axis_scale_self by (auto; lia).
  rewrite F64_mul_one by lia.
  destruct (@to_Q_of_Z (Z.of_nat k)) as (cc & -> & Hcc); [lia|].
  assert (Hfloor : Qfloor cc = Z.of_nat k)
    by (rewrite Hcc; apply Qfloor_Z).
  assert (H0 : Qle_bool 0 cc = true).
  { apply Qle_bool_iff. rewrite Hcc.
    unfold Qle. simpl. lia. }
  assert (H1 : Qle_bool cc (inject_Z (Z.of_nat n - 1)) = true).
  { apply Qle_bool_iff. rewrite Hcc.
    unfold Qle. simpl. lia. }
  rewrite H0, H1. cbn [andb]. rewrite Hfloor, Nat2Z.id.
  do 2 eexists. split; [reflexivity|].
  rewrite Hcc. ring.
Qed.

Lemma interpolate_at_sample (input : cube Q) (i j k ni nj nk : nat)
      (ti tj tk : Q) :
  (ti == 0)%Q -> (tj == 0)%Q -> (tk == 0)%Q ->
  (interpolate input (Some (i, ni, ti)) (Some (j, nj, tj))
               (Some (k, nk, tk)) == sample input i j k)%Q.
Proof.
  intros Hi Hj Hk. unfold interpolate, weights. simpl.
  rewrite Hi, Hj, Hk. ring.
Qed.

Lemma nth_error_map_seq {A} (f : nat -> A) (n i : nat) :
  i < n -> nth_error (map f (seq 0 n)) i = Some (f i).
Proof.
  intros Hi. rewrite nth_error_map, nth_error_seq.
  destruct (Nat.ltb_spec i n); [reflexivity|lia].
Qed.

Lemma map_seq_const {A} (c : A) (n start : nat) :
  map (fun _ => c) (seq start n) = repeat c n.
Proof.
  revert start. induction n as [|n IH]; intros start; simpl; auto.
  now rewrite IH.
Qed.

(** The [dims] of an array are those of its shape. *)
Lemma rectangular_dims {A} (c : cube A) :
  rectangular c = true ->
  dims c = repeat (repeat (length (hd [] (hd [] c))) (length (hd [] c)))
                  (length c).
Proof.
  unfold rectangular, shape, dims.
  generalize (length (hd [] (hd [] c))) as n2.
  generalize (length (hd [] c)) as n1.
  intros n1 n2 H. rewrite forallb_forall in H.
  induction c as [|row c IH]; simpl; auto.
  f_equal.
  - specialize (H row (or_introl eq_refl)).
    apply andb_true_iff in H. destruct H as [Hlen Hpx].
    apply Nat.eqb_eq in Hlen. subst n1.
    rewrite forallb_forall in Hpx. clear IH.
    induction row as [|px row IH]; simpl; auto.
    f_equal.
    + apply Nat.eqb_eq, Hpx. now left.
    + apply IH. intros p Hp. apply Hpx. now right.
  - apply IH. intros r Hr. apply H. now right.
Qed.

Lemma rectangular_get {A} (c : cube A) (i j k : nat) (x : A) :
  rectangular c = true -> cube_get c i j k = Some x ->
  i < length c /\ j < length (hd [] c) /\ k < length (hd [] (hd [] c)).
Proof.
  unfold rectangular, shape, cube_get. intros H Hget.
  rewrite forallb_forall in H.
  destruct (nth_error c i) as [row|] eqn:Hrow; [|discriminate].
  destruct (nth_error row j) as [px|] eqn:Hpx; [|discriminate].
  pose proof (H row (nth_error_In _ _ Hrow)) as Hr.
  apply andb_true_iff in Hr. destruct Hr as [Hlen Hall].
  apply Nat.eqb_eq in Hlen. rewrite forallb_forall in Hall.
  pose proof (Hall px (nth_error_In _ _ Hpx)) as Hp.
  apply Nat.eqb_eq in Hp.
  repeat split.
  - apply nth_error_Some. congruence.
  - rewrite <- Hlen. apply nth_error_Some. congruence.
  - rewrite <- Hp. apply nth_error_Some. congruence.
Qed.

Lemma rectangular_get_in_range {A} (c : cube A) (i j k : nat) :
  rectangular c = true ->
  i < length c -> j < length (hd [] c) -> k < length (hd [] (hd [] c)) ->
  exists x, cube_get c i j k = Some x.
Proof.
  unfold rectangular, shape, cube_get. intros H Hi Hj Hk.
  rewrite forallb_forall in H.
  destruct (nth_error c i) as [row|] eqn:Hrow;
    [|apply nth_error_None in Hrow; lia].
  pose proof (H row (nth_error_In _ _ Hrow)) as Hr.
  apply andb_true_iff in Hr. destruct Hr as [Hlen Hall].
  apply Nat.eqb_eq in Hlen. rewrite forallb_forall in Hall.
  destruct (nth_error row j) as [px|] eqn:Hpx;
    [|apply nth_error_None in Hpx; lia].
  pose proof (Hall px (nth_error_In _ _ Hpx)) as Hp.
  apply Nat.eqb_eq in Hp.
  destruct (nth_error px k) as [x|] eqn:Hx;
    [eauto|apply nth_error_None in Hx; lia].
Qed.

Lemma nth_error_map_seq_inv {A} (f : nat -> A) (n i : nat) (y : A) :
  nth_error (map f (seq 0 n)) i = Some y -> i < n.
Proof.
  intros H.
  assert (Hlt : i < length (map f (seq 0 n)))
    by (apply nth_error_Some; congruence).
  now rewrite length_map, length_seq in Hlt.
Qed.

(** C9, as amended.  Resampling an array with at least one row and one
    column, fewer than [2 ^ 53] samples along each axis and finite
    elements to its own shape: the row and column factors are 1 and the
    band factor is 1, the call succeeds, the output has the shape of the
    input, and the order-1 interpolation returns, at every position, the
    value of the input there; the output has no other element. *)
Theorem resize_to_own_shape (image : cube Q)
        (Harray : rectangular image = true)
        (Hrows : 0 < length image)
        (Hcolumns : 0 < length (hd [] image))
        (Hsize : (Z.of_nat (length image) < 2 ^ 53
                  /\ Z.of_nat (length (hd [] image)) < 2 ^ 53
                  /\ Z.of_nat (length (hd [] (hd [] image))) < 2 ^ 53)%Z) :
  factors image (shape image) = OK (1, 1, 1)%Q /\
  exists out,
    resize_hyperspectral_image image (shape image) = OK out /\
    dims out = dims image /\
    (forall i j k x,
        cube_get image i j k = Some x ->
        exists y, cube_get out i j k = Some y /\ (y == x)%Q) /\
    (forall i j k y,
        cube_get out i j k = Some y ->
        exists x, cube_get image i j k = Some x /\ (y == x)%Q).
Proof.
  destruct Hsize as (Hsize0 & Hsize1 & Hsize2).
  assert (Hf : factors image (shape image) = OK (1, 1, 1)%Q).
  { unfold factors, shape.
    rewrite (true_div_self Hrows), (true_div_self Hcolumns).
    reflexivity. }
  split; [exact Hf|].
  unfold resize_hyperspectral_image. rewrite Hf. simpl.
  eexists. split; [reflexivity|].
  unfold zoom, shape. rewrite !output_extent_unscaled.
  assert (Hforward :
            forall i j k x,
              cube_get image i j k = Some x ->
              exists y,
                cube_get
                  (map (fun i =>
                     map (fun j =>
                       map (fun k =>
                         interpolate image
                           (axis_coordinate (length image)
                                            (length image) i)
                           (axis_coordinate (length (hd [] image))
                                            (length (hd [] image)) j)
                           (axis_coordinate
                              (length (hd [] (hd [] image)))
                              (length (hd [] (hd [] image))) k))
                         (seq 0 (length (hd [] (hd [] image)))))
                       (seq 0 (length (hd [] image))))
                     (seq 0 (length image))) i j k = Some y /\
                (y == x)%Q).
  { intros i j k x Hget.
    destruct (rectangular_get _ _ _ _ Harray Hget) as (Hi & Hj & Hk).
    unfold cube_get at 1.
    rewrite nth_error_map_seq by exact Hi.
    rewrite nth_error_map_seq by exact Hj.
    rewrite nth_error_map_seq by exact Hk.
    eexists. split; [reflexivity|].
    destruct (axis_coordinate_self Hi Hsize0) as (ni & ti & -> & Hti).
    destruct (axis_coordinate_self Hj Hsize1) as (nj & tj & -> & Htj).
    destruct (axis_coordinate_self Hk Hsize2) as (nk & tk & -> & Htk).
    rewrite interpolate_at_sample by assumption.
    unfold sample. now rewrite Hget. }
  split; [|split; [exact Hforward|]].
  - rewrite (rectangular_dims _ Harray). unfold dims.
    rewrite map_map. rewrite <- map_seq_const with (start := 0).
    apply map_ext. intros i. rewrite map_map.
    rewrite <- map_seq_const with (start := 0).
    apply map_ext. intros j. now rewrite length_map, length_seq.
  - intros i j k y Hget.
    assert (Hrange : i < length image /\ j < length (hd [] image) /\
                     k < length (hd [] (hd [] image))).
    { unfold cube_get in Hget.
      destruct (nth_error _ i) as [row|] eqn:Hrow; [|discriminate].
      pose proof (@nth_error_map_seq_inv _ _ _ _ _ Hrow) as Hi.
      rewrite nth_error_map_seq in Hrow by exact Hi.
      injection Hrow as <-.
      destruct (nth_error _ j) as [px|] eqn:Hpx; [|discriminate].
      pose proof (@nth_error_map_seq_inv _ _ _ _ _ Hpx) as Hj.
      rewrite nth_error_map_seq in Hpx by exact Hj.
      injection Hpx as <-.
      pose proof (@nth_error_map_seq_inv _ _ _ _ _ Hget) as Hk.
      auto. }
    destruct Hrange as (Hi & Hj & Hk).
    destruct (@rectangular_get_in_range _ _ _ _ _ Harray Hi Hj Hk)
      as (x & Hx).
    destruct (Hforward _ _ _ _ Hx) as (y' & Hy' & Heq).
    exists x. split; [exact Hx|]. congruence.
Qed.

(** A 2 x 2 x 2 cube resampled to (2, 2, 2). *)
Lemma resize_to_own_shape_witness :
  let image := [[[1 # 2; 3 # 4]; [0; 1]]; [[1 # 3; 2 # 3]; [5 # 7; 1 # 9]]]%Q
  in
  factors image (2, 2, 2) = OK (1, 1, 1)%Q /\
  exists out,
    resize_hyperspectral_image image (2, 2, 2) = OK out /\
    dims out = dims image /\
    (forall i j k x,
        cube_get image i j k = Some x ->
        exists y, cube_get out i j k = Some y /\ (y == x)%Q) /\
    (forall i j k y,
        cube_get out i j k = Some y ->
        exists x, cube_get image i j k = Some x /\ (y == x)%Q).
Proof.
  intros image.
  apply (@resize_to_own_shape image);
    [reflexivity | simpl; lia | simpl; lia | simpl; lia].
Defined.

(** C9 as stated fails on a cube without rows, and on one whose rows
    have no columns: the division of the extents raises
    [ZeroDivisionError] and nothing is resampled. *)
Lemma resize_empty_cube :
  resize_hyperspectral_image [] (shape ([] : cube Q))
  = Raise ZeroDivisionError /\
  resize_hyperspectral_image [[]; []] (shape ([[]; []] : cube Q))
  = Raise ZeroDivisionError.
Proof. split; reflexivity. Qed.

(** The interpolation is not the identity in general: two rows resampled
    to three give the midpoint in between. *)
Example resize_two_rows_to_three :
  exists out,
    resize_hyperspectral_image [[[0]]; [[1]]]%Q (3, 1, 1) = OK out /\
    map (map (map Qred)) out = [[[0]]; [[1 # 2]]; [[1]]]%Q.
Proof. eexists. split; reflexivity. Qed.

(* ================================================================== *)
(** * Calibration: what the clamp returns, and mismatched bands *)
(* ================================================================== *)

(** The three cases of the clamp to [0, 1]. *)
Lemma clip_cases (x : float) :
  (SFltb x F32.zero = true -> clip x F32.zero F32.one = F32.zero) /\
  (SFltb F32.one x = true -> clip x F32.zero F32.one = F32.one) /\
  (in_unit_interval x = true ->
   SFcompare (clip x F32.zero F32.one) x = Some Eq).
Proof.
  unfold clip, npy_max, npy_min, in_unit_interval.
  split; [|split].
  - intros Hlt.
    destruct (SFltb_not_nan _ _ Hlt) as [-> _].
    apply SFltb_SFleb in Hlt as Hle.
    destruct (SFltb F32.zero x) eqn:H0; [|reflexivity].
    apply SFltb_asym in H0. congruence.
  - intros Hgt.
    destruct (SFltb_not_nan _ _ Hgt) as [_ Hx]. rewrite Hx.
    assert (H0 : SFltb F32.zero x = true)
      by (apply SFltb_trans with F32.one; auto).
    rewrite H0, Hx.
    destruct (SFltb x F32.one) eqn:H1; [|reflexivity].
    apply SFltb_SFleb in H1. apply SFltb_asym in Hgt. congruence.
  - intros Hin. apply andb_true_iff in Hin. destruct Hin as [H0 H1].
    destruct (SFleb_not_nan _ _ H0) as [_ Hx]. rewrite Hx.
    destruct (SFltb F32.zero x) eqn:Hpos.
    + rewrite Hx. destruct (SFltb x F32.one) eqn:Hlt.
      * now apply SFcompare_refl.
      * apply SFcompare_Eq_sym. now apply SFleb_not_ltb.
    + now apply SFleb_not_ltb.
Qed.

(** With equal shapes the calibration is the clamp of the quotient,
    position by position. *)
Lemma apply_calibration_same_dims (raw white dark : cube float) :
  dims white = dims raw -> dims dark = dims raw ->
  apply_calibration raw white dark
  = OK (map (map (map (fun x => clip x F32.zero F32.one)))
            (zip_with (zip_with (zip_with F32.div))
               (zip_with (zip_with (zip_with F32.sub)) raw dark)
               (zip_with (zip_with (zip_with F32.sub)) white dark))).
Proof.
  intros Hwhite Hdark. unfold apply_calibration.
  rewrite (elementwise_same_dims F32.sub raw dark) by congruence.
  rewrite (elementwise_same_dims F32.sub white dark) by congruence.
  simpl.
  rewrite elementwise_same_dims; [reflexivity|].
  rewrite !dims_zip_with; congruence.
Qed.

(** X2.  What the clamp does to a quotient that is a number: an
    element whose quotient [(raw - dark) / (white - dark)] is below zero
    becomes exactly 0, one whose quotient is above one becomes exactly 1,
    and a quotient inside [0, 1] is returned unchanged in value. *)
Theorem apply_calibration_clamps (raw white dark : cube float)
        (Hwhite : dims white = dims raw) (Hdark : dims dark = dims raw) :
  exists out,
    apply_calibration raw white dark = OK out /\
    forall i j k r w d,
      cube_get raw i j k = Some r ->
      cube_get white i j k = Some w ->
      cube_get dark i j k = Some d ->
      exists y,
        cube_get out i j k = Some y /\
        (SFltb (quotient r w d) F32.zero = true -> y = F32.zero) /\
        (SFltb F32.one (quotient r w d) = true -> y = F32.one) /\
        (in_unit_interval (quotient r w d) = true ->
         SFcompare y (quotient r w d) = Some Eq).
Proof.
  eexists. split; [now apply apply_calibration_same_dims|].
  intros i j k r w d Hr Hw Hd.
  rewrite cube_get_map, !cube_get_zip_with, Hr, Hw, Hd. simpl.
  eexists. split; [reflexivity|].
  apply clip_cases.
Qed.

(** A 1 x 1 x 3 capture with quotients -1/4, 1/2 and 2. *)
Lemma apply_calibration_clamps_witness :
  let raw := [[[F32.of_Z 0; F32.of_Z 3; F32.of_Z 9]]] in
  let white := [[[F32.of_Z 5; F32.of_Z 5; F32.of_Z 5]]] in
  let dark := [[[F32.of_Z 1; F32.of_Z 1; F32.of_Z 1]]] in
  apply_calibration raw white dark = OK [[[F32.zero; half; F32.one]]] /\
  exists out,
    apply_calibration raw white dark = OK out /\
    forall i j k r w d,
      cube_get raw i j k = Some r ->
      cube_get white i j k = Some w ->
      cube_get dark i j k = Some d ->
      exists y,
        cube_get out i j k = Some y /\
        (SFltb (quotient r w d) F32.zero = true -> y = F32.zero) /\
        (SFltb F32.one (quotient r w d) = true -> y = F32.one) /\
        (in_unit_interval (quotient r w d) = true ->
         SFcompare y (quotient r w d) = Some Eq).
Proof.
  intros raw white dark. split; [reflexivity|].
  apply (apply_calibration_clamps raw white dark); reflexivity.
Defined.

(** X3.  The band axis of a reference is never adapted: when the raw
    image and the dark reference agree in rows and columns and differ in
    the number of bands, neither having a single band, the calibration
    raises the [ValueError] of numpy's broadcasting. *)
Theorem apply_calibration_band_mismatch (raw white dark : cube float)
        (Hrows : length raw = length dark)
        (Hcolumns : length (hd [] raw) = length (hd [] dark))
        (Hraw : 0 < length (hd [] raw))
        (Hbands : length (hd [] (hd [] raw))
                  <> length (hd [] (hd [] dark)))
        (Hraw1 : length (hd [] (hd [] raw)) <> 1)
        (Hdark1 : length (hd [] (hd [] dark)) <> 1) :
  apply_calibration raw white dark = Raise ValueError.
Proof.
  destruct raw as [|[|px row] raw]; simpl in Hraw; try lia.
  destruct dark as [|[|qx dow] dark]; simpl in *; try lia.
  unfold apply_calibration, elementwise.
  unfold broadcast at 1. simpl length. rewrite Hrows, Nat.eqb_refl.
  cbn [zipM]. unfold broadcast at 1. simpl length.
  rewrite Hcolumns, Nat.eqb_refl. cbn [zipM].
  unfold broadcast at 1.
  destruct (Nat.eqb_spec (length px) (length qx)) as [|_]; [contradiction|].
  destruct px as [|a [|b px]], qx as [|c [|e qx]]; simpl in *;
    try contradiction; reflexivity.
Qed.

(** A raw pixel of three bands and a dark reference of two. *)
Lemma apply_calibration_band_mismatch_witness :
  apply_calibration [[[F32.one; F32.one; F32.one]]]
                    [[[F32.one; F32.one; F32.one]]]
                    [[[F32.zero; F32.zero]]]
  = Raise ValueError.
Proof.
  apply apply_calibration_band_mismatch; simpl; lia.
Defined.

(** A finite number minus itself is zero. *)
Lemma sub_self (d : float) :
  is_finite d = true -> F32.sub d d = F32.zero.
Proof.
  destruct d as [[]|[]| |s m e]; intros H; try discriminate H;
    try reflexivity.
  unfold F32.sub, SFsub, shl_align.
  rewrite Z.min_id, Z.sub_diag. cbn [fst].
  replace (cond_Zopp s (Z.pos m) - cond_Zopp s (Z.pos m))%Z with 0%Z
    by (symmetry; apply Z.sub_diag).
  reflexivity.
Qed.

(** X27.  A raw value equal to the dark reference calibrates to
    exactly 0 wherever the white reference differs from the dark one:
    for cubes of the same shape, at every position where raw and dark
    hold the same finite value and [white - dark] is a number other than
    zero, the calibrated element is 0. *)
Theorem apply_calibration_dark (raw white dark : cube float)
        (Hwhite : dims white = dims raw) (Hdark : dims dark = dims raw) :
  exists out,
    apply_calibration raw white dark = OK out /\
    forall i j k w d,
      cube_get raw i j k = Some d ->
      cube_get dark i j k = Some d ->
      cube_get white i j k = Some w ->
      is_finite d = true ->
      is_nan (F32.sub w d) = false ->
      (forall s, F32.sub w d <> S754_zero s) ->
      cube_get out i j k = Some F32.zero.
Proof.
  eexists. split; [now apply apply_calibration_same_dims|].
  intros i j k w d Hr Hd Hw Hfinite Hnan Hzero.
  rewrite cube_get_map, !cube_get_zip_with, Hr, Hw, Hd. simpl.
  rewrite (sub_self _ Hfinite). f_equal.
  destruct (F32.sub w d) as [s| | |s m e]; try discriminate Hnan.
  - now destruct (Hzero s).
  - now destruct s.
  - now destruct s.
Qed.

(** A 1 x 1 x 2 capture whose raw values are the dark ones. *)
Lemma apply_calibration_dark_witness :
  let raw := [[[F32.of_Z 1; F32.of_Z 2]]] in
  let white := [[[F32.of_Z 5; F32.of_Z 1]]] in
  apply_calibration raw white raw = OK [[[F32.zero; F32.zero]]] /\
  exists out,
    apply_calibration raw white raw = OK out /\
    forall i j k w d,
      cube_get raw i j k = Some d ->
      cube_get raw i j k = Some d ->
      cube_get white i j k = Some w ->
      is_finite d = true ->
      is_nan (F32.sub w d) = false ->
      (forall s, F32.sub w d <> S754_zero s) ->
      cube_get out i j k = Some F32.zero.
Proof.
  intros raw white. split; [reflexivity|].
  apply (apply_calibration_dark raw white raw); reflexivity.
Defined.

(* ================================================================== *)
(** * Resampling to a target shape *)
(* ================================================================== *)

Lemma py_round_eq_integer (q : Q) (z : Z) :
  (q == inject_Z z)%Q -> py_round q = z.
Proof.
  intros Hq. unfold py_round.
  assert (Hfloor : Qfloor q = z) by (rewrite Hq; apply Qfloor_Z).
  rewrite Hfloor.
  assert (Hlt : Qcompare (q - inject_Z z) (1 # 2) = Lt).
  { rewrite <- Qlt_alt.
    setoid_replace (q - inject_Z z)%Q with 0%Q by (rewrite Hq; ring).
    reflexivity. }
  now rewrite Hlt.
Qed.

(** The extent that [zoom] gives to an axis of [n] samples zoomed by
    [t / n] is [t]. *)
Lemma output_extent_true_div (n t : nat) (f : Q) :
  true_div t n = OK f -> output_extent n f = t.
Proof.
  unfold true_div. destruct (Nat.eqb_spec n 0) as [|Hn]; [discriminate|].
  intros H.
  assert (Hf : f = Qred (Z.of_nat t # Pos.of_nat n)) by congruence.
  subst f. unfold output_extent.
  rewrite (@py_round_eq_integer _ (Z.of_nat t)); [apply Nat2Z.id|].
  rewrite Qred_correct. unfold Qeq, Qmult, inject_Z. simpl.
  destruct n as [|m]; [lia|].
  rewrite <- Pos.of_nat_succ, Zpos_P_of_succ_nat. lia.
Qed.

(** X4.  Resizing fails only on an image without rows or without
    columns, with [ZeroDivisionError]; otherwise the result has the rows
    and columns of the target shape and the bands of the image: the third
    entry of the target shape is not used. *)
Theorem resize_hyperspectral_image_shape (image : cube Q)
        (rows columns bands : nat) :
  match resize_hyperspectral_image image (rows, columns, bands) with
  | OK out =>
      0 < length image /\ 0 < length (hd [] image) /\
      length out = rows /\
      Forall (fun row =>
                length row = columns /\
                Forall (fun px => length px
                                  = length (hd [] (hd [] image))) row) out
  | Raise e =>
      e = ZeroDivisionError /\
      (length image = 0 \/ length (hd [] image) = 0)
  end.
Proof.
  unfold resize_hyperspectral_image, factors, shape.
  destruct (true_div rows (length image)) as [f0|e] eqn:H0; simpl.
  - destruct (true_div columns (length (hd [] image))) as [f1|e] eqn:H1;
      simpl.
    + assert (Hr : 0 < length image)
        by (unfold true_div in H0;
            destruct (Nat.eqb_spec (length image) 0);
            [discriminate|lia]).
      assert (Hc : 0 < length (hd [] image))
        by (unfold true_div in H1;
            destruct (Nat.eqb_spec (length (hd [] image)) 0);
            [discriminate|lia]).
      unfold zoom, shape.
      rewrite (output_extent_true_div _ _ H0),
              (output_extent_true_div _ _ H1), output_extent_unscaled.
      repeat split; auto.
      * now rewrite length_map, length_seq.
      * rewrite Forall_forall. intros row Hrow.
        apply in_map_iff in Hrow. destruct Hrow as (i & <- & _).
        split; [now rewrite length_map, length_seq|].
        rewrite Forall_forall. intros px Hpx.
        apply in_map_iff in Hpx. destruct Hpx as (j & <- & _).
        now rewrite length_map, length_seq.
    + unfold true_div in H1.
      destruct (Nat.eqb_spec (length (hd [] image)) 0);
        [|discriminate].
      injection H1 as <-. auto.
  - unfold true_div in H0.
    destruct (Nat.eqb_spec (length image) 0); [|discriminate].
    injection H0 as <-. auto.
Qed.





(** The element of a resized image at a position is the weighted sum at
    the coordinates of the position along the three axes. *)
Lemma resize_hyperspectral_image_get (image : cube Q)
      (rows columns bands : nat) (out : cube Q) (i j k : nat) (y : Q) :
  resize_hyperspectral_image image (rows, columns, bands) = OK out ->
  cube_get out i j k = Some y ->
  i < rows /\ j < columns /\ k < length (hd [] (hd [] image)) /\
  y = interpolate image
        (axis_coordinate (length image) rows i)
        (axis_coordinate (length (hd [] image)) columns j)
        (axis_coordinate (length (hd [] (hd [] image)))
                         (length (hd [] (hd [] image))) k).
Proof.
  intros Hout Hy.
  unfold resize_hyperspectral_image, factors, shape in Hout.
  destruct (true_div rows (length image)) as [f0|] eqn:H0;
    [|discriminate].
  destruct (true_div columns (length (hd [] image))) as [f1|] eqn:H1;
    [|discriminate].
  simpl in Hout. injection Hout as <-.
  unfold zoom, shape in Hy.
  rewrite (output_extent_true_div _ _ H0),
          (output_extent_true_div _ _ H1), output_extent_unscaled in Hy.
  unfold cube_get in Hy.
  destruct (nth_error _ i) as [row|] eqn:Hrow; [|discriminate].
  pose proof (@nth_error_map_seq_inv _ _ _ _ _ Hrow) as Hi.
  rewrite nth_error_map_seq in Hrow by exact Hi. injection Hrow as <-.
  destruct (nth_error _ j) as [px|] eqn:Hpx; [|discriminate].
  pose proof (@nth_error_map_seq_inv _ _ _ _ _ Hpx) as Hj.
  rewrite nth_error_map_seq in Hpx by exact Hj. injection Hpx as <-.
  pose proof (@nth_error_map_seq_inv _ _ _ _ _ Hy) as Hk.
  rewrite nth_error_map_seq in Hy by exact Hk.
  repeat split; try assumption. congruence.
Qed.



(** X5.  An output row or column whose binary64 coordinate falls
    outside the input, be it by one rounding past the last sample, is
    filled with [cval = 0] in every band, whatever the image holds. *)
Theorem resize_hyperspectral_image_outside (image : cube Q)
        (rows columns bands : nat) (out : cube Q)
        (Hout : resize_hyperspectral_image image (rows, columns, bands)
                = OK out)
        (i j k : nat) (y : Q)
        (Hy : cube_get out i j k = Some y)
        (Houtside :
           map_coordinate (coordinate (length image) rows i)
                          (length image) = None
           \/ map_coordinate (coordinate (length (hd [] image)) columns j)
                             (length (hd [] image)) = None) :
  y = 0%Q.
Proof.
  destruct (@resize_hyperspectral_image_get _ _ _ _ _ _ _ _ _ Hout Hy)
    as (_ & _ & _ & ->).
  unfold axis_coordinate at 1 2.
  destruct Houtside as [-> | ->]; [reflexivity|].
  now destruct (map_coordinate (coordinate (length image) rows i) _).
Qed.

(** Eight rows of ones resampled to twenty-six: the coordinate of the
    last output row is [25 * fl(7 / 25)], above 7, and the row holds
    0 where the image holds 1. *)
Lemma resize_hyperspectral_image_outside_witness :
  let image := repeat [[1%Q]] 8 in
  cube_get image 7 0 0 = Some 1%Q /\
  exists out,
    resize_hyperspectral_image image (26, 1, 1) = OK out /\
    cube_get out 25 0 0 = Some 0%Q.
Proof.
  intros image. split; [reflexivity|].
  destruct (resize_hyperspectral_image image (26, 1, 1)) as [out|e]
    eqn:Hout; [|vm_compute in Hout; discriminate].
  exists out. split; [reflexivity|].
  destruct (cube_get out 25 0 0) as [y|] eqn:Hy.
  - f_equal.
    apply (@resize_hyperspectral_image_outside image 26 1 1 out Hout
             25 0 0 y Hy).
    left. vm_compute. reflexivity.
  - vm_compute in Hout. injection Hout as <-. discriminate Hy.
Defined.

(* ================================================================== *)
(** * File names and paths *)
(* ================================================================== *)

Section Strings.

Local Open Scope string_scope.

Lemma prefix_empty (s : string) : prefix "" s = true.
Proof. destruct s; reflexivity. Qed.

Lemma prefix_char (c a : ascii) (s : string) :
  prefix (String c "") (String a s) = Ascii.eqb a c.
Proof.
  cbn [prefix]. destruct (ascii_dec c a) as [->|Hne].
  - now rewrite prefix_empty, Ascii.eqb_refl.
  - destruct (Ascii.eqb_spec a c); [congruence|reflexivity].
Qed.

Lemma contains_char_cons (c a : ascii) (s : string) :
  Str.contains (String c "") (String a s)
  = Ascii.eqb a c || Str.contains (String c "") s.
Proof.
  simpl. destruct (ascii_dec c a) as [->|Hne].
  - now rewrite prefix_empty, Ascii.eqb_refl.
  - destruct (Ascii.eqb_spec a c); [congruence|reflexivity].
Qed.

Lemma contains_char_app (c : ascii) (a b : string) :
  Str.contains (String c "") (a ++ b)
  = Str.contains (String c "") a || Str.contains (String c "") b.
Proof.
  induction a as [|x a IH].
  - destruct b; reflexivity.
  - change (String x a ++ b) with (String x (a ++ b)).
    now rewrite !contains_char_cons, IH, orb_assoc.
Qed.

Lemma rfind_absent (c : ascii) (s : string) :
  Str.contains (String c "") s = false -> Str.rfind c s = None.
Proof.
  induction s as [|a s IH]; [reflexivity|].
  rewrite contains_char_cons. intros H.
  apply orb_false_iff in H. destruct H as [Ha Hs].
  simpl. now rewrite (IH Hs), Ha.
Qed.

Lemma rfind_last (c : ascii) (a b : string) :
  Str.contains (String c "") b = false ->
  Str.rfind c (a ++ String c b) = Some (String.length a).
Proof.
  intros Hb. induction a as [|x a IH]; simpl.
  - now rewrite (rfind_absent _ _ Hb), Ascii.eqb_refl.
  - now rewrite IH.
Qed.

Lemma slice_to_app (a b : string) :
  Str.slice_to (String.length a) (a ++ b) = a.
Proof.
  induction a as [|x a IH]; simpl; [now destruct b|now rewrite IH].
Qed.

Lemma slice_to_length (s : string) :
  Str.slice_to (String.length s) s = s.
Proof. induction s as [|x s IH]; simpl; [reflexivity|now rewrite IH]. Qed.

Lemma slice_from_app (a b : string) :
  Str.slice_from (String.length a) (a ++ b) = b.
Proof. induction a as [|x a IH]; simpl; auto. Qed.

Lemma slice_app (i : nat) (s : string) :
  Str.slice_to i s ++ Str.slice_from i s = s.
Proof.
  revert s. induction i as [|i IH]; intros [|a s]; simpl; auto.
  now rewrite IH.
Qed.

Lemma append_assoc (a b c : string) : (a ++ b) ++ c = a ++ (b ++ c).
Proof. induction a as [|x a IH]; simpl; [reflexivity|now rewrite IH]. Qed.

Lemma append_nil_r (a : string) : a ++ "" = a.
Proof. induction a as [|x a IH]; simpl; [reflexivity|now rewrite IH]. Qed.

Lemma length_append (a b : string) :
  String.length (a ++ b) = String.length a + String.length b.
Proof. induction a as [|x a IH]; simpl; auto. Qed.

(** A name that ends with the separator is some string followed by
    it. *)
Lemma endswith_sep (s : string) :
  Str.endswith s "/" = true -> exists h, s = h ++ "/".
Proof.
  induction s as [|a s IH]; [discriminate|].
  simpl. intros H. apply orb_true_iff in H. destruct H as [H|H].
  - destruct (Ascii.eqb_spec a "/"); [|discriminate].
    destruct s; [|discriminate]. subst. now exists "".
  - destruct (IH H) as (h & ->). now exists (String a h).
Qed.

Lemma endswith_app (a s : string) : Str.endswith (a ++ s) s = true.
Proof.
  induction a as [|x a IH]; simpl.
  - destruct s; simpl; [reflexivity|].
    now rewrite Ascii.eqb_refl, String.eqb_refl.
  - now rewrite IH, orb_true_r.
Qed.

Lemma endswith_sep_free (s : string) :
  Str.contains "/" s = false -> Str.endswith s "/" = false.
Proof.
  induction s as [|a s IH]; [reflexivity|].
  rewrite contains_char_cons. intros H.
  apply orb_false_iff in H. destruct H as [Ha Hs].
  simpl. now rewrite Ha, (IH Hs).
Qed.

Lemma endswith_sep_app (a s : string) :
  s <> "" -> Str.endswith (a ++ s) "/" = Str.endswith s "/".
Proof.
  intros Hs. induction a as [|x a IH]; [reflexivity|].
  change (String x a ++ s) with (String x (a ++ s)).
  cbn [Str.endswith]. rewrite IH.
  destruct (a ++ s) eqn:Has.
  - destruct a; [simpl in Has; congruence|discriminate].
  - simpl. now destruct (Ascii.eqb x "/").
Qed.

Lemma rstrip_sep (a s : string) :
  s <> "" -> Str.contains "/" s = false ->
  Str.rstrip "/" ((a ++ s) ++ "/") = a ++ s.
Proof.
  intros Hs Hfree.
  assert (Hbase : Str.rstrip "/" (s ++ "/") = s).
  { clear a. induction s as [|x s IH]; [congruence|].
    rewrite contains_char_cons in Hfree.
    apply orb_false_iff in Hfree. destruct Hfree as [Hx Hfree].
    change (String x s ++ "/") with (String x (s ++ "/")).
    simpl. destruct s as [|y s].
    - simpl. now rewrite Hx.
    - rewrite IH by (auto; discriminate). reflexivity. }
  induction a as [|x a IH]; [exact Hbase|].
  change ((String x a ++ s) ++ "/") with (String x ((a ++ s) ++ "/")).
  simpl. rewrite IH.
  destruct (a ++ s) eqn:Has; [|reflexivity].
  destruct a; [simpl in Has; congruence|discriminate].
Qed.

(** A string that holds a character other than [c] is not [c * n]. *)
Lemma times_all (c : ascii) (s : string) :
  s = Str.times c (String.length s) ->
  forall a b x, s = a ++ String x b -> x = c.
Proof.
  revert s. intros s Hs a. revert s Hs.
  induction a as [|y a IH]; intros s Hs b x ->; simpl in Hs.
  - now injection Hs as ->.
  - injection Hs as _ Hs. eapply IH; eauto.
Qed.

Lemma join2_head (root file : string) :
  Str.contains "/" file = false ->
  OsPath.join2 root file = OsPath.head_of root ++ file.
Proof.
  intros Hfree. unfold OsPath.join2, OsPath.head_of, Str.startswith.
  assert (Hstart : prefix "/" file = false).
  { destruct file as [|a file]; [reflexivity|].
    rewrite contains_char_cons in Hfree.
    apply orb_false_iff in Hfree. destruct Hfree as [Ha _].
    now rewrite prefix_char. }
  rewrite Hstart.
  destruct (String.eqb_spec root "") as [->|Hne]; [reflexivity|].
  cbn [orb].
  destruct (Str.endswith root "/"); [reflexivity|].
  now rewrite append_assoc.
Qed.

Lemma head_of_cases (root : string) :
  OsPath.head_of root = "" \/ exists h, OsPath.head_of root = h ++ "/".
Proof.
  unfold OsPath.head_of. destruct (String.eqb root ""); [now left|right].
  destruct (Str.endswith root "/") eqn:Hend.
  - now apply endswith_sep.
  - now exists root.
Qed.

Lemma after_last_sep_head (head file : string) :
  Str.contains "/" file = false ->
  head = "" \/ (exists h, head = h ++ "/") ->
  OsPath.after_last_sep (head ++ file) = String.length head.
Proof.
  intros Hfree [->|(h & ->)]; unfold OsPath.after_last_sep, OsPath.sep.
  - simpl. now rewrite (rfind_absent _ _ Hfree).
  - rewrite append_assoc. simpl.
    rewrite (rfind_last _ h _ Hfree), length_append. simpl. lia.
Qed.

Lemma basename_join2 (root file : string) :
  Str.contains "/" file = false ->
  OsPath.basename (OsPath.join2 root file) = file.
Proof.
  intros Hfree. rewrite (@join2_head root file Hfree). unfold OsPath.basename.
  rewrite (@after_last_sep_head _ _ Hfree (head_of_cases root)).
  apply slice_from_app.
Qed.

Lemma dirname_join2 (root file : string) :
  Str.contains "/" file = false ->
  OsPath.dirname (OsPath.join2 root file)
  = OsPath.dirname (OsPath.head_of root).
Proof.
  intros Hfree. rewrite (@join2_head root file Hfree). unfold OsPath.dirname.
  rewrite (@after_last_sep_head _ _ Hfree (head_of_cases root)).
  rewrite slice_to_app.
  assert (Hself : OsPath.after_last_sep (OsPath.head_of root)
                  = String.length (OsPath.head_of root)).
  { rewrite <- (append_nil_r (OsPath.head_of root)) at 1.
    apply after_last_sep_head; [reflexivity|apply head_of_cases]. }
  now rewrite Hself, slice_to_length.
Qed.

(** X11.  The artifacts of a run are named after the directory of the
    image, not after the image: two headers of one directory, processed
    by the batch cell, write to the same seven files. *)
Theorem artifacts_same_directory (root file1 file2 output : string)
        (Hfile1 : Str.contains "/" file1 = false)
        (Hfile2 : Str.contains "/" file2 = false) :
  artifacts (OsPath.join root [file1]) output
  = artifacts (OsPath.join root [file2]) output.
Proof.
  unfold artifacts, image_output_directory, parent_directory_name.
  cbn [OsPath.join fold_left].
  now rewrite (@dirname_join2 root file1 Hfile1),
              (@dirname_join2 root file2 Hfile2).
Qed.

Lemma artifacts_same_directory_witness :
  artifacts (OsPath.join "data/calibrated/003" ["003_calibrated.hdr"])
            "out"
  = artifacts (OsPath.join "data/calibrated/003" ["copy.hdr"]) "out".
Proof.
  apply artifacts_same_directory; reflexivity.
Defined.

Lemma dirname_head (a s : string) :
  s <> "" -> Str.contains "/" s = false ->
  OsPath.dirname ((a ++ s) ++ "/") = a ++ s.
Proof.
  intros Hs Hfree. unfold OsPath.dirname.
  assert (Hself : OsPath.after_last_sep ((a ++ s) ++ "/")
                  = String.length ((a ++ s) ++ "/")).
  { rewrite <- (append_nil_r ((a ++ s) ++ "/")) at 1.
    apply after_last_sep_head; [reflexivity|right; eauto]. }
  rewrite Hself, slice_to_length.
  assert (Hne : String.eqb ((a ++ s) ++ "/") "" = false).
  { destruct (String.eqb_spec ((a ++ s) ++ "/") "") as [H|]; auto.
    destruct (a ++ s); discriminate. }
  assert (Hseps : String.eqb ((a ++ s) ++ "/")
                    (Str.times OsPath.sep
                               (String.length ((a ++ s) ++ "/")))
                  = false).
  { destruct (String.eqb_spec
                ((a ++ s) ++ "/")
                (Str.times OsPath.sep (String.length ((a ++ s) ++ "/"))))
      as [H|]; auto.
    destruct s as [|x s]; [congruence|].
    rewrite contains_char_cons in Hfree.
    apply orb_false_iff in Hfree. destruct Hfree as [Hx _].
    assert (x = OsPath.sep).
    { apply (@times_all _ _ H a (s ++ "/") x).
      now rewrite append_assoc. }
    subst x. discriminate Hx. }
  rewrite Hne, Hseps. cbn [negb andb].
  now apply rstrip_sep.
Qed.

Lemma endswith_app_long (a b suffix : string) :
  String.length suffix <= String.length b ->
  Str.endswith (a ++ b) suffix = Str.endswith b suffix.
Proof.
  intros Hlen. induction a as [|x a IH]; [reflexivity|].
  change (String x a ++ b) with (String x (a ++ b)).
  cbn [Str.endswith]. rewrite IH.
  destruct (String.eqb_spec (String x (a ++ b)) suffix) as [H|];
    [|reflexivity].
  apply (f_equal String.length) in H. simpl in H.
  rewrite length_append in H. lia.
Qed.

(** X10.  The two notebooks fit together: the header that the
    calibrator saves for an image lies in a directory named after the
    image, so the extraction names its artifacts after the image; and of
    the two files of that directory, the header and its data file, the
    batch cell of the extraction processes the header alone. *)
Theorem file_path_parent (directory name : string)
        (Hname : name <> "")
        (Hfree : Str.contains "/" name = false) :
  parent_directory_name (file_path directory name) = name /\
  OsPath.basename (file_path directory name)
  = name ++ "_calibrated.hdr" /\
  Str.endswith (file_path directory name) ".hdr" = true /\
  image_paths
    [(OsPath.join (OsPath.join directory ["calibrated"]) [name],
      [name ++ "_calibrated.hdr"; name ++ "_calibrated.img"])]
  = [file_path directory name].
Proof.
  unfold file_path, parent_directory_name, image_paths.
  cbn [OsPath.join fold_left flat_map fst snd].
  set (calibrated_dir := OsPath.join2 directory "calibrated").
  assert (Hfile : Str.contains "/" (name ++ "_calibrated.hdr") = false)
    by (rewrite contains_char_app, Hfree; reflexivity).
  assert (Hdir : OsPath.join2 calibrated_dir name
                 = OsPath.head_of calibrated_dir ++ name)
    by now apply join2_head.
  assert (Hend : Str.endswith (OsPath.join2 calibrated_dir name) "/"
                 = false).
  { rewrite Hdir, endswith_sep_app by exact Hname.
    now apply endswith_sep_free. }
  assert (Hne : String.eqb (OsPath.join2 calibrated_dir name) ""
                = false).
  { rewrite Hdir.
    destruct (String.eqb_spec (OsPath.head_of calibrated_dir ++ name) "")
      as [H|]; auto.
    destruct (OsPath.head_of calibrated_dir); simpl in H;
      [congruence|discriminate]. }
  split; [|split; [|split]].
  - rewrite (@dirname_join2 _ _ Hfile).
    unfold OsPath.head_of at 1. rewrite Hne, Hend, Hdir.
    rewrite (dirname_head _ Hname Hfree), <- Hdir.
    now apply basename_join2.
  - now apply basename_join2.
  - rewrite (@join2_head _ _ Hfile).
    replace (name ++ "_calibrated.hdr")
      with ((name ++ "_calibrated") ++ ".hdr")
      by (now rewrite append_assoc).
    rewrite <- append_assoc. apply endswith_app.
  - cbn [filter].
    rewrite (@endswith_app_long name "_calibrated.hdr" ".hdr")
      by (simpl; lia).
    rewrite (@endswith_app_long name "_calibrated.img" ".hdr")
      by (simpl; lia).
    reflexivity.
Qed.

Lemma file_path_parent_witness :
  file_path "data" "003" = "data/calibrated/003/003_calibrated.hdr" /\
  parent_directory_name (file_path "data" "003") = "003" /\
  OsPath.basename (file_path "data" "003") = "003_calibrated.hdr" /\
  Str.endswith (file_path "data" "003") ".hdr" = true /\
  image_paths
    [(OsPath.join (OsPath.join "data" ["calibrated"]) ["003"],
      ["003_calibrated.hdr"; "003_calibrated.img"])]
  = [file_path "data" "003"].
Proof.
  split; [reflexivity|].
  apply (@file_path_parent "data" "003"); [discriminate|reflexivity].
Defined.

(** X8.  The name of the calibrated image is the name of the raw
    header without its [.hdr]; a header whose name before the extension
    consists of dots only keeps its whole name. *)
Theorem splitext_header (stem : string)
        (Hfree : Str.contains "/" stem = false) :
  OsPath.splitext (stem ++ ".hdr")
  = if OsPath.has_stem stem then (stem, ".hdr")
    else (stem ++ ".hdr", "").
Proof.
  unfold OsPath.splitext, OsPath.extsep.
  change (stem ++ ".hdr") with (stem ++ String "." "hdr").
  rewrite rfind_last by reflexivity.
  assert (Hsep : OsPath.after_last_sep (stem ++ String "." "hdr") = 0).
  { unfold OsPath.after_last_sep, OsPath.sep.
    rewrite rfind_absent; [reflexivity|].
    rewrite contains_char_app, Hfree. reflexivity. }
  rewrite Hsep, slice_to_app, slice_from_app. cbn [Nat.leb andb].
  reflexivity.
Qed.

Lemma splitext_header_witness :
  OsPath.splitext "003.hdr" = ("003", ".hdr") /\
  OsPath.splitext "..hdr" = ("..hdr", "").
Proof.
  split.
  - apply (@splitext_header "003"). reflexivity.
  - apply (@splitext_header "."). reflexivity.
Defined.

Lemma endswith_nonempty (s suffix : string) :
  suffix <> "" -> Str.endswith s suffix = true -> s <> "".
Proof.
  intros Hsuffix H ->. simpl in H. rewrite orb_false_r in H.
  destruct suffix; [congruence|discriminate].
Qed.

Lemma contains_nonempty (needle s : string) :
  needle <> "" -> Str.contains needle s = true -> s <> "".
Proof.
  intros Hneedle H ->. simpl in H. rewrite orb_false_r in H.
  destruct needle; [congruence|discriminate].
Qed.

Lemma truthy_nonempty (name : string) :
  name <> "" -> Str.truthy (Some name) = true.
Proof.
  intros H. unfold Str.truthy.
  now destruct (String.eqb_spec name "").
Qed.

Lemma find_exists {A} (p : A -> bool) (xs : list A) :
  (exists x, find p xs = Some x) <-> (exists x, In x xs /\ p x = true).
Proof.
  split.
  - intros (x & H). exists x. now apply find_some in H.
  - intros (x & Hin & Hp).
    destruct (find p xs) as [y|] eqn:Hfind; [eauto|].
    rewrite (find_none _ _ Hfind _ Hin) in Hp. discriminate.
Qed.

(** X7.  A directory of the walk is calibrated exactly when it holds
    a header that is not a reference, a file whose name holds WHITEREF and
    a file whose name holds DARKREF; any other directory is skipped.  The
    test of the three names for truth never fails on its own. *)
Theorem process_files_iff (directory root : string) (files : list string) :
  (exists c, process_files directory root files = Some c)
  <-> (exists f, In f files /\ Str.endswith f ".hdr" = true
                 /\ Str.contains "WHITEREF" f = false
                 /\ Str.contains "DARKREF" f = false)
      /\ (exists f, In f files /\ Str.contains "WHITEREF" f = true)
      /\ (exists f, In f files /\ Str.contains "DARKREF" f = true).
Proof.
  unfold process_files.
  pose proof (find_exists
                (fun f => Str.endswith f ".hdr"
                          && negb (Str.contains "WHITEREF" f)
                          && negb (Str.contains "DARKREF" f)) files)
    as Hraw.
  pose proof (find_exists (fun f => Str.contains "WHITEREF" f) files)
    as Hwhite.
  pose proof (find_exists (fun f => Str.contains "DARKREF" f) files)
    as Hdark.
  fold (raw_image_file files) in Hraw.
  fold (white_ref_file files) in Hwhite.
  fold (dark_ref_file files) in Hdark.
  destruct (raw_image_file files) as [raw|] eqn:Eraw.
  - destruct (white_ref_file files) as [white|] eqn:Ewhite.
    + destruct (dark_ref_file files) as [dark|] eqn:Edark.
      * apply find_some in Eraw, Ewhite, Edark.
        destruct Eraw as [Hin Hr]. cbn beta in Hr.
        apply andb_true_iff in Hr. destruct Hr as [Hr Hr3].
        apply andb_true_iff in Hr. destruct Hr as [Hr1 Hr2].
        apply negb_true_iff in Hr2, Hr3.
        destruct Ewhite as [Hinw Hw]. destruct Edark as [Hind Hd].
        rewrite !truthy_nonempty;
          [|eapply contains_nonempty; eauto; discriminate
           |eapply contains_nonempty; eauto; discriminate
           |eapply endswith_nonempty; eauto; discriminate].
        cbn [andb]. split; [intros _|eauto].
        split; [exists raw; auto|]. split; eauto.
      * split.
        -- intros (c & Hc). discriminate.
        -- intros (_ & _ & H). apply Hdark in H.
           destruct H. discriminate.
    + split.
      * intros (c & Hc). discriminate.
      * intros (_ & H & _). apply Hwhite in H.
        destruct H. discriminate.
  - split.
    + intros (c & Hc). discriminate.
    + intros (H & _). destruct Hraw as [_ Hraw].
      destruct Hraw as (x & Hx); [|discriminate].
      destruct H as (f & Hin & H1 & H2 & H3). exists f.
      split; [exact Hin|]. now rewrite H1, H2, H3.
Qed.

Lemma prefix_app_l (needle a b : string) :
  prefix needle a = true -> prefix needle (a ++ b) = true.
Proof.
  revert a. induction needle as [|m needle IH]; intros a H.
  - apply prefix_empty.
  - destruct a as [|x a]; [discriminate|].
    change (String x a ++ b) with (String x (a ++ b)).
    cbn [prefix] in *. destruct (ascii_dec m x); [auto|discriminate].
Qed.

Lemma contains_app_l (needle a b : string) :
  Str.contains needle a = true -> Str.contains needle (a ++ b) = true.
Proof.
  induction a as [|x a IH]; intros H.
  - simpl in H. rewrite orb_false_r in H.
    destruct needle; [|discriminate].
    destruct b; reflexivity.
  - change (String x a ++ b) with (String x (a ++ b)).
    cbn [Str.contains] in *. apply orb_true_iff in H.
    destruct H as [H|H].
    + pose proof (@prefix_app_l needle (String x a) b H) as Hp.
      change (String x a ++ b) with (String x (a ++ b)) in Hp.
      now rewrite Hp.
    + now rewrite (IH H), orb_true_r.
Qed.

Lemma prefix_app_cases (needle a b : string) :
  prefix needle (a ++ b) = true ->
  prefix needle a = true
  \/ exists c, In c (list_ascii_of_string needle)
               /\ In c (list_ascii_of_string b).
Proof.
  revert needle. induction a as [|x a IH]; intros needle H.
  - destruct needle as [|m needle]; [now left|right].
    destruct b as [|y b]; [discriminate|].
    simpl in H. cbn [prefix] in H.
    destruct (ascii_dec m y) as [->|]; [|discriminate].
    exists y. simpl. auto.
  - destruct needle as [|m needle]; [now left|].
    change (String x a ++ b) with (String x (a ++ b)) in H.
    cbn [prefix] in *.
    destruct (ascii_dec m x) as [->|]; [|discriminate].
    destruct (IH _ H) as [Hp|(c & Hc & Hb)]; [now left|right].
    exists c. simpl. auto.
Qed.

Lemma contains_first (m : ascii) (needle s : string) :
  Str.contains (String m needle) s = true ->
  In m (list_ascii_of_string s).
Proof.
  induction s as [|y s IH]; [discriminate|].
  cbn [Str.contains prefix]. intros H. apply orb_true_iff in H.
  destruct H as [H|H].
  - destruct (ascii_dec m y) as [->|]; [now left|discriminate].
  - right. auto.
Qed.

Lemma contains_app_cases (needle a b : string) :
  Str.contains needle (a ++ b) = true ->
  Str.contains needle a = true
  \/ exists c, In c (list_ascii_of_string needle)
               /\ In c (list_ascii_of_string b).
Proof.
  induction a as [|x a IH]; intros H.
  - destruct needle as [|m needle]; [now left|right].
    exists m. split; [now left|]. eapply contains_first; eauto.
  - change (String x a ++ b) with (String x (a ++ b)) in H.
    cbn [Str.contains] in *. apply orb_true_iff in H.
    destruct H as [H|H].
    + destruct (@prefix_app_cases needle (String x a) b H)
        as [Hp|Hc]; [left|now right].
      cbn [prefix] in Hp |- *. now rewrite Hp.
    + destruct (IH H) as [Hc|Hc]; [left|now right].
      now rewrite Hc, orb_true_r.
Qed.

(** Appending a suffix that shares no character with the needle adds no
    occurrence of it. *)
Lemma contains_app_disjoint (needle a b : string) :
  Str.contains needle a = false ->
  forallb (fun c => negb (existsb (Ascii.eqb c) (list_ascii_of_string b)))
          (list_ascii_of_string needle) = true ->
  Str.contains needle (a ++ b) = false.
Proof.
  intros Ha Hdisjoint.
  destruct (Str.contains needle (a ++ b)) eqn:H; [|reflexivity].
  destruct (contains_app_cases _ _ _ H) as [Hc|(c & Hn & Hb)];
    [congruence|].
  rewrite forallb_forall in Hdisjoint.
  apply Hdisjoint, negb_true_iff in Hn.
  assert (Hex : existsb (Ascii.eqb c) (list_ascii_of_string b) = true)
    by (apply existsb_exists; exists c; split;
        [exact Hb|apply Ascii.eqb_refl]).
  congruence.
Qed.

Lemma splitext_append (p : string) :
  fst (OsPath.splitext p) ++ snd (OsPath.splitext p) = p.
Proof.
  unfold OsPath.splitext.
  destruct (Str.rfind OsPath.extsep p) as [dotIndex|];
    [|apply append_nil_r].
  destruct (_ && _); [apply slice_app|apply append_nil_r].
Qed.

(** X9.  The calibrator does not calibrate its own output: the header
    it saves for an image is a header that is not a reference, and the
    folder that holds it and its data file holds no white reference, so a
    later walk over the calibrated folder skips it. *)
Theorem calibrated_folder_skipped (directory root folder : string)
        (files : list string) (c : calibration)
        (Hc : process_files directory root files = Some c) :
  let saved := [image_name c ++ "_calibrated.hdr";
                image_name c ++ "_calibrated.img"] in
  raw_image_file saved = Some (image_name c ++ "_calibrated.hdr") /\
  white_ref_file saved = None /\
  process_files directory folder saved = None /\
  process_directory directory [(folder, saved)] = [].
Proof.
  unfold process_files in Hc.
  destruct (raw_image_file files) as [raw|] eqn:Eraw; [|discriminate].
  destruct (white_ref_file files); [|discriminate].
  destruct (dark_ref_file files); [|discriminate].
  destruct (_ && _); [|discriminate].
  injection Hc as <-. cbn [image_name].
  apply find_some in Eraw. destruct Eraw as [_ Hr]. cbn beta in Hr.
  apply andb_true_iff in Hr. destruct Hr as [Hr Hr3].
  apply andb_true_iff in Hr. destruct Hr as [_ Hr2].
  apply negb_true_iff in Hr2, Hr3.
  set (name := fst (OsPath.splitext raw)).
  assert (Hname : forall marker,
             Str.contains marker raw = false ->
             Str.contains marker name = false).
  { intros marker Hraw.
    destruct (Str.contains marker name) eqn:H; [|reflexivity].
    apply contains_app_l with (b := snd (OsPath.splitext raw)) in H.
    unfold name in H. rewrite splitext_append in H. congruence. }
  assert (Hw1 : Str.contains "WHITEREF" (name ++ "_calibrated.hdr")
                = false)
    by (apply contains_app_disjoint; [now apply Hname|reflexivity]).
  assert (Hw2 : Str.contains "WHITEREF" (name ++ "_calibrated.img")
                = false)
    by (apply contains_app_disjoint; [now apply Hname|reflexivity]).
  assert (Hd1 : Str.contains "DARKREF" (name ++ "_calibrated.hdr")
                = false)
    by (apply contains_app_disjoint; [now apply Hname|reflexivity]).
  assert (Hend : Str.endswith (name ++ "_calibrated.hdr") ".hdr" = true).
  { replace (name ++ "_calibrated.hdr")
      with ((name ++ "_calibrated") ++ ".hdr")
      by (now rewrite append_assoc).
    apply endswith_app. }
  assert (Hwhite : white_ref_file [name ++ "_calibrated.hdr";
                                   name ++ "_calibrated.img"] = None)
    by (unfold white_ref_file; cbn [find]; now rewrite Hw1, Hw2).
  assert (Hskipped : process_files directory folder
                       [name ++ "_calibrated.hdr";
                        name ++ "_calibrated.img"] = None)
    by (unfold process_files; rewrite Hwhite;
        now destruct (raw_image_file _)).
  split; [|split; [|split]].
  - unfold raw_image_file. cbn [find]. now rewrite Hend, Hw1, Hd1.
  - exact Hwhite.
  - exact Hskipped.
  - unfold process_directory. cbn [flat_map fst snd].
    now rewrite Hskipped.
Qed.

(** The folder of the first sample of the repository. *)
Lemma calibrated_folder_skipped_witness :
  let files := ["003.hdr"; "003.raw"; "DARKREF_003.hdr";
                "DARKREF_003.raw"; "WHITEREF_003.hdr";
                "WHITEREF_003.raw"] in
  let saved := ["003_calibrated.hdr"; "003_calibrated.img"] in
  raw_image_file saved = Some "003_calibrated.hdr" /\
  white_ref_file saved = None /\
  process_files "data" "data/calibrated/003" saved = None /\
  process_directory "data" [("data/calibrated/003", saved)] = [].
Proof.
  intros files saved.
  destruct (process_files "data" "data/003" files) as [c|] eqn:Hc;
    [|vm_compute in Hc; discriminate].
  assert (Hname : image_name c = "003")
    by (vm_compute in Hc; injection Hc as <-; reflexivity).
  pose proof (@calibrated_folder_skipped "data" "data/003"
                "data/calibrated/003" files c Hc) as H.
  cbv zeta in H. rewrite Hname in H. exact H.
Defined.

End Strings.
(* ================================================================== *)
(** * Band selection: bounds and NaN wavelengths *)
(* ================================================================== *)

Lemma argmin_loop_bound (xs : list float) :
  forall (mp : float) (min_ind i : nat),
    min_ind < i -> argmin_loop mp min_ind i xs < i + length xs.
Proof.
  induction xs as [|x rest IH]; intros mp min_ind i Hlt; simpl; [lia|].
  destruct (negb (SFleb mp x)).
  - destruct (is_nan x); [lia|].
    specialize (IH x i (S i)). lia.
  - specialize (IH mp min_ind (S i)). lia.
Qed.

(** X12.  Band selection fails only on an empty wavelength list, with
    the [ValueError] of [np.argmin]; the band it returns otherwise is a
    position of the wavelength list, NaN wavelengths included. *)
Theorem nearest_band_in_range (wavelengths : list float) (target : float) :
  match nearest_band wavelengths target with
  | OK band => band < length wavelengths
  | Raise e => e = ValueError /\ wavelengths = []
  end.
Proof.
  unfold nearest_band, np_argmin.
  destruct wavelengths as [|w rest]; simpl; [auto|].
  destruct (is_nan (abs_difference target w)); [lia|].
  pose proof (@argmin_loop_bound (map (abs_difference target) rest)
                (abs_difference target w) 0 1) as H.
  rewrite length_map in H. lia.
Qed.

Lemma argmin_loop_nan (pre post : list float) :
  forall (mp : float) (min_ind i : nat),
    is_nan mp = false ->
    Forall (fun v => is_nan v = false) pre ->
    argmin_loop mp min_ind i (pre ++ S754_nan :: post) = i + length pre.
Proof.
  induction pre as [|x pre IH]; intros mp min_ind i Hmp Hpre; simpl.
  - destruct (SFleb mp S754_nan) eqn:Hle; simpl; [|lia].
    apply SFleb_not_nan in Hle. destruct Hle. discriminate.
  - inversion Hpre as [|? ? Hx Hrest]; subst.
    rewrite Hx.
    destruct (negb (SFleb mp x)); rewrite IH; auto; lia.
Qed.

(** X13.  A NaN among the wavelengths wins the selection: whatever the
    target, the band returned is the position of the first NaN, since
    [np.argmin] stops at the first NaN distance. *)
Theorem nearest_band_first_nan (wavelengths : list float)
        (target : float) (band : nat)
        (Htarget : is_finite target = true)
        (Hnan : nth_error wavelengths band = Some S754_nan)
        (Hfirst : forall j w, j < band -> nth_error wavelengths j = Some w ->
                              is_nan w = false) :
  nearest_band wavelengths target = OK band.
Proof.
  destruct (nth_error_split _ _ Hnan) as (pre & post & -> & Hlen).
  assert (Hpre : Forall (fun v => is_nan v = false)
                        (map (abs_difference target) pre)).
  { rewrite Forall_forall. intros d Hd.
    apply in_map_iff in Hd. destruct Hd as (w & <- & Hw).
    apply abs_difference_not_nan; auto.
    destruct (In_nth_error _ _ Hw) as (j & Hj).
    apply (Hfirst j).
    - rewrite <- Hlen. apply nth_error_Some. congruence.
    - rewrite nth_error_app1; auto. apply nth_error_Some. congruence. }
  unfold nearest_band. rewrite map_app. simpl map.
  change (abs_difference target S754_nan) with S754_nan.
  destruct pre as [|w pre]; simpl in *.
  - now subst band.
  - inversion Hpre as [|? ? Hw Hrest]; subst.
    rewrite Hw, argmin_loop_nan by auto.
    now rewrite length_map.
Qed.

(** A header whose second wavelength is not a number: band 1 is selected
    for 676 nm, although band 2 is at 676 nm. *)
Lemma nearest_band_first_nan_witness :
  nearest_band [F64.of_Z 675; S754_nan; F64.of_Z 676] nm_676 = OK 1.
Proof.
  apply (@nearest_band_first_nan
           [F64.of_Z 675; S754_nan; F64.of_Z 676] nm_676 1).
  - reflexivity.
  - reflexivity.
  - intros [|[|j]] w Hj Hw; try lia.
    simpl in Hw. now injection Hw as <-.
Defined.

(* ================================================================== *)
(** * The mask and the table of spectra *)
(* ================================================================== *)

(** X14.  Raising the threshold never adds a pixel to the mask: for
    thresholds [t1 <= t2], every pixel inside the mask at [t2] is inside
    the mask at [t1]. *)
Theorem band_ratio_mask_antitone (img : cube float)
        (wavelengths : list float) (t1 t2 : float)
        (m1 m2 : list (list bool)) (x y : nat)
        (Hle : SFleb t1 t2 = true)
        (H1 : band_ratio_mask img wavelengths t1 = OK m1)
        (H2 : band_ratio_mask img wavelengths t2 = OK m2)
        (Hin : plane_get m2 x y = Some true) :
  plane_get m1 x y = Some true.
Proof.
  unfold band_ratio_mask in *.
  destruct (nearest_band wavelengths nm_751) as [b1|]; [|discriminate].
  destruct (nearest_band wavelengths nm_676) as [b2|]; [|discriminate].
  simpl in *.
  destruct (ratio_image img b1 b2) as [ratio|]; [|discriminate].
  simpl in *. injection H1 as <-. injection H2 as <-.
  unfold plane_get, greater in *.
  rewrite nth_error_map in *.
  destruct (nth_error ratio x) as [row|]; [|discriminate].
  simpl in *. rewrite nth_error_map in *.
  destruct (nth_error row y) as [r|]; [|discriminate].
  simpl in *. injection Hin as Hin.
  now rewrite (SFleb_ltb_trans _ _ _ Hle Hin).
Qed.

(** The six pixels at the thresholds 1.5 and 3: the pixel of ratio 4 is
    inside both masks. *)
Lemma band_ratio_mask_antitone_witness :
  band_ratio_mask six_pixels sensor_wavelengths default_threshold
  = OK [[true; false; true]; [false; true; true]] /\
  band_ratio_mask six_pixels sensor_wavelengths (F32.of_Z 3)
  = OK [[false; false; true]; [false; true; false]] /\
  plane_get [[true; false; true]; [false; true; true]] 0 2 = Some true.
Proof.
  split; [reflexivity|]. split; [reflexivity|].
  apply (@band_ratio_mask_antitone six_pixels sensor_wavelengths
           default_threshold (F32.of_Z 3)
           [[true; false; true]; [false; true; true]]
           [[false; false; true]; [false; true; false]] 0 2);
    reflexivity.
Defined.

Lemma nonzero_from (row : list bool) :
  forall start,
    map fst (filter snd (combine (seq start (length row)) row))
    = map (fun y => start + y) (nonzero row).
Proof.
  unfold nonzero, enumerate.
  induction row as [|b row IH]; intros start; [reflexivity|].
  destruct b; simpl; rewrite (IH (S start)), (IH 1), !map_map;
    rewrite ?Nat.add_0_r; [apply f_equal|]; apply map_ext; intros;
    simpl; lia.
Qed.

Lemma nonzero_cons (b : bool) (row : list bool) :
  nonzero (b :: row)
  = (if b then [0] else []) ++ map S (nonzero row).
Proof.
  unfold nonzero at 1, enumerate.
  destruct b; simpl; now rewrite (nonzero_from row 1).
Qed.

Lemma nonzero_spec (row : list bool) (y : nat) :
  In y (nonzero row) <-> nth_error row y = Some true.
Proof.
  revert y. induction row as [|b row IH]; intros y.
  - destruct y; simpl; split; (contradiction || discriminate).
  - rewrite nonzero_cons, in_app_iff, in_map_iff.
    destruct y as [|y]; simpl.
    + split.
      * intros [H|(z & Hz & _)]; [|discriminate].
        destruct b; [reflexivity|contradiction].
      * intros H. injection H as ->. left. now left.
    + rewrite <- IH. split.
      * intros [H|(z & Hz & Hin)].
        -- destruct b; simpl in H; [|contradiction].
           destruct H as [H|[]]; discriminate.
        -- now injection Hz as <-.
      * intros H. right. eauto.
Qed.

Lemma nonzero_length (row : list bool) :
  length (nonzero row) = length (filter (fun b : bool => b) row).
Proof.
  induction row as [|b row IH]; [reflexivity|].
  rewrite nonzero_cons, length_app, length_map, IH.
  destruct b; reflexivity.
Qed.

Lemma nonzero_sorted (row : list bool) :
  StronglySorted lt (nonzero row).
Proof.
  induction row as [|b row IH]; [constructor|].
  rewrite nonzero_cons.
  assert (Hs : StronglySorted lt (map S (nonzero row))).
  { clear - IH. induction IH as [|y ys Hys IHs Hall]; simpl; constructor.
    - exact IHs.
    - rewrite Forall_forall in *. intros z Hz.
      apply in_map_iff in Hz. destruct Hz as (u & <- & Hu).
      apply Hall in Hu. lia. }
  destruct b; simpl; [|exact Hs].
  constructor; [exact Hs|].
  rewrite Forall_forall. intros z Hz.
  apply in_map_iff in Hz. destruct Hz as (u & <- & _). lia.
Qed.

Lemma argwhere_from (mask : list (list bool)) :
  forall start,
    flat_map (fun p => map (fun y => (fst p, y)) (nonzero (snd p)))
             (combine (seq start (length mask)) mask)
    = map (fun p => (start + fst p, snd p)) (argwhere mask).
Proof.
  unfold argwhere, enumerate.
  induction mask as [|row mask IH]; intros start; simpl; [reflexivity|].
  rewrite (IH (S start)), (IH 1), map_app, !map_map.
  f_equal.
  - apply map_ext. intros y. simpl. f_equal. lia.
  - apply map_ext. intros [x y]. simpl. f_equal. lia.
Qed.

Lemma argwhere_cons (row : list bool) (mask : list (list bool)) :
  argwhere (row :: mask)
  = map (fun y => (0, y)) (nonzero row)
    ++ map (fun p => (S (fst p), snd p)) (argwhere mask).
Proof.
  unfold argwhere at 1, enumerate. simpl.
  now rewrite (argwhere_from mask 1).
Qed.

Lemma argwhere_spec (mask : list (list bool)) (x y : nat) :
  In (x, y) (argwhere mask) <-> plane_get mask x y = Some true.
Proof.
  revert x. induction mask as [|row mask IH]; intros x.
  - unfold plane_get. destruct x; simpl; split;
      (contradiction || discriminate).
  - rewrite argwhere_cons, in_app_iff, !in_map_iff.
    destruct x as [|x]; unfold plane_get; simpl.
    + rewrite <- nonzero_spec. split.
      * intros [(z & Hz & Hin)|([u v] & Hz & _)]; [|discriminate].
        now injection Hz as <-.
      * intros H. left. eauto.
    + fold (plane_get mask x y). rewrite <- IH. split.
      * intros [(z & Hz & _)|([u v] & Hz & Hin)]; [discriminate|].
        simpl in Hz. now injection Hz as <- <-.
      * intros H. right. exists (x, y). auto.
Qed.

Lemma argwhere_length (mask : list (list bool)) :
  length (argwhere mask) = count_nonzero mask.
Proof.
  unfold count_nonzero.
  induction mask as [|row mask IH]; [reflexivity|].
  rewrite argwhere_cons, length_app, !length_map, IH, nonzero_length.
  reflexivity.
Qed.

Lemma argwhere_sorted (mask : list (list bool)) :
  StronglySorted row_major (argwhere mask).
Proof.
  induction mask as [|row mask IH]; [constructor|].
  rewrite argwhere_cons.
  assert (Hrest : StronglySorted row_major
                    (map (fun p => (S (fst p), snd p)) (argwhere mask))).
  { clear - IH. induction IH as [|p ps Hps IHs Hall]; simpl; constructor.
    - exact IHs.
    - rewrite Forall_forall in *. intros q Hq.
      apply in_map_iff in Hq. destruct Hq as (u & <- & Hu).
      apply Hall in Hu. unfold row_major in *. simpl. lia. }
  pose proof (nonzero_sorted row) as Hrow.
  induction Hrow as [|y ys Hys IHs Hall]; simpl; [exact Hrest|].
  constructor; [exact IHs|].
  rewrite Forall_forall in *. intros q Hq.
  apply in_app_iff in Hq. unfold row_major.
  destruct Hq as [Hq|Hq]; apply in_map_iff in Hq.
  - destruct Hq as (z & <- & Hz). apply Hall in Hz. simpl. lia.
  - destruct Hq as (u & <- & _). simpl. lia.
Qed.

(** What the statements from the mask to the DataFrame have computed
    when they succeed. *)
Lemma spectral_table_inv (img : cube float) (wavelengths : list float)
      (threshold : float) (mask : list (list bool)) (df : table) :
  spectral_table img wavelengths threshold = OK (mask, df) ->
  band_ratio_mask img wavelengths threshold = OK mask /\
  Forall2 (fun idx row => read_pixel img idx = OK row) (argwhere mask) df /\
  length df = count_nonzero mask /\
  0 < length df.
Proof.
  intros Htable. unfold spectral_table in Htable.
  destruct (band_ratio_mask img wavelengths threshold) as [m|];
    [|discriminate].
  simpl in Htable.
  destruct (imshow img) as [[]|]; [|discriminate]. simpl in Htable.
  destruct (mapM (read_pixel img) (argwhere m)) as [rows|] eqn:Hrows;
    [|discriminate].
  simpl in Htable. unfold reshape_rows in Htable.
  destruct (Nat.eqb_spec (length rows) 0) as [|Hpos]; [discriminate|].
  simpl in Htable. unfold DataFrame in Htable.
  destruct (forallb _ rows); [|discriminate].
  injection Htable as <- <-.
  apply mapM_Forall2 in Hrows.
  split; [reflexivity|]. split; [exact Hrows|].
  split; [|lia].
  now rewrite <- (Forall2_length Hrows), argwhere_length.
Qed.

(** X15.  The table of spectra has one row per pixel of the mask: the
    pixels read are exactly the positions where the mask is true, each
    once and in row-major order, and row [n] of the table is the spectrum
    [img[x, y, :]] of the [n]-th of them. *)
Theorem spectral_table_rows (img : cube float) (wavelengths : list float)
        (threshold : float) (mask : list (list bool)) (df : table)
        (Htable : spectral_table img wavelengths threshold
                  = OK (mask, df)) :
  band_ratio_mask img wavelengths threshold = OK mask /\
  (forall x y, In (x, y) (argwhere mask)
               <-> plane_get mask x y = Some true) /\
  StronglySorted row_major (argwhere mask) /\
  Forall2 (fun idx row => read_pixel img idx = OK row) (argwhere mask) df /\
  length df = count_nonzero mask /\
  0 < length df.
Proof.
  destruct (@spectral_table_inv img wavelengths threshold mask df Htable)
    as (Hmask & Hrows & Hlen & Hpos).
  split; [exact Hmask|]. split; [apply argwhere_spec|].
  split; [apply argwhere_sorted|]. auto.
Qed.

(** The six pixels: four of them are inside the mask. *)
Lemma spectral_table_rows_witness :
  let mask := [[true; false; true]; [false; true; true]] in
  let df := [spectrum quarter quarter half;
             spectrum quarter quarter F32.one;
             spectrum quarter F32.zero half;
             spectrum quarter quarter half] in
  argwhere mask = [(0, 0); (0, 2); (1, 1); (1, 2)] /\
  band_ratio_mask six_pixels sensor_wavelengths default_threshold
  = OK mask /\
  (forall x y, In (x, y) (argwhere mask)
               <-> plane_get mask x y = Some true) /\
  StronglySorted row_major (argwhere mask) /\
  Forall2 (fun idx row => read_pixel six_pixels idx = OK row)
          (argwhere mask) df /\
  length df = count_nonzero mask /\
  0 < length df.
Proof.
  intros mask df. split; [reflexivity|].
  apply (@spectral_table_rows six_pixels sensor_wavelengths
           default_threshold mask df).
  reflexivity.
Defined.

(* ================================================================== *)
(** * The renders and the quality filter at the edges *)
(* ================================================================== *)

Lemma mapM_raises_uniform {A B} (f : A -> result B) (xs : list A)
      (e : exn) :
  (forall x e', In x xs -> f x = Raise e' -> e' = e) ->
  (exists x e', In x xs /\ f x = Raise e') ->
  mapM f xs = Raise e.
Proof.
  induction xs as [|x xs IH]; intros Hall (y & e' & Hin & Hy);
    [contradiction|].
  simpl. destruct (f x) as [b|e0] eqn:Hx; simpl.
  - rewrite IH; [reflexivity| |].
    + intros z e1 Hz. apply Hall. now right.
    + destruct Hin as [->|Hin]; [congruence|eauto].
  - f_equal. apply (Hall x); auto. now left.
Qed.

Lemma read_band_raises (img : cube float) (band x y : nat)
      (px : list float) :
  read_pixel img (x, y) = OK px -> length px <= band ->
  read_band img band = Raise IndexError.
Proof.
  unfold read_pixel, read_band. simpl. intros Hpx Hlen.
  destruct (nth_error img x) as [row|] eqn:Hrow; [|discriminate].
  destruct (nth_error row y) as [px'|] eqn:Hy; [|discriminate].
  injection Hpx as ->.
  assert (Hpixel : forall (p : list float) e,
             match nth_error p band with
             | Some v => OK v
             | None => Raise IndexError
             end = Raise e -> e = IndexError)
    by (intros p e; destruct (nth_error p band); congruence).
  apply mapM_raises_uniform.
  - intros r e _ Hr. apply mapM_raises in Hr.
    destruct Hr as (p & _ & Hp). now apply Hpixel in Hp.
  - exists row, IndexError. split; [eapply nth_error_In; eauto|].
    apply mapM_raises_uniform.
    + intros p e _. apply Hpixel.
    + exists px, IndexError. split; [eapply nth_error_In; eauto|].
      now rewrite (proj2 (nth_error_None px band) Hlen).
Qed.

Section Renders.

Variable G : RandomState.

(** X16.  The renders read the bands 86, 52 and 18 whatever the
    sensor: when the mask of an image is computed and one of its pixels
    has fewer than 87 bands, the run raises [IndexError] at the first
    render, before any spectrum is read, and leaves the generator
    untouched. *)
Theorem process_image_display_bands (img : cube float)
        (wavelengths : list float) (requested : option nat)
        (threshold q : float) (g : rng G) (mask : list (list bool))
        (x y : nat) (px : list float)
        (Hmask : band_ratio_mask img wavelengths threshold = OK mask)
        (Hpx : read_pixel img (x, y) = OK px)
        (Hbands : length px < 87) :
  imshow img = Raise IndexError /\
  process_image G img wavelengths requested threshold q g
  = (Raise IndexError, g).
Proof.
  assert (Himshow : imshow img = Raise IndexError).
  { unfold imshow, display_bands. cbn [mapM].
    rewrite (@read_band_raises img 86 x y px Hpx); [reflexivity|lia]. }
  split; [exact Himshow|].
  unfold process_image, bind, lift, spectral_table.
  now rewrite Hmask, Himshow.
Qed.

End Renders.

(** A sensor of two bands at 676 nm and 751 nm: the mask is computed,
    the render fails. *)
Lemma process_image_display_bands_witness :
  let img := [[[quarter; half]]] in
  let wavelengths := [F64.of_Z 676; F64.of_Z 751] in
  band_ratio_mask img wavelengths default_threshold = OK [[true]] /\
  imshow img = Raise IndexError /\
  process_image congruential img wavelengths (Some 20) default_threshold
                default_quality_filter_threshold 7
  = (Raise IndexError, 7).
Proof.
  intros img wavelengths. split; [reflexivity|].
  apply (@process_image_display_bands congruential img wavelengths
           (Some 20) default_threshold default_quality_filter_threshold 7
           [[true]] 0 0 [quarter; half]).
  - reflexivity.
  - reflexivity.
  - simpl. lia.
Defined.

(** X17.  The quality filter keeps no spectrum without a number: every
    row it keeps holds at least one value that is not NaN, and a NaN
    threshold keeps no row at all. *)
Theorem quality_filter_numbers (threshold : float) (df : table)
        (row : list float)
        (Hkept : In row (quality_filter threshold df)) :
  In row df /\
  is_nan threshold = false /\
  exists v, In v row /\ is_nan v = false.
Proof.
  unfold quality_filter in Hkept. apply filter_In in Hkept.
  destruct Hkept as [Hin Hle]. split; [exact Hin|].
  apply SFleb_not_nan in Hle. destruct Hle as [Ht Hmean].
  split; [exact Ht|].
  unfold nanmean in Hmean.
  destruct (filter (fun x => negb (is_nan x)) row) as [|v rest] eqn:Hf;
    [discriminate|].
  assert (Hv : In v (filter (fun x => negb (is_nan x)) row))
    by (rewrite Hf; now left).
  apply filter_In in Hv. destruct Hv as [Hv Hnan].
  exists v. split; [exact Hv|]. now apply negb_true_iff.
Qed.

(** Of a spectrum of ones and a spectrum of NaN the filter keeps the
    first. *)
Lemma quality_filter_numbers_witness :
  let df := [[F32.one; S754_nan]; [S754_nan; S754_nan]] in
  quality_filter default_quality_filter_threshold df
  = [[F32.one; S754_nan]] /\
  In [F32.one; S754_nan] df /\
  is_nan default_quality_filter_threshold = false /\
  exists v, In v [F32.one; S754_nan] /\ is_nan v = false.
Proof.
  intros df. split; [reflexivity|].
  apply (@quality_filter_numbers default_quality_filter_threshold df).
  left. reflexivity.
Defined.

(* ================================================================== *)
(** * The tables of a completed run *)
(* ================================================================== *)

Lemma map_nth_seq {A} (rows : list A) (d : A) :
  map (fun i => nth i rows d) (seq 0 (length rows)) = rows.
Proof.
  induction rows as [|row rows IH]; [reflexivity|].
  simpl. f_equal. rewrite <- seq_shift, map_map. exact IH.
Qed.


(** Taking the rows at a permutation of their positions rearranges the
    table. *)
Lemma take_permutation (rows : table) (p : list nat) :
  Permutation p (seq 0 (length rows)) -> Permutation (take rows p) rows.
Proof.
  intros Hp. unfold take.
  apply Permutation_trans
    with (map (fun i => nth i rows []) (seq 0 (length rows))).
  - now apply Permutation_map.
  - now rewrite map_nth_seq.
Qed.

Lemma firstn_add {A} (a b : nat) (l : list A) :
  a <= length l ->
  firstn (a + b) l = firstn a l ++ firstn b (skipn a l).
Proof.
  intros Ha. rewrite <- (firstn_skipn a l) at 1.
  rewrite <- (firstn_length_le l Ha) at 1.
  apply firstn_app_2.
Qed.

(** Consecutive blocks of [size] rows: together they are the first
    [k * size] rows. *)
Lemma iloc_blocks (size k : nat) (rows : table) :
  k * size <= length rows ->
  let blocks := map (fun i => iloc rows (i * size) ((i + 1) * size))
                    (seq 0 k) in
  concat blocks = firstn (k * size) rows /\
  Forall (fun block => length block = size) blocks.
Proof.
  unfold iloc. induction k as [|k IH]; intros Hk; [split; constructor|].
  destruct IH as [IHc IHl]; [lia|].
  rewrite seq_S, map_app, concat_app, IHc. simpl.
  replace ((k + 1) * size - k * size) with size by lia.
  split.
  - rewrite app_nil_r.
    replace (size + k * size) with (k * size + size) by lia.
    symmetry. apply firstn_add. lia.
  - apply Forall_app. split; [exact IHl|].
    constructor; [|constructor].
    rewrite length_firstn, length_skipn. lia.
Qed.

Section RunStructure.

Variable G : RandomState.

Lemma choice_all (g : rng G) (n : nat) :
  choice G g n n = (OK (fst (permutation G g n)), snd (permutation G g n)).
Proof.
  unfold choice. rewrite Nat.ltb_irrefl.
  pose proof (permutation_spec G g n) as Hp.
  destruct (permutation G g n) as [p g']. simpl in *.
  apply Permutation_length in Hp. rewrite length_seq in Hp.
  now rewrite <- Hp, firstn_all.
Qed.

(** What a completed run has computed, statement by statement. *)
Lemma process_image_inv (img : cube float) (wavelengths : list float)
      (requested : option nat) (threshold q : float) (g g' : rng G)
      (out : extraction) :
  process_image G img wavelengths requested threshold q g = (OK out, g') ->
  let rows := length (filtered_df out) in
  let size := group_size out in
  let shuffle := fst (permutation G (seed G 42) rows) in
  let groups := length (averaged_df_shuffled out) in
  let draw := fst (permutation G (seed G 42) groups) in
  spectral_table img wavelengths threshold = OK (mask out, df out) /\
  filtered_df out = quality_filter q (df out) /\
  size = match requested with
         | None => rows
         | Some n => n
         end /\
  size <> 0 /\
  averaged_df_shuffled out
  = map (fun i => mean_axis0 (length wavelengths)
                    (iloc (take (filtered_df out) shuffle)
                          (i * size) ((i + 1) * size)))
        (seq 0 (rows / size)) /\
  count_3_percent groups = OK (top_3_percent_count out) /\
  top_3_percent_count out <= groups /\
  top_3_percent_df out
  = take (averaged_df_shuffled out)
         (firstn (top_3_percent_count out) draw) /\
  g' = snd (permutation G (seed G 42) rows).
Proof.
  intros Hrun. unfold process_image, bind, lift in Hrun.
  destruct (spectral_table img wavelengths threshold) as [[m d]|e];
    [|discriminate].
  unfold group_and_sample, bind, lift, np_random_seed, ret in Hrun.
  simpl fst in Hrun. simpl snd in Hrun.
  set (filtered := quality_filter q d) in *.
  set (gs := match requested with
             | None => length filtered
             | Some n => n
             end) in *.
  unfold floordiv in Hrun.
  destruct (Nat.eqb_spec gs 0) as [Hz|Hnz]; [discriminate|].
  unfold sample_frac_1 in Hrun. rewrite choice_all in Hrun.
  set (averaged := map _ (seq 0 (length filtered / gs))) in *.
  destruct (count_3_percent (length averaged)) as [count|e] eqn:Hcount;
    [|discriminate].
  unfold sample_n, choice in Hrun.
  destruct (Nat.ltb_spec (length averaged) count) as [Hlt|Hge];
    [discriminate|].
  destruct (permutation G (seed G 42) (length averaged)) as [p2 g2] eqn:Hp2.
  injection Hrun as <- <-. simpl. rewrite Hp2.
  repeat split; auto.
Qed.

(** X26.  The check that the report makes is always passed: in every
    completed run the table has as many rows as the mask has pixels, and
    the second line of the report says that the two numbers are the
    same. *)
Theorem report_mask_rows (img : cube float) (wavelengths : list float)
        (requested : option nat) (threshold q : float) (g g' : rng G)
        (out : extraction)
        (Hrun : process_image G img wavelengths requested threshold q g
                = (OK out, g')) :
  count_nonzero (mask out) = length (df out) /\
  nth_error (report out) 1
  = Some ("Number of pixels in mask and number of rows in df are the same."
            ++ newline)%string.
Proof.
  destruct (process_image_inv _ _ _ _ _ _ Hrun) as (Htable & _).
  apply spectral_table_inv in Htable.
  destruct Htable as (_ & _ & Hlen & _).
  split; [now rewrite Hlen|].
  unfold report. cbn [nth_error]. now rewrite <- Hlen, Nat.eqb_refl.
Qed.

(** X18.  The shuffle loses no row and repeats none: the shuffled table
    is a rearrangement of the filtered one, whatever the generator. *)
Theorem sample_frac_1_permutation (rows : table) (g : rng G) :
  exists shuffled g',
    sample_frac_1 G rows g = (OK shuffled, g') /\
    Permutation shuffled rows.
Proof.
  unfold sample_frac_1. rewrite choice_all.
  do 2 eexists. split; [reflexivity|].
  apply take_permutation, permutation_spec.
Qed.

(** X19.  The groups of a completed run are disjoint blocks of exactly
    [group_size] filtered rows: some rearrangement of the filtered table
    is the concatenation of the groups followed by fewer than
    [group_size] rows that enter no group, and every row of the grouped
    table is the column mean of one group. *)
Theorem process_image_groups (img : cube float) (wavelengths : list float)
        (requested : option nat) (threshold q : float) (g g' : rng G)
        (out : extraction)
        (Hrun : process_image G img wavelengths requested threshold q g
                = (OK out, g')) :
  exists blocks rest,
    Permutation (concat blocks ++ rest) (filtered_df out) /\
    Forall (fun block => length block = group_size out) blocks /\
    length rest = length (filtered_df out) mod group_size out /\
    length rest < group_size out /\
    averaged_df_shuffled out
    = map (mean_axis0 (length wavelengths)) blocks.
Proof.
  destruct (process_image_inv _ _ _ _ _ _ Hrun)
    as (_ & _ & _ & Hsize & Haveraged & _).
  set (rows := length (filtered_df out)) in *.
  set (size := group_size out) in *.
  set (shuffled := take (filtered_df out)
                        (fst (permutation G (seed G 42) rows))) in *.
  assert (Hperm : Permutation shuffled (filtered_df out))
    by apply take_permutation, permutation_spec.
  assert (Hlen : length shuffled = rows)
    by now apply Permutation_length.
  assert (Hdiv : rows = size * (rows / size) + rows mod size)
    by now apply Nat.div_mod.
  assert (Hmod : rows mod size < size) by now apply Nat.mod_upper_bound.
  destruct (@iloc_blocks size (rows / size) shuffled) as [Hconcat Hblocks];
    [lia|].
  exists (map (fun i => iloc shuffled (i * size) ((i + 1) * size))
              (seq 0 (rows / size))),
         (skipn (rows / size * size) shuffled).
  split; [|split; [|split; [|split]]].
  - now rewrite Hconcat, firstn_skipn.
  - exact Hblocks.
  - rewrite length_skipn. lia.
  - rewrite length_skipn. lia.
  - now rewrite Haveraged, map_map.
Qed.


(** X21.  Fewer than 34 groups leave nothing to export: the subsample
    of a completed run is empty exactly when the grouped table has fewer
    than 34 rows, that is, when fewer than [34 * group_size] rows passed
    the quality filter. *)
Theorem process_image_subsample_empty (img : cube float)
        (wavelengths : list float) (requested : option nat)
        (threshold q : float) (g g' : rng G) (out : extraction)
        (Hrun : process_image G img wavelengths requested threshold q g
                = (OK out, g'))
        (Hsmall : (Z.of_nat (length (averaged_df_shuffled out))
                   < 2 ^ 51)%Z) :
  (top_3_percent_df out = []
   <-> length (averaged_df_shuffled out) < 34) /\
  (length (averaged_df_shuffled out) < 34
   <-> length (filtered_df out) < 34 * group_size out).
Proof.
  destruct (process_image_inv _ _ _ _ _ _ Hrun)
    as (_ & _ & _ & Hsize & Haveraged & Hcount & Hle & Htop & _).
  set (groups := length (averaged_df_shuffled out)) in *.
  rewrite (count_3_percent_floor _ Hsmall) in Hcount.
  assert (Hc : top_3_percent_count out = groups * 3 / 100)
    by congruence.
  clear Hcount.
  assert (Hlen : length (top_3_percent_df out) = groups * 3 / 100).
  { rewrite Htop. unfold take. rewrite length_map, length_firstn.
    pose proof (permutation_spec G (seed G 42) groups) as Hp.
    apply Permutation_length in Hp. rewrite length_seq in Hp.
    rewrite Hp, <- Hc. lia. }
  assert (Hzero : groups * 3 / 100 = 0 <-> groups < 34).
  { split; intros H.
    - apply Nat.div_small_iff in H; lia.
    - apply Nat.div_small. lia. }
  split.
  - rewrite <- Hzero, <- Hlen. split; intros H.
    + now rewrite H.
    + now apply length_zero_iff_nil.
  - assert (Hgroups : groups
                      = length (filtered_df out) / group_size out).
    { unfold groups. rewrite Haveraged.
      now rewrite length_map, length_seq. }
    rewrite Hgroups.
    pose proof (Nat.div_mod (length (filtered_df out)) _ Hsize) as Hdiv.
    pose proof (Nat.mod_upper_bound (length (filtered_df out)) _ Hsize)
      as Hmod.
    split; intros H.
    + nia.
    + apply Nat.Div0.div_lt_upper_bound. lia.
Qed.

(** X22.  With the default [group_size=None], a completed run puts all
    filtered rows into one group and exports nothing: the grouped table
    has exactly one row and the subsample is empty. *)
Theorem process_image_default_group_size (img : cube float)
        (wavelengths : list float) (threshold q : float) (g g' : rng G)
        (out : extraction)
        (Hrun : process_image G img wavelengths None threshold q g
                = (OK out, g')) :
  group_size out = length (filtered_df out) /\
  length (averaged_df_shuffled out) = 1 /\
  top_3_percent_count out = 0 /\
  top_3_percent_df out = [].
Proof.
  destruct (process_image_inv _ _ _ _ _ _ Hrun)
    as (_ & _ & Hdefault & Hsize & Haveraged & Hcount & _ & Htop & _).
  assert (Hone : length (averaged_df_shuffled out) = 1).
  { rewrite Haveraged, length_map, length_seq, Hdefault.
    apply Nat.div_same. now rewrite <- Hdefault. }
  rewrite Hone in Hcount.
  assert (Hzero : top_3_percent_count out = 0)
    by (vm_compute in Hcount; now injection Hcount).
  repeat split; auto.
  now rewrite Htop, Hzero.
Qed.

(** X23.  Every row of every table of a completed run holds one value
    per wavelength: the spectra under the mask, of which there is at
    least one, the filtered rows, the means of the groups and the
    subsample.  A table is the list of its rows here: of a table
    without rows, as the means are when the group size exceeds the
    number of filtered rows, this says nothing, and the columns that
    pandas gives to such a table are not modelled. *)
Theorem process_image_row_lengths (img : cube float)
        (wavelengths : list float) (requested : option nat)
        (threshold q : float) (g g' : rng G) (out : extraction)
        (Hrun : process_image G img wavelengths requested threshold q g
                = (OK out, g')) :
  let columns := fun row : list float => length row = length wavelengths in
  0 < length (df out) /\
  Forall columns (df out) /\
  Forall columns (filtered_df out) /\
  Forall columns (averaged_df_shuffled out) /\
  Forall columns (top_3_percent_df out).
Proof.
  intros columns.
  destruct (process_image_inv _ _ _ _ _ _ Hrun)
    as (Htable & Hfiltered & _ & _ & Haveraged & _ & _ & Htop & _).
  split; [apply (spectral_table_inv _ _ _ Htable)|].
  assert (Hdf : Forall columns (df out)).
  { unfold spectral_table in Htable.
    destruct (band_ratio_mask img wavelengths threshold) as [m|];
      [|discriminate].
    simpl in Htable. destruct (imshow img); [|discriminate].
    simpl in Htable.
    destruct (mapM (read_pixel img) _) as [rows|]; [|discriminate].
    simpl in Htable.
    destruct (reshape_rows rows) as [spectra|]; [|discriminate].
    simpl in Htable. unfold DataFrame in Htable.
    destruct (forallb _ spectra) eqn:Hall; [|discriminate].
    injection Htable as _ <-.
    rewrite forallb_forall in Hall. rewrite Forall_forall.
    intros row Hrow. now apply Nat.eqb_eq, Hall. }
  assert (Haveraged' : Forall columns (averaged_df_shuffled out)).
  { rewrite Haveraged, Forall_forall. intros row Hrow.
    apply in_map_iff in Hrow. destruct Hrow as (i & <- & _).
    unfold columns, mean_axis0. now rewrite length_map, length_seq. }
  repeat split; auto.
  - rewrite Hfiltered. unfold quality_filter.
    rewrite Forall_forall in *. intros row Hrow.
    apply filter_In in Hrow. now apply Hdf.
  - rewrite Htop. rewrite Forall_forall in *. intros row Hrow.
    unfold take in Hrow. apply in_map_iff in Hrow.
    destruct Hrow as (i & <- & Hi).
    apply Haveraged', nth_In.
    assert (Hdraw : In i (fst (permutation G (seed G 42)
                                    (length (averaged_df_shuffled out)))))
      by (rewrite <- (firstn_skipn (top_3_percent_count out));
          apply in_or_app; now left).
    clear Hi. rename Hdraw into Hi.
    pose proof (permutation_spec G (seed G 42)
                  (length (averaged_df_shuffled out))) as Hp.
    apply (Permutation_in _ Hp), in_seq in Hi. lia.
Qed.

(** X25.  What a call does to the process-wide generator of numpy: a
    run that fails before the table is built leaves it untouched; any
    other run reseeds it with 42 and draws from it once, for the shuffle,
    so that the state it leaves depends on the number of filtered rows
    alone; the subsample, drawn from a generator of its own, does not
    advance it. *)
Theorem process_image_generator (img : cube float)
        (wavelengths : list float) (requested : option nat)
        (threshold q : float) :
  (forall e, spectral_table img wavelengths threshold = Raise e ->
             forall g, process_image G img wavelengths requested
                                     threshold q g = (Raise e, g)) /\
  (forall mask df,
      spectral_table img wavelengths threshold = OK (mask, df) ->
      forall g,
        let rows := length (quality_filter q df) in
        let size := match requested with
                    | None => rows
                    | Some n => n
                    end in
        snd (process_image G img wavelengths requested threshold q g)
        = if size =? 0 then seed G 42
          else snd (permutation G (seed G 42) rows)).
Proof.
  split.
  - intros e He g. unfold process_image, bind, lift. now rewrite He.
  - intros mask df Htable g rows size.
    unfold process_image, bind, lift. rewrite Htable.
    unfold group_and_sample, bind, lift, np_random_seed, ret, floordiv.
    simpl fst. simpl snd. fold rows. fold size.
    destruct (size =? 0); [reflexivity|].
    unfold sample_frac_1. rewrite choice_all.
    destruct (count_3_percent _) as [count|]; [|reflexivity].
    unfold sample_n. now destruct (choice G (seed G 42) _ count) as [[]].
Qed.

(** X24.  With wavelengths whose labels [f"{wavelength:.2f}"] are
    distinct: once the table is built, the only way for a run to fail is
    a group size of zero, given as such or the default of an empty
    filtered table: the run then raises [ZeroDivisionError] with the
    generator just seeded, and it completes otherwise. *)
Theorem process_image_fails_iff (img : cube float)
        (wavelengths : list float) (requested : option nat)
        (threshold q : float) (g : rng G)
        (mask : list (list bool)) (df : table)
        (Hlabels : NoDup (wavelength_columns wavelengths))
        (Htable : spectral_table img wavelengths threshold = OK (mask, df))
        (Hsmall : (Z.of_nat (length (quality_filter q df)) < 2 ^ 51)%Z) :
  let size := match requested with
              | None => length (quality_filter q df)
              | Some n => n
              end in
  (size = 0 ->
   process_image G img wavelengths requested threshold q g
   = (Raise ZeroDivisionError, seed G 42)) /\
  (size <> 0 ->
   exists out g',
     process_image G img wavelengths requested threshold q g
     = (OK out, g')).
Proof.
  intros size. split.
  - intros Hzero.
    unfold process_image, bind, lift. rewrite Htable.
    unfold group_and_sample, bind, lift, np_random_seed, floordiv.
    simpl fst. simpl snd. fold size. now rewrite Hzero.
  - intros Hsize.
    apply process_image_completes with (mask := mask) (df := df); auto.
    fold size.
    assert (Hle : length (quality_filter q df) / size
                  <= length (quality_filter q df))
      by (apply Nat.Div0.div_le_upper_bound; nia).
    lia.
Qed.

End RunStructure.

(** The six pixels give a table of four spectra, all of which pass the
    default quality filter; every run on them with a group size that is
    not zero completes. *)
Lemma six_pixels_completes (requested : option nat) :
  requested <> Some 0 ->
  exists out g',
    process_image congruential six_pixels sensor_wavelengths requested
                  default_threshold default_quality_filter_threshold 7
    = (OK out, g').
Proof.
  intros Hsize.
  assert (Hrows : length (quality_filter
                            default_quality_filter_threshold
                            [spectrum quarter quarter half;
                             spectrum quarter quarter F32.one;
                             spectrum quarter F32.zero half;
                             spectrum quarter quarter half]) = 4)
    by (vm_compute; reflexivity).
  apply process_image_completes
    with (mask := [[true; false; true]; [false; true; true]])
         (df := [spectrum quarter quarter half;
                 spectrum quarter quarter F32.one;
                 spectrum quarter F32.zero half;
                 spectrum quarter quarter half]).
  - reflexivity.
  - rewrite Hrows. destruct requested as [[|n]|]; congruence.
  - rewrite Hrows.
    assert (Hle : forall size, 4 / size <= 4)
      by (intros [|size]; [simpl; lia|];
          apply Nat.Div0.div_le_upper_bound; nia).
    specialize (Hle match requested with
                    | Some n => n
                    | None => 4
                    end).
    lia.
Qed.

Lemma six_pixels_rows (requested : option nat) (out : extraction)
      (g' : nat) :
  process_image congruential six_pixels sensor_wavelengths requested
                default_threshold default_quality_filter_threshold 7
  = (OK out, g') ->
  length (filtered_df out) = 4 /\
  group_size out = match requested with
                   | None => 4
                   | Some n => n
                   end /\
  length (averaged_df_shuffled out) = 4 / group_size out.
Proof.
  intros Hrun.
  destruct (process_image_inv _ _ _ _ _ _ _ Hrun)
    as (Htable & Hfiltered & Hsize & _ & Haveraged & _).
  assert (Hdf : spectral_table six_pixels sensor_wavelengths
                               default_threshold
                = OK ([[true; false; true]; [false; true; true]],
                      [spectrum quarter quarter half;
                       spectrum quarter quarter F32.one;
                       spectrum quarter F32.zero half;
                       spectrum quarter quarter half]))
    by reflexivity.
  rewrite Hdf in Htable. injection Htable as _ Hrows.
  assert (Hfour : length (filtered_df out) = 4)
    by (rewrite Hfiltered, <- Hrows; vm_compute; reflexivity).
  split; [exact Hfour|]. split.
  - rewrite Hsize, Hfour. reflexivity.
  - now rewrite Haveraged, length_map, length_seq, Hfour.
Qed.

(** The six pixels in groups of two. *)
Lemma report_mask_rows_witness :
  exists out g',
    process_image congruential six_pixels sensor_wavelengths (Some 2)
                  default_threshold default_quality_filter_threshold 7
    = (OK out, g') /\
    count_nonzero (mask out) = length (df out) /\
    nth_error (report out) 1
    = Some ("Number of pixels in mask and number of rows in df are the same."
              ++ newline)%string.
Proof.
  destruct (@six_pixels_completes (Some 2)) as (out & g' & Hrun);
    [discriminate|].
  exists out, g'. split; [exact Hrun|].
  exact (report_mask_rows _ _ _ _ _ _ _ Hrun).
Defined.

Lemma process_image_groups_witness :
  exists out g',
    process_image congruential six_pixels sensor_wavelengths (Some 2)
                  default_threshold default_quality_filter_threshold 7
    = (OK out, g') /\
    exists blocks rest,
      Permutation (concat blocks ++ rest) (filtered_df out) /\
      Forall (fun block => length block = group_size out) blocks /\
      length rest = length (filtered_df out) mod group_size out /\
      length rest < group_size out /\
      averaged_df_shuffled out
      = map (mean_axis0 (length sensor_wavelengths)) blocks.
Proof.
  destruct (@six_pixels_completes (Some 2)) as (out & g' & Hrun);
    [discriminate|].
  exists out, g'. split; [exact Hrun|].
  exact (process_image_groups _ _ _ _ _ _ _ Hrun).
Defined.


(** Four filtered rows in groups of one: four groups, fewer than 34. *)
Lemma process_image_subsample_empty_witness :
  exists out g',
    process_image congruential six_pixels sensor_wavelengths (Some 1)
                  default_threshold default_quality_filter_threshold 7
    = (OK out, g') /\
    length (averaged_df_shuffled out) = 4 /\
    (top_3_percent_df out = []
     <-> length (averaged_df_shuffled out) < 34) /\
    (length (averaged_df_shuffled out) < 34
     <-> length (filtered_df out) < 34 * group_size out).
Proof.
  destruct (@six_pixels_completes (Some 1)) as (out & g' & Hrun);
    [discriminate|].
  assert (Hgroups : length (averaged_df_shuffled out) = 4).
  { destruct (six_pixels_rows _ Hrun) as (_ & Hs & Ha).
    rewrite Ha, Hs. reflexivity. }
  exists out, g'. split; [exact Hrun|]. split; [exact Hgroups|].
  apply (process_image_subsample_empty _ _ _ _ _ _ _ Hrun).
  rewrite Hgroups. reflexivity.
Defined.

(** The six pixels with the default group size: one group of four
    rows. *)
Lemma process_image_default_group_size_witness :
  exists out g',
    process_image congruential six_pixels sensor_wavelengths None
                  default_threshold default_quality_filter_threshold 7
    = (OK out, g') /\
    group_size out = length (filtered_df out) /\
    length (averaged_df_shuffled out) = 1 /\
    top_3_percent_count out = 0 /\
    top_3_percent_df out = [].
Proof.
  destruct (@six_pixels_completes None) as (out & g' & Hrun);
    [discriminate|].
  exists out, g'. split; [exact Hrun|].
  exact (process_image_default_group_size _ _ _ _ _ _ Hrun).
Defined.

Lemma process_image_row_lengths_witness :
  exists out g',
    process_image congruential six_pixels sensor_wavelengths (Some 2)
                  default_threshold default_quality_filter_threshold 7
    = (OK out, g') /\
    let columns := fun row : list float => length row = 87 in
    0 < length (df out) /\
    Forall columns (df out) /\
    Forall columns (filtered_df out) /\
    Forall columns (averaged_df_shuffled out) /\
    Forall columns (top_3_percent_df out).
Proof.
  destruct (@six_pixels_completes (Some 2)) as (out & g' & Hrun);
    [discriminate|].
  exists out, g'. split; [exact Hrun|].
  exact (process_image_row_lengths _ _ _ _ _ _ _ Hrun).
Defined.

(** The six pixels, under the labels 665.00 to 751.00: a group size of
    zero fails, any other completes. *)
Lemma process_image_fails_iff_witness :
  hd_error (wavelength_columns sensor_wavelengths) = Some "665.00"%string /\
  process_image congruential six_pixels sensor_wavelengths (Some 0)
                default_threshold default_quality_filter_threshold 7
  = (Raise ZeroDivisionError, 42) /\
  exists out g',
    process_image congruential six_pixels sensor_wavelengths (Some 20)
                  default_threshold default_quality_filter_threshold 7
    = (OK out, g').
Proof.
  set (mask := [[true; false; true]; [false; true; true]]).
  set (df := [spectrum quarter quarter half;
              spectrum quarter quarter F32.one;
              spectrum quarter F32.zero half;
              spectrum quarter quarter half]).
  assert (Htable : spectral_table six_pixels sensor_wavelengths
                                  default_threshold = OK (mask, df))
    by reflexivity.
  assert (Hsmall : (Z.of_nat (length (quality_filter
                                        default_quality_filter_threshold
                                        df)) < 2 ^ 51)%Z)
    by (vm_compute; reflexivity).
  assert (Hlabels : NoDup (wavelength_columns sensor_wavelengths)).
  { assert (Hnodup : nodup string_dec (wavelength_columns sensor_wavelengths)
                     = wavelength_columns sensor_wavelengths)
      by (vm_compute; reflexivity).
    rewrite <- Hnodup. apply NoDup_nodup. }
  destruct (@process_image_fails_iff congruential six_pixels
              sensor_wavelengths (Some 0) default_threshold
              default_quality_filter_threshold 7 mask df
              Hlabels Htable Hsmall)
    as [Hfails _].
  destruct (@process_image_fails_iff congruential six_pixels
              sensor_wavelengths (Some 20) default_threshold
              default_quality_filter_threshold 7 mask df
              Hlabels Htable Hsmall)
    as [_ Hcompletes].
  split; [reflexivity|].
  split; [exact (Hfails eq_refl)|].
  apply Hcompletes. discriminate.
Defined.
